(** * Session lifecycle and skill verification: a shallow embedding

    The development follows the TypeScript sources

    - [src/lib/session.ts]            (SessionManager, error classifier),
    - [src/lib/skill-verification.ts] (SkillVerifier),
    - [src/lib/config-schema.ts]      (validateSessionConfig).

    JavaScript [Map]s are insertion-ordered association lists, objects that
    are mutated in place live in a heap indexed by reference, [Date.now()]
    reads an explicit clock, and every [await] of the asynchronous code is a
    state of an explicit continuation machine that the environment resumes
    with an event (a network response, a timer). *)

From Stdlib Require Import ZArith String Ascii List Bool Lia.
From stdpp Require Import base option list pretty.
Import ListNotations.
Set Warnings "-register-all".
Local Open Scope string_scope.
Local Open Scope list_scope.
Local Open Scope Z_scope.

(* ===================================================================== *)
(** * Part I: definitions *)
(* ===================================================================== *)

(** ** JavaScript strings *)

(** [String.prototype.toLowerCase] on the ASCII range: the letters [A] to
    [Z] are folded, every other character is left as it is. *)
Definition lower_ascii (c : ascii) : ascii :=
  let n := nat_of_ascii c in
  if (Nat.leb 65 n && Nat.leb n 90)%bool then ascii_of_nat (n + 32) else c.

Fixpoint toLowerCase (s : string) : string :=
  match s with
  | EmptyString => EmptyString
  | String c r => String (lower_ascii c) (toLowerCase r)
  end.

(** [hay.includes(needle)]: [needle] occurs in [hay] as a substring. *)
Fixpoint includes (needle hay : string) : bool :=
  String.prefix needle hay ||
  match hay with
  | EmptyString => false
  | String _ r => includes needle r
  end.

(** ** JavaScript values of unknown type

    What [JSON.parse] can return, plus [undefined] for an absent property.
    Numbers are the integers (millisecond time stamps and time-outs). *)
Inductive jsval : Type :=
| JUndefined
| JNull
| JBool (b : bool)
| JNum (z : Z)
| JStr (s : string)
| JArr (items : list jsval)
| JObj (props : list (string * jsval)).

(** ** JavaScript [Map] with string keys

    Entries are kept in insertion order; [set] on a key that is present
    replaces the value in place. *)
Section JsMap.
Context {V : Type}.

Fixpoint map_get (k : string) (m : list (string * V)) : option V :=
  match m with
  | [] => None
  | (k', v) :: r => if String.eqb k k' then Some v else map_get k r
  end.

Fixpoint map_set (k : string) (v : V) (m : list (string * V)) : list (string * V) :=
  match m with
  | [] => [(k, v)]
  | (k', v') :: r =>
      if String.eqb k k' then (k, v) :: r else (k', v') :: map_set k v r
  end.

Fixpoint map_delete (k : string) (m : list (string * V)) : list (string * V) :=
  match m with
  | [] => []
  | (k', v') :: r =>
      if String.eqb k k' then map_delete k r else (k', v') :: map_delete k r
  end.

Definition map_keys (m : list (string * V)) : list string := map fst m.
Definition map_values (m : list (string * V)) : list V := map snd m.

End JsMap.

(** ** Error classifier ([session.ts]) *)

Definition DEFAULT_SESSION_TIMEOUT : Z := 30000.
Definition MAX_RETRIES : nat := 3.
Definition RETRY_DELAY_BASE : Z := 1000.

(** An instance of [Error]: its [name], its [message], and the [statusCode]
    property when the object has one (as [ApiError] does). *)
Record JsError : Type := mkJsError {
  err_name : string;
  err_message : string;
  err_statusCode : option Z;
}.

(** A value of type [unknown] handed to the classifier: an [Error], or
    anything else (a string, [null], a plain object with whatever
    properties). *)
Inductive thrown : Type :=
| ThrownError (e : JsError)
| ThrownOther (message : option string) (statusCode : option Z).

(** [new Error(message)] *)
Definition newError (message : string) : JsError :=
  mkJsError "Error" message None.

Definition calculateRetryDelay (attempt : nat) : Z :=
  Z.min (RETRY_DELAY_BASE * 2 ^ Z.of_nat attempt) 30000.

Definition isNetworkError (error : thrown) : bool :=
  match error with
  | ThrownError e =>
      let message := toLowerCase (err_message e) in
      includes "eai_again" message ||
      includes "enotfound" message ||
      includes "network" message ||
      includes "dns" message ||
      includes "getaddrinfo" message ||
      includes "fetch failed" message ||
      includes "connection refused" message
  | ThrownOther _ _ => false
  end.

Definition isRecoverableError (error : thrown) : bool :=
  if isNetworkError error then true
  else
    match error with
    | ThrownError e =>
        match err_statusCode e with
        | Some statusCode => (500 <=? statusCode) && (statusCode <? 600)
        | None => if includes "rate limit" (err_message e) then true else false
        end
    | ThrownOther _ _ => false
    end.

(** ** Session records ([session.ts]) *)

Inductive SessionStatus : Type :=
| idle | initializing | running | error | terminated.

Definition SessionStatus_eqb (a b : SessionStatus) : bool :=
  match a, b with
  | idle, idle | initializing, initializing | running, running
  | error, error | terminated, terminated => true
  | _, _ => false
  end.

Module SessionStats.
Record t : Type := mk {
  totalTokens : Z;
  turnCount : Z;
  startTime : Z;
  lastActivityTime : Z;
}.
End SessionStats.

(** [SessionConfig] declares four properties.  TypeScript checks the
    interface structurally, so the object a caller passes can own further
    properties at run time; [extra] lists them, in property order. *)
Module SessionConfig.
Record t : Type := mk {
  model : string;
  system : option string;
  tools : option (list string);
  timeout : option Z;
  extra : list (string * jsval);
}.

(** The keys that [Object.keys(config)] lists.  The declared properties
    come first here; the order in which the object itself lists them is not
    modelled, and what is proved of the keys is proved of the key set. *)
Definition keys (c : t) : list string :=
  ["model"]
  ++ match system c with Some _ => ["system"] | None => [] end
  ++ match tools c with Some _ => ["tools"] | None => [] end
  ++ match timeout c with Some _ => ["timeout"] | None => [] end
  ++ map fst (extra c).
End SessionConfig.

Module SessionError.
Record t : Type := mk {
  code : string;
  message : string;
  recoverable : bool;
  timestamp : Z;
}.
End SessionError.

(** [Omit<SessionError, 'timestamp'>] *)
Module SessionErrorInfo.
Record t : Type := mk {
  code : string;
  message : string;
  recoverable : bool;
}.
End SessionErrorInfo.

Module Session.
Record t : Type := mk {
  id : string;
  name : string;
  status : SessionStatus;
  systemSent : bool;
  interrupted : bool;
  config : SessionConfig.t;
  stats : SessionStats.t;
  error : option SessionError.t;
  createdAt : Z;
  updatedAt : Z;
}.
End Session.

(** [Partial<Omit<Session, 'id' | 'createdAt'>>]: a property that is absent
    is [None]. *)
Module SessionUpdates.
Record t : Type := mk {
  name : option string;
  status : option SessionStatus;
  systemSent : option bool;
  interrupted : option bool;
  config : option SessionConfig.t;
  stats : option SessionStats.t;
  error : option SessionError.t;
  updatedAt : option Z;
}.
Definition empty : t := mk None None None None None None None None.
End SessionUpdates.

(** ** SessionManager ([session.ts])

    The state of the singleton: the two private maps, the [AbortController]
    objects handed out so far (a controller is its index, the heap cell is
    its [signal.aborted] flag), and the clock that [Date.now()] reads
    ([clock] is the sequence of values the successive calls return, [ticks]
    the number of calls made). *)
Module SessionManager.

Record t : Type := mk {
  sessions : list (string * Session.t);
  pendingOperations : list (string * nat);
  controllers : list bool;
  clock : nat -> Z;
  ticks : nat;
}.

Definition with_sessions (ss : list (string * Session.t)) (m : t) : t :=
  mk ss (pendingOperations m) (controllers m) (clock m) (ticks m).
Definition with_pendingOperations (po : list (string * nat)) (m : t) : t :=
  mk (sessions m) po (controllers m) (clock m) (ticks m).
Definition with_controllers (cs : list bool) (m : t) : t :=
  mk (sessions m) (pendingOperations m) cs (clock m) (ticks m).

(** A manager constructed over empty storage. *)
Definition init (clk : nat -> Z) : t := mk [] [] [] clk 0%nat.

(** [Date.now()] *)
Definition dateNow (m : t) : Z * t :=
  (clock m (ticks m),
   mk (sessions m) (pendingOperations m) (controllers m) (clock m) (S (ticks m))).

(** [saveToStorage] hands a copy of the map to the storage collaborator and
    swallows its failure; the in-memory state is not touched. *)
Definition saveToStorage (m : t) : t := m.

Definition isZombieSession (session : Session.t) (m : t) : bool * t :=
  let timeout :=
    match SessionConfig.timeout (Session.config session) with
    | Some tm => if tm =? 0 then DEFAULT_SESSION_TIMEOUT else tm
    | None => DEFAULT_SESSION_TIMEOUT
    end in
  let '(now, m1) := dateNow m in
  let timeSinceActivity := now - SessionStats.lastActivityTime (Session.stats session) in
  (Session.systemSent session
   && negb (SessionStatus_eqb (Session.status session) terminated)
   && negb (SessionStatus_eqb (Session.status session) error)
   && (timeout <? timeSinceActivity),
   m1).

Definition createSession (id name : string) (config : SessionConfig.t) (m : t)
  : Session.t * t :=
  let '(now, m1) := dateNow m in
  let session :=
    Session.mk id name idle false false
      (SessionConfig.mk
         (SessionConfig.model config) (SessionConfig.system config)
         (SessionConfig.tools config)
         (Some match SessionConfig.timeout config with
               | Some tm => if tm =? 0 then DEFAULT_SESSION_TIMEOUT else tm
               | None => DEFAULT_SESSION_TIMEOUT
               end)
         (SessionConfig.extra config))
      (SessionStats.mk 0 0 now now)
      None now now in
  (session, saveToStorage (with_sessions (map_set id session (sessions m1)) m1)).

Definition getSession (id : string) (m : t) : option Session.t :=
  map_get id (sessions m).

Definition getAllSessions (m : t) : list Session.t := map_values (sessions m).

(** [{...session, ...updates, updatedAt: Date.now(),
      stats: {...session.stats, ...updates.stats, lastActivityTime: Date.now()}}] *)
Definition updateSession (id : string) (updates : SessionUpdates.t) (m : t)
  : option Session.t * t :=
  match map_get id (sessions m) with
  | None => (None, m)
  | Some session =>
      let '(t1, m1) := dateNow m in
      let '(t2, m2) := dateNow m1 in
      let st := default (Session.stats session) (SessionUpdates.stats updates) in
      let updatedSession :=
        Session.mk
          (Session.id session)
          (default (Session.name session) (SessionUpdates.name updates))
          (default (Session.status session) (SessionUpdates.status updates))
          (default (Session.systemSent session) (SessionUpdates.systemSent updates))
          (default (Session.interrupted session) (SessionUpdates.interrupted updates))
          (default (Session.config session) (SessionUpdates.config updates))
          (SessionStats.mk (SessionStats.totalTokens st) (SessionStats.turnCount st)
             (SessionStats.startTime st) t2)
          (match SessionUpdates.error updates with
           | Some e => Some e
           | None => Session.error session
           end)
          (Session.createdAt session)
          t1 in
      (Some updatedSession,
       saveToStorage (with_sessions (map_set id updatedSession (sessions m2)) m2))
  end.

Definition markSystemSent (id : string) (m : t) : option Session.t * t :=
  match map_get id (sessions m) with
  | None => (None, m)
  | Some session =>
      if negb (SessionStatus_eqb (Session.status session) running)
      then (None, m)
      else
        updateSession id
          (SessionUpdates.mk None None (Some true) None None None None None) m
  end.

Definition startSession (id : string) (m : t) : option Session.t * t :=
  updateSession id
    (SessionUpdates.mk None (Some running) (Some false) None None None None None) m.

Definition cancelPendingOperations (sessionId : string) (m : t) : t :=
  match map_get sessionId (pendingOperations m) with
  | Some controller =>
      with_pendingOperations (map_delete sessionId (pendingOperations m))
        (with_controllers (<[controller := true]> (controllers m)) m)
  | None => m
  end.

Definition errorSession (id : string) (err : SessionErrorInfo.t) (m : t)
  : option Session.t * t :=
  let m1 := cancelPendingOperations id m in
  let '(ts, m2) := dateNow m1 in
  updateSession id
    (SessionUpdates.mk None (Some error) (Some false) None None None
       (Some (SessionError.mk (SessionErrorInfo.code err) (SessionErrorInfo.message err)
                (SessionErrorInfo.recoverable err) ts))
       None) m2.

Definition terminateSession (id : string) (m : t) : option Session.t * t :=
  let m1 := cancelPendingOperations id m in
  updateSession id
    (SessionUpdates.mk None (Some terminated) (Some false) (Some true) None None None None)
    m1.

Definition deleteSession (id : string) (m : t) : bool * t :=
  let m1 := cancelPendingOperations id m in
  match map_get id (sessions m1) with
  | Some _ => (true, saveToStorage (with_sessions (map_delete id (sessions m1)) m1))
  | None => (false, m1)
  end.

Definition registerOperation (sessionId : string) (m : t) : nat * t :=
  let m1 := cancelPendingOperations sessionId m in
  let controller := length (controllers m1) in
  (controller,
   with_pendingOperations (map_set sessionId controller (pendingOperations m1))
     (with_controllers (controllers m1 ++ [false]) m1)).

(** [controller.signal.aborted] *)
Definition aborted (controller : nat) (m : t) : bool :=
  default false (controllers m !! controller).

(** The [for ... of this.sessions] loop of [cleanupZombieSessions]: the
    iterator visits the keys in order and yields the value each key has when
    it is reached. *)
Fixpoint cleanupLoop (ids : list string) (cleaned : nat) (m : t) : nat * t :=
  match ids with
  | [] => (cleaned, m)
  | id :: rest =>
      match map_get id (sessions m) with
      | None => cleanupLoop rest cleaned m
      | Some session =>
          let '(zombie, m1) := isZombieSession session m in
          if zombie
          then cleanupLoop rest (S cleaned) (snd (terminateSession id m1))
          else cleanupLoop rest cleaned m1
      end
  end.

Definition cleanupZombieSessions (m : t) : nat * t :=
  cleanupLoop (map_keys (sessions m)) 0%nat m.

Definition updateStats (id : string) (tokensDelta : Z) (incrementTurn : bool) (m : t)
  : option Session.t * t :=
  match map_get id (sessions m) with
  | None => (None, m)
  | Some session =>
      let st := Session.stats session in
      updateSession id
        (SessionUpdates.mk None None None None None
           (Some (SessionStats.mk
                    (SessionStats.totalTokens st + tokensDelta)
                    (if incrementTurn then SessionStats.turnCount st + 1
                     else SessionStats.turnCount st)
                    (SessionStats.startTime st)
                    (SessionStats.lastActivityTime st)))
           None None) m
  end.

End SessionManager.

(** The public lifecycle operations of a SessionManager, as a caller (or
    the skill verifier) can invoke them one after the other. *)
Inductive LifecycleOp : Type :=
| OpCreateSession (id name : string) (config : SessionConfig.t)
| OpStartSession (id : string)
| OpMarkSystemSent (id : string)
| OpErrorSession (id : string) (err : SessionErrorInfo.t)
| OpTerminateSession (id : string)
| OpCleanupZombieSessions
| OpDeleteSession (id : string)
| OpUpdateStats (id : string) (tokensDelta : Z) (incrementTurn : bool)
| OpRegisterOperation (sessionId : string)
| OpCancelPendingOperations (sessionId : string).

Definition runOp (op : LifecycleOp) (m : SessionManager.t) : SessionManager.t :=
  match op with
  | OpCreateSession id name config => snd (SessionManager.createSession id name config m)
  | OpStartSession id => snd (SessionManager.startSession id m)
  | OpMarkSystemSent id => snd (SessionManager.markSystemSent id m)
  | OpErrorSession id err => snd (SessionManager.errorSession id err m)
  | OpTerminateSession id => snd (SessionManager.terminateSession id m)
  | OpCleanupZombieSessions => snd (SessionManager.cleanupZombieSessions m)
  | OpDeleteSession id => snd (SessionManager.deleteSession id m)
  | OpUpdateStats id d inc => snd (SessionManager.updateStats id d inc m)
  | OpRegisterOperation sid => snd (SessionManager.registerOperation sid m)
  | OpCancelPendingOperations sid => SessionManager.cancelPendingOperations sid m
  end.

Definition runOps (ops : list LifecycleOp) (m : SessionManager.t) : SessionManager.t :=
  fold_left (fun acc op => runOp op acc) ops m.

(** The managers a program can bring about: a fresh manager over empty
    storage, then any sequence of lifecycle operations. *)
Inductive reachable : SessionManager.t -> Prop :=
| reachable_init clk : reachable (SessionManager.init clk)
| reachable_step op m : reachable m -> reachable (runOp op m).

(** The single-flag invariant of a session record and of a manager. *)
Definition sessionOk (s : Session.t) : Prop :=
  Session.systemSent s = true -> Session.status s = running.

Definition managerOk (m : SessionManager.t) : Prop :=
  forall id s, SessionManager.getSession id m = Some s -> sessionOk s.

(** The allow-list of config keys ([validateSession]; the keys of
    [sessionConfigSchema]). *)
Definition allowedConfigKeys : list string := ["model"; "system"; "tools"; "timeout"].

(** ** Records read back from storage ([loadFromStorage])

    What [getFromStorage] returns has the static type
    [Record<string, Session>], but it is whatever the storage collaborator
    parsed, so the load path is modelled on values of unknown type. *)

(** [!!v] *)
Definition truthy (v : jsval) : bool :=
  match v with
  | JUndefined | JNull => false
  | JBool b => b
  | JNum z => negb (z =? 0)
  | JStr s => negb (String.eqb s "")
  | JArr _ | JObj _ => true
  end.

Definition typeof (v : jsval) : string :=
  match v with
  | JUndefined => "undefined"
  | JNull => "object"
  | JBool _ => "boolean"
  | JNum _ => "number"
  | JStr _ => "string"
  | JArr _ | JObj _ => "object"
  end.

(** [v.k] for a value [v] that is neither [null] nor [undefined] and a key
    [k] that is an own property of plain objects only (none of the keys the
    code reads is an array index, [length], or a prototype property). *)
Definition prop (v : jsval) (k : string) : jsval :=
  match v with
  | JObj props => default JUndefined (map_get k props)
  | _ => JUndefined
  end.

(** [v.k] in general: reading a property of [null] or [undefined] throws a
    [TypeError], which is [None]. *)
Definition getProp (v : jsval) (k : string) : option jsval :=
  match v with
  | JUndefined | JNull => None
  | _ => Some (prop v k)
  end.

Definition indexKeys (n : nat) : list string := map pretty (seq 0 n).

Fixpoint chars (s : string) : list jsval :=
  match s with
  | EmptyString => []
  | String c r => JStr (String c EmptyString) :: chars r
  end.

(** [Object.keys(v)] for [v] other than [null] and [undefined]. *)
Definition objectKeys (v : jsval) : list string :=
  match v with
  | JObj props => map fst props
  | JArr items => indexKeys (length items)
  | JStr s => indexKeys (String.length s)
  | _ => []
  end.

(** [Object.entries(v)]; [None] is the [TypeError] on [null] and
    [undefined]. *)
Definition objectEntries (v : jsval) : option (list (string * jsval)) :=
  match v with
  | JUndefined | JNull => None
  | JObj props => Some props
  | JArr items => Some (zip (indexKeys (length items)) items)
  | JStr s => Some (zip (indexKeys (String.length s)) (chars s))
  | JBool _ | JNum _ => Some []
  end.

(** The outcome of [getFromStorage(SESSIONS_STORAGE_KEY, {})], a helper of
    [./utils] that is not part of the sources at hand: it returns a value or
    it throws. *)
Inductive StorageRead : Type :=
| StorageThrows
| StorageReturns (stored : jsval).

Section LoadFromStorage.
(** [ToNumber] of a string, an array or an object follows the number
    grammar of the JavaScript runtime; it is a parameter here.  [None] is
    [NaN]. *)
Variable toNumberOther : jsval -> option Z.
Variable clock : nat -> Z.

Definition toNumber (v : jsval) : option Z :=
  match v with
  | JUndefined => None
  | JNull => Some 0
  | JBool b => Some (if b then 1 else 0)
  | JNum z => Some z
  | JStr _ | JArr _ | JObj _ => toNumberOther v
  end.

(** [isZombieSession(session)] on a stored record, [now] being what
    [Date.now()] returns; [None] when a property read throws. *)
Definition isZombieAt (now : Z) (session : jsval) : option bool :=
  match getProp session "config" with
  | None => None
  | Some config =>
      match getProp config "timeout" with
      | None => None
      | Some tm =>
          let timeout := if truthy tm then tm else JNum DEFAULT_SESSION_TIMEOUT in
          match getProp (prop session "stats") "lastActivityTime" with
          | None => None
          | Some last =>
              let timeSinceActivity :=
                match toNumber last with Some l => Some (now - l) | None => None end in
              Some (match prop session "systemSent" with JBool true => true | _ => false end
                    && match prop session "status" with
                       | JStr st => negb (String.eqb st "terminated")
                       | _ => true
                       end
                    && match prop session "status" with
                       | JStr st => negb (String.eqb st "error")
                       | _ => true
                       end
                    && match timeSinceActivity, toNumber timeout with
                       | Some a, Some b => b <? a
                       | _, _ => false
                       end)
          end
      end
  end.

Definition validateSession (session : jsval) : bool :=
  if negb (truthy session) || negb (String.eqb (typeof session) "object") then false
  else if negb (String.eqb (typeof (prop session "id")) "string") then false
  else if negb (String.eqb (typeof (prop session "name")) "string") then false
  else if negb (String.eqb (typeof (prop session "systemSent")) "boolean") then false
  else if negb (String.eqb (typeof (prop session "interrupted")) "boolean") then false
  else
    let config := prop session "config" in
    if negb (truthy config) || negb (String.eqb (typeof config) "object") then false
    else if negb (String.eqb (typeof (prop config "model")) "string") then false
    else if negb (forallb (fun key => existsb (String.eqb key) allowedConfigKeys)
                    (objectKeys config)) then false
    else
      let stats := prop session "stats" in
      if negb (truthy stats) || negb (String.eqb (typeof stats) "object") then false
      else true.

(** The body of the [for ... of Object.entries(stored)] loop, run over the
    entries still to visit; [sessions] is the map built so far, [ticks] the
    number of [Date.now()] calls made, and [None] an exception that leaves
    the [try] block. *)
Fixpoint loadLoop (entries : list (string * jsval)) (sessions : list (string * jsval))
    (ticks : nat) : option (list (string * jsval)) :=
  match entries with
  | [] => Some sessions
  | (id, session) :: rest =>
      match isZombieAt (clock ticks) session with
      | None => None
      | Some true => loadLoop rest sessions (S ticks)
      | Some false =>
          if validateSession session
          then loadLoop rest (map_set id session sessions) (S ticks)
          else loadLoop rest sessions (S ticks)
      end
  end.

(** The session map after the constructor has run [loadFromStorage]; the
    [catch] clause clears the map. *)
Definition loadFromStorage (read : StorageRead) : list (string * jsval) :=
  match read with
  | StorageThrows => []
  | StorageReturns stored =>
      match objectEntries stored with
      | None => []
      | Some entries =>
          match loadLoop entries [] 0%nat with
          | None => []
          | Some sessions => sessions
          end
      end
  end.

End LoadFromStorage.

(** A [Session] as the object that is written to storage: its properties
    and their values; the order of the properties is not the object's. *)
Definition statusName (st : SessionStatus) : string :=
  match st with
  | idle => "idle" | initializing => "initializing" | running => "running"
  | error => "error" | terminated => "terminated"
  end.

Definition configToJs (c : SessionConfig.t) : jsval :=
  JObj ([("model", JStr (SessionConfig.model c))]
        ++ match SessionConfig.system c with Some x => [("system", JStr x)] | None => [] end
        ++ match SessionConfig.tools c with
           | Some l => [("tools", JArr (map JStr l))] | None => [] end
        ++ match SessionConfig.timeout c with Some z => [("timeout", JNum z)] | None => [] end
        ++ SessionConfig.extra c).

Definition sessionToJs (s : Session.t) : jsval :=
  JObj ([("id", JStr (Session.id s)); ("name", JStr (Session.name s));
         ("status", JStr (statusName (Session.status s)));
         ("systemSent", JBool (Session.systemSent s));
         ("interrupted", JBool (Session.interrupted s));
         ("config", configToJs (Session.config s));
         ("stats",
          JObj [("totalTokens", JNum (SessionStats.totalTokens (Session.stats s)));
                ("turnCount", JNum (SessionStats.turnCount (Session.stats s)));
                ("startTime", JNum (SessionStats.startTime (Session.stats s)));
                ("lastActivityTime",
                 JNum (SessionStats.lastActivityTime (Session.stats s)))])]
        ++ match Session.error s with
           | Some e =>
               [("error",
                 JObj [("code", JStr (SessionError.code e));
                       ("message", JStr (SessionError.message e));
                       ("recoverable", JBool (SessionError.recoverable e));
                       ("timestamp", JNum (SessionError.timestamp e))])]
           | None => []
           end
        ++ [("createdAt", JNum (Session.createdAt s));
            ("updatedAt", JNum (Session.updatedAt s))]).

(** ** Configuration schema ([config-schema.ts])

    [sessionConfigSchema] is a strict zod object: [model] a string of at
    least one character, [system] and [tools] optional, [timeout] an
    optional positive number, and no other key. *)

Inductive ZodIssue : Type :=
| too_small (path : string)
| unrecognized_keys (keys : list string).

Module ValidationResult.
Record t : Type := mk {
  success : bool;
  data : option SessionConfig.t;
  errors : list ZodIssue;
}.
End ValidationResult.

(** [sessionConfigSchema.safeParse(config)]: the issues found, none on
    success. *)
Definition sessionConfigSchema_issues (config : SessionConfig.t) : list ZodIssue :=
  (if String.eqb (SessionConfig.model config) "" then [too_small "model"] else [])
  ++ match SessionConfig.timeout config with
     | Some tm => if 0 <? tm then [] else [too_small "timeout"]
     | None => []
     end
  ++ match SessionConfig.extra config with
     | [] => []
     | _ :: _ => [unrecognized_keys (map fst (SessionConfig.extra config))]
     end.

Definition validateSessionConfig (config : SessionConfig.t) : ValidationResult.t :=
  match sessionConfigSchema_issues config with
  | [] => ValidationResult.mk true (Some config) []
  | issues => ValidationResult.mk false None issues
  end.

(** The key set of a config is contained in the allow-list. *)
Definition keysAllowed (config : SessionConfig.t) : bool :=
  forallb (fun k => existsb (String.eqb k) allowedConfigKeys) (SessionConfig.keys config).

(** ** Skill records ([skill-verification.ts]) *)

Definition SKILL_VERIFICATION_TIMEOUT : Z := 5000.

Inductive SkillStatus : Type :=
| unverified | verifying | verified | failed | disabled.

Definition SkillStatus_eqb (a b : SkillStatus) : bool :=
  match a, b with
  | unverified, unverified | verifying, verifying | verified, verified
  | failed, failed | disabled, disabled => true
  | _, _ => false
  end.

Module SkillError.
Record t : Type := mk {
  code : string;
  message : string;
  isNetworkError : bool;
  timestamp : Z;
}.
End SkillError.

Module Skill.
Record t : Type := mk {
  id : string;
  name : string;
  displayName : string;
  status : SkillStatus;
  verificationUrl : option string;
  lastVerified : option Z;
  error : option SkillError.t;
  retryCount : nat;
}.
Definition setStatus (st : SkillStatus) (e : option SkillError.t) (sk : t) : t :=
  mk (id sk) (name sk) (displayName sk) st (verificationUrl sk) (lastVerified sk) e
     (retryCount sk).
Definition setLastVerified (v : Z) (sk : t) : t :=
  mk (id sk) (name sk) (displayName sk) (status sk) (verificationUrl sk) (Some v)
     (error sk) (retryCount sk).
Definition setRetryCount (n : nat) (sk : t) : t :=
  mk (id sk) (name sk) (displayName sk) (status sk) (verificationUrl sk) (lastVerified sk)
     (error sk) n.
(** [skill.status = 'unverified'; skill.error = undefined; skill.retryCount = 0] *)
Definition reset (sk : t) : t :=
  mk (id sk) (name sk) (displayName sk) unverified (verificationUrl sk) (lastVerified sk)
     None 0%nat.
End Skill.

(** A result holds its skill by reference: [skill] is the index of the
    object in the heap of skill objects, [None] being [undefined]. *)
Module SkillVerificationResult.
Record t : Type := mk {
  success : bool;
  skill : option nat;
  error : option SkillError.t;
}.
End SkillVerificationResult.

(** ** SkillVerifier ([skill-verification.ts])

    The asynchronous methods are cut at their [await]s.  A call of
    [performVerification] is a _chain_: it is created by the synchronous
    prefix of the call, rests at the pending [fetch] or at the back-off
    timer, and is resumed by the event that settles what it awaits.  The
    promise that [performVerification] returns is the index of its chain. *)
Module SkillVerifier.

Inductive ChainState : Type :=
| AwaitingFetch (attempt : nat) (lastError : option SkillError.t)
| Sleeping (attempt : nat) (lastError : option SkillError.t) (delay : Z)
| Settled (result : SkillVerificationResult.t).

(** The locals of one [performVerification] call.  [skillId], [skillName]
    and [url] are [skill.id], [skill.name] and [skill.verificationUrl] of
    the object passed in, properties that are never assigned after
    [registerSkill].  [ownerWaiting] tells that the [verifySkill] call that
    created the chain still rests at [await verificationPromise], its
    [finally] block not yet run. *)
Record Chain : Type := mkChain {
  skillId : string;
  skillName : string;
  url : string;
  sessionId : option string;
  abortController : option nat;
  timeout : Z;
  state : ChainState;
  ownerWaiting : bool;
}.

(** One call of the global [fetch], as [fetchWithTimeout] issues it. *)
Record FetchCall : Type := mkFetchCall {
  fetchUrl : string;
  fetchTimeout : Z;
  fetchChain : nat;
}.

Record t : Type := mk {
  skills : list (string * nat);
  objects : list Skill.t;
  verificationPromises : list (string * nat);
  chains : list Chain;
  fetchLog : list FetchCall;
  sessionManager : SessionManager.t;
}.

Definition init (clk : nat -> Z) : t := mk [] [] [] [] [] (SessionManager.init clk).

Definition with_skills (x : list (string * nat)) (w : t) : t :=
  mk x (objects w) (verificationPromises w) (chains w) (fetchLog w) (sessionManager w).
Definition with_objects (x : list Skill.t) (w : t) : t :=
  mk (skills w) x (verificationPromises w) (chains w) (fetchLog w) (sessionManager w).
Definition with_verificationPromises (x : list (string * nat)) (w : t) : t :=
  mk (skills w) (objects w) x (chains w) (fetchLog w) (sessionManager w).
Definition with_chains (x : list Chain) (w : t) : t :=
  mk (skills w) (objects w) (verificationPromises w) x (fetchLog w) (sessionManager w).
Definition with_fetchLog (x : list FetchCall) (w : t) : t :=
  mk (skills w) (objects w) (verificationPromises w) (chains w) x (sessionManager w).
Definition with_sessionManager (x : SessionManager.t) (w : t) : t :=
  mk (skills w) (objects w) (verificationPromises w) (chains w) (fetchLog w) x.

(** [Date.now()], on the clock shared with the session manager: the value
    read and the state after the call. *)
Definition dateNow (w : t) : Z * t :=
  (fst (SessionManager.dateNow (sessionManager w)),
   with_sessionManager (snd (SessionManager.dateNow (sessionManager w))) w).

(** A call into the session manager. *)
Definition onSessionManager (f : SessionManager.t -> SessionManager.t) (w : t) : t :=
  with_sessionManager (f (sessionManager w)) w.

(** [if (sessionId)]: a session is bound when the id is a non-empty string. *)
Definition bound (sessionId : option string) : option string :=
  match sessionId with
  | Some sid => if String.eqb sid "" then None else Some sid
  | None => None
  end.

(** [this.skills.get(skillId)] with the object it refers to. *)
Definition lookupSkill (skillId : string) (w : t) : option (nat * Skill.t) :=
  match map_get skillId (skills w) with
  | Some ref =>
      match objects w !! ref with
      | Some sk => Some (ref, sk)
      | None => None
      end
  | None => None
  end.

(** An assignment to properties of [this.skills.get(skillId)]. *)
Definition modifySkill (skillId : string) (f : Skill.t -> Skill.t) (w : t) : t :=
  match map_get skillId (skills w) with
  | Some ref => with_objects (alter f ref (objects w)) w
  | None => w
  end.

Definition updateSkillStatus (skillId : string) (status : SkillStatus)
    (error : option SkillError.t) (w : t) : t :=
  modifySkill skillId (Skill.setStatus status error) w.

Definition registerSkill (id name displayName : string) (verificationUrl : option string)
    (w : t) : nat * t :=
  let skill := Skill.mk id name displayName unverified verificationUrl None None 0%nat in
  let ref := length (objects w) in
  (ref, with_skills (map_set id ref (skills w)) (with_objects (objects w ++ [skill]) w)).

Definition getSkill (id : string) (w : t) : option nat := map_get id (skills w).

Definition getAllSkills (w : t) : list nat := map_values (skills w).

(** [skill.status] read through a reference. *)
Definition statusOf (ref : nat) (w : t) : option SkillStatus :=
  Skill.status <$> objects w !! ref.

Definition setChainState (p : nat) (st : ChainState) (w : t) : t :=
  with_chains
    (alter (fun c => mkChain (skillId c) (skillName c) (url c) (sessionId c)
                       (abortController c) (timeout c) st (ownerWaiting c))
       p (chains w)) w.

(** [signal.aborted] of the chain's controller ([abortController?.signal.aborted]). *)
Definition chainAborted (c : Chain) (w : t) : bool :=
  match abortController c with
  | Some controller => SessionManager.aborted controller (sessionManager w)
  | None => false
  end.

(** The [catch] branch for an abort: the skill fails with
    [VERIFICATION_CANCELLED] and the call returns. *)
Definition cancelPath (p : nat) (c : Chain) (w : t) : t :=
  let now := fst (dateNow w) in
  let w1 := snd (dateNow w) in
  let cancelError :=
    SkillError.mk "VERIFICATION_CANCELLED" "Skill verification was cancelled" false now in
  let w2 := updateSkillStatus (skillId c) failed (Some cancelError) w1 in
  setChainState p
    (Settled (SkillVerificationResult.mk false (map_get (skillId c) (skills w2))
                (Some cancelError))) w2.

(** [sessionManager.errorSession(sessionId, {...})] as the code after the
    loop calls it. *)
Definition reportFailure (c : Chain) (sid : string) (le : SkillError.t)
    (sm : SessionManager.t) : SessionManager.t :=
  snd (SessionManager.errorSession sid
         (SessionErrorInfo.mk (SkillError.code le)
            (String.append "Skill verification failed for "
               (String.append (skillName c) (String.append ": " (SkillError.message le))))
            (isRecoverableError (ThrownError (newError (SkillError.message le)))))
         sm).

(** The code after the loop: the skill fails with the last error and a
    bound session is put into [error]. *)
Definition failPath (p : nat) (c : Chain) (lastError : option SkillError.t) (w : t) : t :=
  let w1 := updateSkillStatus (skillId c) failed lastError w in
  let w2 :=
    match sessionId c, lastError with
    | Some sid, Some le => onSessionManager (reportFailure c sid le) w1
    | _, _ => w1
    end in
  setChainState p
    (Settled (SkillVerificationResult.mk false (map_get (skillId c) (skills w2)) lastError))
    w2.

(** One turn of the [while] loop up to its [await]: the loop test, the
    check of the abort flag, and the call of [fetch]. *)
Definition loopIteration (p : nat) (c : Chain) (attempt : nat)
    (lastError : option SkillError.t) (w : t) : t :=
  if Nat.leb attempt MAX_RETRIES then
    if chainAborted c w then cancelPath p c w
    else
      setChainState p (AwaitingFetch attempt lastError)
        (with_fetchLog (fetchLog w ++ [mkFetchCall (url c) (timeout c) p]) w)
  else failPath p c lastError w.

(** [response.ok]: the skill is verified and, only here, a bound session
    gets its flag through [markSystemSent]. *)
Definition successPath (p : nat) (c : Chain) (w : t) : t :=
  let w1 := updateSkillStatus (skillId c) verified None w in
  let now := fst (dateNow w1) in
  let w2 := snd (dateNow w1) in
  let w3 := modifySkill (skillId c) (Skill.setLastVerified now) w2 in
  let w4 := modifySkill (skillId c) (Skill.setRetryCount 0%nat) w3 in
  let w5 :=
    match sessionId c with
    | Some sid => onSessionManager (fun sm => snd (SessionManager.markSystemSent sid sm)) w4
    | None => w4
    end in
  setChainState p
    (Settled (SkillVerificationResult.mk true (map_get (skillId c) (skills w5)) None)) w5.

(** The [catch] block for the error [e] thrown in turn [attempt]. *)
Definition catchPath (p : nat) (c : Chain) (attempt : nat) (e : JsError) (w : t) : t :=
  if String.eqb (err_name e) "AbortError"
     || String.eqb (err_message e) "Operation cancelled"
  then cancelPath p c w
  else
    let now := fst (dateNow w) in
    let w1 := snd (dateNow w) in
    let lastError :=
      SkillError.mk
        (if isNetworkError (ThrownError e) then "NETWORK_ERROR" else "VERIFICATION_ERROR")
        (if String.eqb (err_message e) "" then "Unknown verification error"
         else err_message e)
        (isNetworkError (ThrownError e))
        now in
    if isRecoverableError (ThrownError e) && Nat.ltb attempt MAX_RETRIES then
      let attempt' := S attempt in
      let w2 := modifySkill (skillId c) (Skill.setRetryCount attempt') w1 in
      setChainState p (Sleeping attempt' (Some lastError) (calculateRetryDelay attempt')) w2
    else failPath p c (Some lastError) w1.

(** [if (sessionId) abortController = sessionManager.registerOperation(sessionId)] *)
Definition registerAbort (sessionId : option string) (w : t) : option nat * t :=
  match bound sessionId with
  | Some sid =>
      (Some (fst (SessionManager.registerOperation sid (sessionManager w))),
       onSessionManager (fun sm => snd (SessionManager.registerOperation sid sm)) w)
  | None => (None, w)
  end.

(** The synchronous prefix of [performVerification(skill, sessionId,
    timeout)]; the result is the promise and the new state. *)
Definition performVerification (skill : Skill.t) (sessionId : option string)
    (timeout : Z) (w : t) : nat * t :=
  let w1 := updateSkillStatus (Skill.id skill) verifying None w in
  let controller := fst (registerAbort sessionId w1) in
  let w2 := snd (registerAbort sessionId w1) in
  let p := length (chains w2) in
  let c :=
    mkChain (Skill.id skill) (Skill.name skill)
      (default "" (Skill.verificationUrl skill)) (bound sessionId) controller timeout
      (AwaitingFetch 0%nat None) true in
  (p, loopIteration p c 0%nat None (with_chains (chains w2 ++ [c]) w2)).

(** What the promise returned by a [verifySkill] call is resolved with: a
    result that is known when the call returns, or the result of a chain. *)
Inductive Outcome : Type :=
| Resolved (result : SkillVerificationResult.t)
| Pending (promise : nat).

(** [verifySkill(skillId, sessionId, timeout)] up to its [await]. *)
Definition verifySkill (skillId : string) (sessionId : option string)
    (timeout : option Z) (w : t) : Outcome * t :=
  match lookupSkill skillId w with
  | None =>
      let now := fst (dateNow w) in
      let w1 := snd (dateNow w) in
      let ref := length (objects w1) in
      (Resolved
         (SkillVerificationResult.mk false (Some ref)
            (Some (SkillError.mk "SKILL_NOT_FOUND"
                     (String.append "Skill " (String.append skillId " is not registered"))
                     false now))),
       with_objects
         (objects w1
          ++ [Skill.mk skillId "unknown" "Unknown Skill" failed None None None 0%nat]) w1)
  | Some (ref, skill) =>
      match map_get skillId (verificationPromises w) with
      | Some existingPromise => (Pending existingPromise, w)
      | None =>
          match Skill.verificationUrl skill with
          | Some (String _ _) =>
              let started :=
                performVerification skill sessionId
                  (default SKILL_VERIFICATION_TIMEOUT timeout) w in
              let verificationPromise := fst started in
              let w1 := snd started in
              (Pending verificationPromise,
               with_verificationPromises
                 (map_set skillId verificationPromise (verificationPromises w1)) w1)
          | _ =>
              let w1 := updateSkillStatus skillId verified None w in
              (Resolved (SkillVerificationResult.mk true (map_get skillId (skills w1)) None),
               w1)
          end
      end
  end.

(** The events that resume a chain. *)

(** [fetch] resolved with a response ([response.ok], [response.status]). *)
Definition fetchResolved (p : nat) (ok : bool) (status : Z) (w : t) : t :=
  match chains w !! p with
  | Some c =>
      match state c with
      | AwaitingFetch attempt _ =>
          if ok then successPath p c w
          else
            catchPath p c attempt
              (newError (String.append "Verification failed with status " (pretty status)))
              w
      | _ => w
      end
  | None => w
  end.

(** [fetch] rejected with the error [e]; the abort of [fetchWithTimeout]'s
    own controller after [timeout] ms arrives here as an [AbortError]. *)
Definition fetchRejected (p : nat) (e : JsError) (w : t) : t :=
  match chains w !! p with
  | Some c =>
      match state c with
      | AwaitingFetch attempt _ => catchPath p c attempt e w
      | _ => w
      end
  | None => w
  end.

(** The back-off timer fired: [continue]. *)
Definition timerFired (p : nat) (w : t) : t :=
  match chains w !! p with
  | Some c =>
      match state c with
      | Sleeping attempt lastError _ => loopIteration p c attempt lastError w
      | _ => w
      end
  | None => w
  end.

(** The [verifySkill] call that created chain [p] resumes after its
    [await] and runs [finally { this.verificationPromises.delete(skillId) }]. *)
Definition ownerResumes (p : nat) (w : t) : t :=
  match chains w !! p with
  | Some c =>
      match state c, ownerWaiting c with
      | Settled _, true =>
          with_chains
            (alter (fun c => mkChain (skillId c) (skillName c) (url c) (sessionId c)
                               (abortController c) (timeout c) (state c) false)
               p (chains w))
            (with_verificationPromises
               (map_delete (skillId c) (verificationPromises w)) w)
      | _, _ => w
      end
  | None => w
  end.

(** [verifyAllSkills]: the calls of [verifySkill] made by [skills.map]. *)
Fixpoint verifyEach (ids : list string) (sessionId : option string) (timeout : option Z)
    (w : t) : list Outcome * t :=
  match ids with
  | [] => ([], w)
  | id :: rest =>
      let '(o, w1) := verifySkill id sessionId timeout w in
      let '(os, w2) := verifyEach rest sessionId timeout w1 in
      (o :: os, w2)
  end.

(** A [verifyAllSkills] call resting at [await Promise.race([...])]:
    [scanned] are the skill objects that passed the filter, [calls] the
    promises of their [verifySkill] calls, [deadline] the delay of the
    time-out timer. *)
Record VerifyAll : Type := mkVerifyAll {
  scanned : list nat;
  calls : list Outcome;
  deadline : Z;
}.

(** [skill.id] read through a reference. *)
Definition idOf (ref : nat) (w : t) : string :=
  default "" (Skill.id <$> objects w !! ref).

(** [verifyAllSkills(sessionId, timeout)] up to its [await]: [inl] when it
    returns at once. *)
Definition verifyAllSkills (sessionId : option string) (timeout : option Z) (w : t)
  : (list SkillVerificationResult.t + VerifyAll) * t :=
  let skills :=
    List.filter (fun ref => match statusOf ref w with Some unverified => true | _ => false end)
      (getAllSkills w) in
  match skills with
  | [] => (inl [], w)
  | _ :: _ =>
      let '(os, w1) :=
        verifyEach (map (fun ref => idOf ref w) skills) sessionId timeout w in
      (inr (mkVerifyAll skills os (default SKILL_VERIFICATION_TIMEOUT timeout * 2)), w1)
  end.

(** The [catch] block of [verifyAllSkills], run when the time-out promise
    rejects first: [skills.map(skill => ...)]. *)
Fixpoint timeoutEach (refs : list nat) (w : t) : list SkillVerificationResult.t * t :=
  match refs with
  | [] => ([], w)
  | ref :: rest =>
      match statusOf ref w with
      | Some verifying =>
          let now := fst (dateNow w) in
          let w1 := snd (dateNow w) in
          let timeoutError :=
            SkillError.mk "VERIFICATION_TIMEOUT" "Skill verification timed out" false now in
          let w2 := updateSkillStatus (idOf ref w1) failed (Some timeoutError) w1 in
          let r :=
            SkillVerificationResult.mk false (map_get (idOf ref w1) (skills w2))
              (Some timeoutError) in
          let '(rs, w3) := timeoutEach rest w2 in
          (r :: rs, w3)
      | st =>
          let r :=
            SkillVerificationResult.mk
              (match st with Some verified => true | _ => false end) (Some ref) None in
          let '(rs, w1) := timeoutEach rest w in
          (r :: rs, w1)
      end
  end.

Definition verifyAllSkillsTimeout (a : VerifyAll) (w : t)
  : list SkillVerificationResult.t * t :=
  timeoutEach (scanned a) w.

(** The result a [verifySkill] promise is resolved with, once it is. *)
Definition outcomeResult (o : Outcome) (w : t) : option SkillVerificationResult.t :=
  match o with
  | Resolved r => Some r
  | Pending p =>
      match chains w !! p with
      | Some c => match state c with Settled r => Some r | _ => None end
      | None => None
      end
  end.

(** [Promise.all] of the calls resolves first: the results, when every
    call has one. *)
Definition verifyAllSkillsResolved (a : VerifyAll) (w : t)
  : option (list SkillVerificationResult.t) :=
  mapM (fun o => outcomeResult o w) (calls a).

Definition disableSkill (skillId : string) (w : t) : t :=
  updateSkillStatus skillId disabled None w.

Definition enableSkill (skillId : string) (w : t) : t :=
  match lookupSkill skillId w with
  | Some (_, skill) =>
      match Skill.status skill with
      | disabled => modifySkill skillId Skill.reset w
      | _ => w
      end
  | None => w
  end.

Definition resetSkill (skillId : string) (w : t) : t :=
  match lookupSkill skillId w with
  | Some (_, skill) =>
      match Skill.status skill with
      | failed => modifySkill skillId Skill.reset w
      | _ => w
      end
  | None => w
  end.

Definition areAllSkillsVerified (w : t) : bool :=
  forallb (fun ref => match statusOf ref w with Some verified => true | _ => false end)
    (List.filter
       (fun ref => match statusOf ref w with Some disabled => false | _ => true end)
       (getAllSkills w)).

Definition getFailedSkills (w : t) : list nat :=
  List.filter (fun ref => match statusOf ref w with Some failed => true | _ => false end)
    (getAllSkills w).

End SkillVerifier.

(** What can happen to a verifier, one step at a time: a call of a public
    method (up to its first [await]), an event that resumes a suspended
    call, or an operation on the session manager. *)
Inductive VerifierOp : Type :=
| VRegisterSkill (id name displayName : string) (verificationUrl : option string)
| VVerifySkill (skillId : string) (sessionId : option string) (timeout : option Z)
| VVerifyAllSkills (sessionId : option string) (timeout : option Z)
| VVerifyAllSkillsTimeout (a : SkillVerifier.VerifyAll)
| VDisableSkill (skillId : string)
| VEnableSkill (skillId : string)
| VResetSkill (skillId : string)
| VFetchResolved (p : nat) (ok : bool) (status : Z)
| VFetchRejected (p : nat) (e : JsError)
| VTimerFired (p : nat)
| VOwnerResumes (p : nat)
| VSession (op : LifecycleOp).

Definition runVerifierOp (op : VerifierOp) (w : SkillVerifier.t) : SkillVerifier.t :=
  match op with
  | VRegisterSkill id name displayName url =>
      snd (SkillVerifier.registerSkill id name displayName url w)
  | VVerifySkill skillId sessionId timeout =>
      snd (SkillVerifier.verifySkill skillId sessionId timeout w)
  | VVerifyAllSkills sessionId timeout =>
      snd (SkillVerifier.verifyAllSkills sessionId timeout w)
  | VVerifyAllSkillsTimeout a => snd (SkillVerifier.verifyAllSkillsTimeout a w)
  | VDisableSkill skillId => SkillVerifier.disableSkill skillId w
  | VEnableSkill skillId => SkillVerifier.enableSkill skillId w
  | VResetSkill skillId => SkillVerifier.resetSkill skillId w
  | VFetchResolved p ok status => SkillVerifier.fetchResolved p ok status w
  | VFetchRejected p e => SkillVerifier.fetchRejected p e w
  | VTimerFired p => SkillVerifier.timerFired p w
  | VOwnerResumes p => SkillVerifier.ownerResumes p w
  | VSession op => SkillVerifier.onSessionManager (runOp op) w
  end.

Definition runVerifierOps (ops : list VerifierOp) (w : SkillVerifier.t) : SkillVerifier.t :=
  fold_left (fun acc op => runVerifierOp op acc) ops w.

Inductive reachableVerifier : SkillVerifier.t -> Prop :=
| reachableVerifier_init clk : reachableVerifier (SkillVerifier.init clk)
| reachableVerifier_step op w :
    reachableVerifier w -> reachableVerifier (runVerifierOp op w).


(** A chain is in flight until its promise is settled. *)
Definition inFlight (st : SkillVerifier.ChainState) : bool :=
  match st with
  | SkillVerifier.Settled _ => false
  | _ => true
  end.

(** The statuses a verification leaves a skill in while it runs and when
    it ends; [verified] and [failed] are the terminal ones. *)
Definition underVerification (st : SkillStatus) : Prop :=
  st = verifying \/ st = verified \/ st = failed.

Definition terminal (st : SkillStatus) : Prop := st = verified \/ st = failed.

(** The attempt counter of a suspended chain stays within the retry
    budget. *)
Definition stateOk (st : SkillVerifier.ChainState) : Prop :=
  match st with
  | SkillVerifier.AwaitingFetch a _ => (a <= MAX_RETRIES)%nat
  | SkillVerifier.Sleeping a _ _ => (a <= MAX_RETRIES)%nat
  | SkillVerifier.Settled _ => True
  end.

(** Well-formed verifier states: the keys of the skill map are distinct
    and every entry refers to an object that carries the key as its [id];
    a chain whose owner still waits is the promise recorded for
    its skill id, and the skill is registered; the owner of a chain in
    flight still waits; attempt counters are within the budget. *)
Definition wfVerifier (w : SkillVerifier.t) : Prop :=
  NoDup (map_keys (SkillVerifier.skills w))
  /\ (forall k r, map_get k (SkillVerifier.skills w) = Some r ->
        exists sk, SkillVerifier.objects w !! r = Some sk /\ Skill.id sk = k)
  /\ (forall p c, SkillVerifier.chains w !! p = Some c ->
        SkillVerifier.ownerWaiting c = true ->
        map_get (SkillVerifier.skillId c) (SkillVerifier.verificationPromises w) = Some p
        /\ is_Some (map_get (SkillVerifier.skillId c) (SkillVerifier.skills w)))
  /\ (forall p c, SkillVerifier.chains w !! p = Some c ->
        inFlight (SkillVerifier.state c) = true -> SkillVerifier.ownerWaiting c = true)
  /\ (forall p c, SkillVerifier.chains w !! p = Some c -> stateOk (SkillVerifier.state c)).

(** How a step may change the heap of skill objects: an object stays where
    it is, keeps its [id], and keeps its status or takes one allowed by [P]. *)
Definition objectsStep (P : SkillStatus -> Prop) (o o' : list Skill.t) : Prop :=
  forall ref sk, o !! ref = Some sk ->
    exists sk', o' !! ref = Some sk' /\ Skill.id sk' = Skill.id sk
      /\ (Skill.status sk' = Skill.status sk \/ P (Skill.status sk')).

(** How a step may change the chains: none is created, and a chain keeps
    its skill id and its owner flag, is not revived once settled, and keeps
    its counter within the budget. *)
Definition chainsStep (cs cs' : list SkillVerifier.Chain) : Prop :=
  length cs' = length cs
  /\ forall p c, cs !! p = Some c ->
       exists c', cs' !! p = Some c'
         /\ SkillVerifier.skillId c' = SkillVerifier.skillId c
         /\ SkillVerifier.ownerWaiting c' = SkillVerifier.ownerWaiting c
         /\ (inFlight (SkillVerifier.state c') = true ->
             inFlight (SkillVerifier.state c) = true)
         /\ (stateOk (SkillVerifier.state c) -> stateOk (SkillVerifier.state c')).

Definition evolves (P : SkillStatus -> Prop) (w w' : SkillVerifier.t) : Prop :=
  SkillVerifier.skills w' = SkillVerifier.skills w
  /\ SkillVerifier.verificationPromises w' = SkillVerifier.verificationPromises w
  /\ objectsStep P (SkillVerifier.objects w) (SkillVerifier.objects w')
  /\ chainsStep (SkillVerifier.chains w) (SkillVerifier.chains w').

(** The part of [evolves] that concerns the skills alone. *)
Definition skillsEvolve (P : SkillStatus -> Prop) (w w' : SkillVerifier.t) : Prop :=
  SkillVerifier.skills w' = SkillVerifier.skills w
  /\ objectsStep P (SkillVerifier.objects w) (SkillVerifier.objects w').

(** ** Observations used in the statements below *)

(** Observations on a chain: the attempt number and the delay of the
    back-off sleep it rests in, and the error code it was settled with. *)
Definition sleepingFor (c : SkillVerifier.Chain) : option (nat * Z) :=
  match SkillVerifier.state c with
  | SkillVerifier.Sleeping attempt _ delay => Some (attempt, delay)
  | _ => None
  end.

Definition settledCode (c : SkillVerifier.Chain) : option (bool * option string) :=
  match SkillVerifier.state c with
  | SkillVerifier.Settled r =>
      Some (SkillVerificationResult.success r,
            SkillError.code <$> SkillVerificationResult.error r)
  | _ => None
  end.


(** ** Concrete data used in the examples below *)

Definition tickClock : nat -> Z := fun n => 1000 + Z.of_nat n.

(** A clock that stands at 1000, 1001, ... for the first five calls and has
    moved on by a minute afterwards. *)
Definition jumpClock : nat -> Z := fun n => if Nat.ltb n 5 then 1000 + Z.of_nat n else 61000.

Definition minimalConfig : SessionConfig.t :=
  SessionConfig.mk "test-model" None None None [].

Definition driftedConfig : SessionConfig.t :=
  SessionConfig.mk "test-model" None None None [("unknownKey", JStr "value")].

(** A stored blob with two records: a session as [createSession] and
    [startSession] leave it, and the same session under another id with a
    config that carries an unknown key. *)
Definition storedSession (id : string) (config : SessionConfig.t) : jsval :=
  sessionToJs
    (Session.mk id "Test" running false false config (SessionStats.mk 0 0 1000 1000)
       None 1000 1000).

Definition storedBlob : jsval :=
  JObj [("a", storedSession "a" minimalConfig); ("b", storedSession "b" driftedConfig)].

(** A verifier with a running session ["s"] and a skill ["x"] that has a
    verification URL; the verification of ["x"] bound to ["s"], its first
    [fetch] rejected with a network error, so that the chain rests in its
    back-off sleep. *)
Definition networkError : JsError := mkJsError "TypeError" "fetch failed" None.

Definition verifierWithSkill : SkillVerifier.t :=
  runVerifierOps
    [VSession (OpCreateSession "s" "Test" minimalConfig);
     VSession (OpStartSession "s");
     VRegisterSkill "x" "x" "X" (Some "https://example.com/verify")]
    (SkillVerifier.init tickClock).

Definition verifierSleeping : SkillVerifier.t :=
  runVerifierOps [VVerifySkill "x" (Some "s") None; VFetchRejected 0 networkError]
    verifierWithSkill.

(** A verifier in which the id ["x"] has a verification in flight and has
    then been registered anew, without a URL, and disabled. *)
Definition verifierReRegistered : SkillVerifier.t :=
  runVerifierOps
    [VRegisterSkill "x" "x" "X" (Some "https://example.com/verify");
     VVerifySkill "x" None None;
     VRegisterSkill "x" "x" "X" None;
     VDisableSkill "x"]
    (SkillVerifier.init tickClock).


(** A verifier with two unverified skills, ["x"] with a verification URL
    and ["y"] without. *)
Definition verifierTwoSkills : SkillVerifier.t :=
  runVerifierOps
    [VRegisterSkill "x" "x" "X" (Some "https://example.com/verify");
     VRegisterSkill "y" "y" "Y" None]
    (SkillVerifier.init tickClock).

(** ** SessionManager: notions used in the further properties *)

(** The session a lifecycle operation addresses; the zombie sweep addresses
    every session. *)
Definition opTarget (op : LifecycleOp) : option string :=
  match op with
  | OpCreateSession id _ _ | OpStartSession id | OpMarkSystemSent id
  | OpErrorSession id _ | OpTerminateSession id | OpDeleteSession id
  | OpUpdateStats id _ _ | OpRegisterOperation id | OpCancelPendingOperations id => Some id
  | OpCleanupZombieSessions => None
  end.

(** The pending operations of a manager: every registered controller is
    live, and no controller is registered for two sessions. *)
Definition pendingOk (m : SessionManager.t) : Prop :=
  (∀ sid c, map_get sid (SessionManager.pendingOperations m) = Some c →
     SessionManager.controllers m !! c = Some false)
  ∧ (∀ sid1 sid2 c, map_get sid1 (SessionManager.pendingOperations m) = Some c →
       map_get sid2 (SessionManager.pendingOperations m) = Some c → sid1 = sid2).

(** A clock that never runs backwards. *)
Definition monotone (clk : nat → Z) : Prop := ∀ i j, (i ≤ j)%nat → clk i ≤ clk j.

(** The time stamps of a session record are in order and lie in the past
    of the next reading of the clock. *)
Definition timesOk (m : SessionManager.t) (s : Session.t) : Prop :=
  Session.createdAt s ≤ Session.updatedAt s
  ∧ Session.updatedAt s ≤ SessionStats.lastActivityTime (Session.stats s)
  ∧ SessionStats.startTime (Session.stats s) = Session.createdAt s
  ∧ SessionStats.lastActivityTime (Session.stats s)
    ≤ SessionManager.clock m (SessionManager.ticks m).

(** The operations that cancel the pending operation of session [id]:
    they call [cancelPendingOperations(id)] first thing. *)
Definition cancels (op : LifecycleOp) (id : string) : bool :=
  match op with
  | OpErrorSession i _ | OpTerminateSession i | OpDeleteSession i
  | OpRegisterOperation i | OpCancelPendingOperations i => String.eqb i id
  | _ => false
  end.

(** [getSession(id)?.status === st] *)
Definition statusIs (st : SessionStatus) (id : string) (m : SessionManager.t) : bool :=
  match SessionManager.getSession id m with
  | Some s => SessionStatus_eqb (Session.status s) st
  | None => false
  end.

(** [session.config.timeout || DEFAULT_SESSION_TIMEOUT] *)
Definition timeoutOf (s : Session.t) : Z :=
  match SessionConfig.timeout (Session.config s) with
  | Some tm => if tm =? 0 then DEFAULT_SESSION_TIMEOUT else tm
  | None => DEFAULT_SESSION_TIMEOUT
  end.

(** What an operation other than the zombie sweep does to the pending
    operations and the controllers. *)
Definition pendingEffect (op : LifecycleOp) (m : SessionManager.t) : SessionManager.t :=
  match op with
  | OpErrorSession i _ | OpTerminateSession i | OpDeleteSession i
  | OpCancelPendingOperations i => SessionManager.cancelPendingOperations i m
  | OpRegisterOperation i => snd (SessionManager.registerOperation i m)
  | _ => m
  end.

(** What the zombie sweep, run from [m] to [m'], did to a session it
    terminated: [s] is the record before and [s'] the record after. *)
Definition zombieSwept (m m' : SessionManager.t) (s s' : Session.t) : Prop :=
  Session.systemSent s = true
  ∧ Session.status s ≠ terminated ∧ Session.status s ≠ error
  ∧ (∃ k, (SessionManager.ticks m ≤ k < SessionManager.ticks m')%nat
          ∧ timeoutOf s
            < SessionManager.clock m k - SessionStats.lastActivityTime (Session.stats s))
  ∧ Session.status s' = terminated
  ∧ Session.systemSent s' = false
  ∧ Session.interrupted s' = true
  ∧ Session.config s' = Session.config s
  ∧ SessionStats.totalTokens (Session.stats s') = SessionStats.totalTokens (Session.stats s)
  ∧ SessionStats.turnCount (Session.stats s') = SessionStats.turnCount (Session.stats s).

Definition allTimesOk (m : SessionManager.t) : Prop :=
  ∀ id s, SessionManager.getSession id m = Some s → timesOk m s.

(** ** Error classifier and storage: notions used in the further properties *)

(** The connectivity markers that [isNetworkError] looks for. *)
Definition networkMarkers : list string :=
  ["eai_again"; "enotfound"; "network"; "dns"; "getaddrinfo"; "fetch failed";
   "connection refused"].

(** A stored record on which [isZombieSession] throws: the record, its
    [config] or its [stats] is [null] or [undefined]. *)
Definition nullish (v : jsval) : bool :=
  match v with
  | JUndefined | JNull => true
  | _ => false
  end.

Definition unreadable (session : jsval) : bool :=
  nullish session || nullish (prop session "config") || nullish (prop session "stats").

(** What [validateSession] looks at in a stored record: the types of
    [id], [name], [systemSent] and [interrupted], the [config], and whether
    [stats] is an object. *)
Definition validatedView (session : jsval)
  : string * string * string * string * jsval * (bool * string) :=
  (typeof (prop session "id"), typeof (prop session "name"),
   typeof (prop session "systemSent"), typeof (prop session "interrupted"),
   prop session "config",
   (truthy (prop session "stats"), typeof (prop session "stats"))).

(** The entries that the loop of [loadFromStorage] keeps when no record
    makes it throw: those that are no zombie at the clock reading taken when
    they are examined and that pass [validateSession], in stored order. *)
Definition keeps (toNumberOther : jsval → option Z) (now : Z) (session : jsval) : bool :=
  match isZombieAt toNumberOther now session with
  | Some false => validateSession session
  | _ => false
  end.

Fixpoint keptEntries (toNumberOther : jsval → option Z) (clock : nat → Z)
    (entries : list (string * jsval)) (ticks : nat) : list (string * jsval) :=
  match entries with
  | [] => []
  | (id, session) :: rest =>
      if keeps toNumberOther (clock ticks) session
      then (id, session) :: keptEntries toNumberOther clock rest (S ticks)
      else keptEntries toNumberOther clock rest (S ticks)
  end.

(** ** SkillVerifier: notions used in the further properties *)

(** The object that [verifySkill] returns for an id that is not
    registered. *)
Definition unknownSkill (skillId : string) : Skill.t :=
  Skill.mk skillId "unknown" "Unknown Skill" failed None None None 0%nat.

(** [c] with its state replaced, as [setChainState] does it. *)
Definition withState (st : SkillVerifier.ChainState) (c : SkillVerifier.Chain)
  : SkillVerifier.Chain :=
  SkillVerifier.mkChain (SkillVerifier.skillId c) (SkillVerifier.skillName c)
    (SkillVerifier.url c) (SkillVerifier.sessionId c) (SkillVerifier.abortController c)
    (SkillVerifier.timeout c) st (SkillVerifier.ownerWaiting c).

(** What a step of chain [p], which verifies the skill id [k], does to a
    verifier: the chain takes the state [st'], the log of [fetch] calls
    becomes [log'], the object registered under [k] is changed by [F], and the
    skill map and the pending promises stay. *)
Definition chainStep (p : nat) (k : string) (st' : SkillVerifier.ChainState)
    (F : Skill.t → Skill.t) (log' : list SkillVerifier.FetchCall)
    (w w' : SkillVerifier.t) : Prop :=
  SkillVerifier.skills w' = SkillVerifier.skills w
  ∧ SkillVerifier.verificationPromises w' = SkillVerifier.verificationPromises w
  ∧ SkillVerifier.chains w' = alter (withState st') p (SkillVerifier.chains w)
  ∧ SkillVerifier.fetchLog w' = log'
  ∧ SkillVerifier.objects w'
    = match map_get k (SkillVerifier.skills w) with
      | Some r => alter F r (SkillVerifier.objects w)
      | None => SkillVerifier.objects w
      end.

(** The number of [fetch] calls that chain [p] has issued. *)
Definition fetchCount (p : nat) (log : list SkillVerifier.FetchCall) : nat :=
  length (List.filter (λ call, Nat.eqb (SkillVerifier.fetchChain call) p) log).

(** A chain state that fits [n] calls of [fetch] made by the chain: while
    attempt [a] is awaited the chain has made [a + 1] calls, in the back-off
    sleep before attempt [a] it has made [a], and a settled chain has made at
    most [MAX_RETRIES + 1]. *)
Definition withinBudget (n : nat) (st : SkillVerifier.ChainState) : Prop :=
  match st with
  | SkillVerifier.AwaitingFetch a _ => n = S a ∧ (a ≤ MAX_RETRIES)%nat
  | SkillVerifier.Sleeping a _ d =>
      n = a ∧ (1 ≤ a ≤ MAX_RETRIES)%nat ∧ d = calculateRetryDelay a
  | SkillVerifier.Settled _ => (n ≤ S MAX_RETRIES)%nat
  end.

Definition budgetOk (w : SkillVerifier.t) : Prop :=
  (∀ call, call ∈ SkillVerifier.fetchLog w →
     (SkillVerifier.fetchChain call < length (SkillVerifier.chains w))%nat)
  ∧ ∀ p c, SkillVerifier.chains w !! p = Some c →
      withinBudget (fetchCount p (SkillVerifier.fetchLog w)) (SkillVerifier.state c).

(** The error that the [catch] block builds from what was thrown. *)
Definition lastErrorOf (e : JsError) (now : Z) : SkillError.t :=
  SkillError.mk
    (if isNetworkError (ThrownError e) then "NETWORK_ERROR" else "VERIFICATION_ERROR")
    (if String.eqb (err_message e) "" then "Unknown verification error" else err_message e)
    (isNetworkError (ThrownError e)) now.

(** [err.name === 'AbortError' || err.message === 'Operation cancelled'] *)
Definition isAbort (e : JsError) : bool :=
  String.eqb (err_name e) "AbortError" || String.eqb (err_message e) "Operation cancelled".

(** Characters of a decimal numeral, and strings made of them. *)
Definition digitOrDash (c : ascii) : bool :=
  let n := nat_of_ascii c in (Nat.leb 48 n && Nat.leb n 57) || Nat.eqb n 45.

Fixpoint allChars (f : ascii → bool) (s : string) : bool :=
  match s with
  | EmptyString => true
  | String c r => f c && allChars f r
  end.

(** The message of the error thrown for a response that is not OK. *)
Definition notOkMessage (status : Z) : string :=
  "Verification failed with status " +:+ pretty status.

(** The session manager as the verifier drives it: lifecycle operations and
    readings of the clock, in any number. *)
Inductive smSteps : SessionManager.t → SessionManager.t → Prop :=
| smSteps_refl m : smSteps m m
| smSteps_op m m' op : smSteps m m' → smSteps m (runOp op m')
| smSteps_tick m m' : smSteps m m' → smSteps m (snd (SessionManager.dateNow m')).

(** A registered skill is [verifying] only while a verification of it is
    running: some chain for its id awaits a response or a back-off timer. *)
Definition verifyingRuns (w : SkillVerifier.t) : Prop :=
  ∀ k r sk, SkillVerifier.lookupSkill k w = Some (r, sk) →
    Skill.status sk = verifying →
    ∃ p c, SkillVerifier.chains w !! p = Some c ∧ SkillVerifier.skillId c = k
           ∧ inFlight (SkillVerifier.state c) = true.

(** How a step of a chain leaves the status of its skill: untouched while
    the chain goes on, [failed] or [verified] when it has settled. *)
Definition statusAfter (st : SkillVerifier.ChainState) (F : Skill.t → Skill.t) : Prop :=
  (inFlight st = true ∧ ∀ sk, Skill.status (F sk) = Skill.status sk)
  ∨ (inFlight st = false ∧ ∀ sk, terminal (Skill.status (F sk))).

(** The controller of a chain bound to a session is either the one
    registered for the session or aborted. *)
Definition tracked (ctl : nat) (sid : string) (m : SessionManager.t) : Prop :=
  SessionManager.aborted ctl m = true
  ∨ map_get sid (SessionManager.pendingOperations m) = Some ctl.

Definition controllersTracked (w : SkillVerifier.t) : Prop :=
  ∀ p c ctl sid, SkillVerifier.chains w !! p = Some c →
    SkillVerifier.abortController c = Some ctl → SkillVerifier.sessionId c = Some sid →
    tracked ctl sid (SkillVerifier.sessionManager w).

(** The chains of [w'] are chains of [w] with their controller and their
    session kept. *)
Definition staticKeep (w w' : SkillVerifier.t) : Prop :=
  ∀ p c', SkillVerifier.chains w' !! p = Some c' →
    ∃ c, SkillVerifier.chains w !! p = Some c
         ∧ SkillVerifier.abortController c' = SkillVerifier.abortController c
         ∧ SkillVerifier.sessionId c' = SkillVerifier.sessionId c.

(** ** Configuration migration ([config-schema.ts]) *)

(** [v && typeof v === 'object'] *)
Definition isObjectValue (v : jsval) : bool :=
  truthy v && String.eqb (typeof v) "object".

(** ['k' in v] for an object or an array [v] and a key [k] that is not
    inherited from a prototype. *)
Definition hasProperty (k : string) (v : jsval) : bool :=
  match v with
  | JObj props => existsb (String.eqb k) (map fst props)
  | JArr items => existsb (String.eqb k) ("length" :: indexKeys (length items))
  | _ => false
  end.

(** [if (typeof source.key === type) target.key = source.key], as the
    entries it adds to the fresh object [target]. *)
Definition copyIf (type : string) (source : jsval) (key : string) : list (string * jsval) :=
  if String.eqb (typeof (prop source key)) type then [(key, prop source key)] else [].

(** What [migrateConfig] writes with [console.warn]. *)
Inductive ConsoleMessage : Type :=
| RemovingToolsKey.

(** [migratedDefaults], built from [agents.defaults]. *)
Definition migrateDefaults (defaults : jsval) : jsval :=
  JObj (copyIf "string" defaults "model"
        ++ copyIf "string" defaults "system"
        ++ copyIf "number" defaults "temperature"
        ++ copyIf "number" defaults "maxTokens").

(** [migrated.agents], built from [legacy.agents]. *)
Definition migrateAgents (agents : jsval) : jsval :=
  JObj (if isObjectValue (prop agents "defaults")
        then [("defaults", migrateDefaults (prop agents "defaults"))]
        else []).

(** [migrated.sessions], built from [legacy.sessions]. *)
Definition migrateSessions (sessions : jsval) : jsval :=
  JObj (copyIf "number" sessions "defaultTimeout"
        ++ copyIf "number" sessions "maxConcurrent"
        ++ copyIf "number" sessions "cleanupInterval").

(** [migrated.network], built from [legacy.network]. *)
Definition migrateNetwork (network : jsval) : jsval :=
  JObj (copyIf "number" network "timeout"
        ++ copyIf "number" network "maxRetries"
        ++ copyIf "number" network "retryDelayBase").

(** [migrateConfig(config)]: the migrated configuration and what was
    written to the console. *)
Definition migrateConfig (config : jsval) : jsval * list ConsoleMessage :=
  if negb (truthy config) || negb (String.eqb (typeof config) "object") then (JObj [], [])
  else
    (JObj (copyIf "string" config "version"
           ++ (if isObjectValue (prop config "agents")
               then [("agents", migrateAgents (prop config "agents"))] else [])
           ++ (if isObjectValue (prop config "sessions")
               then [("sessions", migrateSessions (prop config "sessions"))] else [])
           ++ (if isObjectValue (prop config "network")
               then [("network", migrateNetwork (prop config "network"))] else [])),
     if isObjectValue (prop config "agents")
        && isObjectValue (prop (prop config "agents") "defaults")
        && hasProperty "tools" (prop (prop config "agents") "defaults")
     then [RemovingToolsKey] else []).

(** *** The shape of a migrated configuration *)

(** A plain object whose keys are among those of [fields], in that order
    and none twice, each with a value as [fields] says. *)
Definition recordOf (fields : list (string * (jsval → Prop))) (v : jsval) : Prop :=
  ∃ props, v = JObj props
           ∧ sublist (map fst props) (map fst fields)
           ∧ ∀ k x P, (k, x) ∈ props → (k, P) ∈ fields → P x.

Definition isString (v : jsval) : Prop := typeof v = "string".
Definition isNumber (v : jsval) : Prop := typeof v = "number".

Definition agentDefaultsShape : jsval → Prop :=
  recordOf [("model", isString); ("system", isString);
            ("temperature", isNumber); ("maxTokens", isNumber)].

Definition appConfigShape : jsval → Prop :=
  recordOf [("version", isString);
            ("agents", recordOf [("defaults", agentDefaultsShape)]);
            ("sessions", recordOf [("defaultTimeout", isNumber); ("maxConcurrent", isNumber);
                                   ("cleanupInterval", isNumber)]);
            ("network", recordOf [("timeout", isNumber); ("maxRetries", isNumber);
                                  ("retryDelayBase", isNumber)])].

(** The same copying, field by field: each field has a key and a function
    that says what is stored for the value read. *)
Definition migrateFields (specs : list (string * (jsval → option jsval))) (source : jsval)
    : list (string * jsval) :=
  flat_map (fun s => match snd s (prop source (fst s)) with
                     | Some y => [(fst s, y)]
                     | None => []
                     end) specs.

Definition keepIf (type : string) (x : jsval) : option jsval :=
  if String.eqb (typeof x) type then Some x else None.

Definition nested (f : jsval → jsval) (x : jsval) : option jsval :=
  if isObjectValue x then Some (f x) else None.

(** The fields of each object that [migrateConfig] builds. *)
Definition defaultsSpecs : list (string * (jsval → option jsval)) :=
  [("model", keepIf "string"); ("system", keepIf "string");
   ("temperature", keepIf "number"); ("maxTokens", keepIf "number")].
Definition agentsSpecs : list (string * (jsval → option jsval)) :=
  [("defaults", nested migrateDefaults)].
Definition sessionsSpecs : list (string * (jsval → option jsval)) :=
  [("defaultTimeout", keepIf "number"); ("maxConcurrent", keepIf "number");
   ("cleanupInterval", keepIf "number")].
Definition networkSpecs : list (string * (jsval → option jsval)) :=
  [("timeout", keepIf "number"); ("maxRetries", keepIf "number");
   ("retryDelayBase", keepIf "number")].
Definition appSpecs : list (string * (jsval → option jsval)) :=
  [("version", keepIf "string"); ("agents", nested migrateAgents);
   ("sessions", nested migrateSessions); ("network", nested migrateNetwork)].

(** ** Validation warnings ([config-schema.ts])

    The schemas are zod objects; what [safeParse] answers is a parameter
    here, and the warnings are computed as the code computes them. *)

Inductive ConfigWarning : Type :=
| ToolsInAgentDefaults.

Record Validation (D E : Type) : Type := mkValidation {
  v_success : bool;
  v_data : option D;
  v_errors : option E;
  v_warnings : option (list ConfigWarning);
}.
Arguments mkValidation {D E}.
Arguments v_success {D E}.
Arguments v_data {D E}.
Arguments v_errors {D E}.
Arguments v_warnings {D E}.

(** [warnings.length > 0 ? warnings : undefined] *)
Definition nonEmpty {A} (l : list A) : option (list A) :=
  match l with [] => None | _ :: _ => Some l end.

Definition validateAgentConfig {D E} (safeParse : jsval → D + E) (config : jsval)
    : Validation D E :=
  match safeParse config with
  | inl data => mkValidation true (Some data) None None
  | inr errors =>
      let warnings :=
        if truthy config && String.eqb (typeof config) "object" && hasProperty "tools" config
        then [ToolsInAgentDefaults] else [] in
      mkValidation false None (Some errors) (nonEmpty warnings)
  end.

Definition validateAppConfig {D E} (safeParse : jsval → D + E) (config : jsval)
    : Validation D E :=
  match safeParse config with
  | inl data => mkValidation true (Some data) None None
  | inr errors =>
      let warnings :=
        if truthy config && String.eqb (typeof config) "object" then
          if truthy (prop config "agents")
             && String.eqb (typeof (prop config "agents")) "object" then
            if truthy (prop (prop config "agents") "defaults")
               && String.eqb (typeof (prop (prop config "agents") "defaults")) "object" then
              if hasProperty "tools" (prop (prop config "agents") "defaults")
              then [ToolsInAgentDefaults] else []
            else []
          else []
        else [] in
      mkValidation false None (Some errors) (nonEmpty warnings)
  end.

(** ** Requests with retries (class [ApiClient]) *)

(** How a call of [this.request] ends. *)
Inductive Outcome (T : Type) : Type :=
| Returned (value : T)
| Threw (thrownError : thrown).
Arguments Returned {T}.
Arguments Threw {T}.

(** How [requestWithRetry] ends: with a value, or by throwing; [None] is
    [undefined], the value of [lastError] before any request has failed. *)
Inductive Settlement (T : Type) : Type :=
| Resolves (value : T)
| Rejects (thrownError : option thrown).
Arguments Resolves {T}.
Arguments Rejects {T}.

Record RetryRun (T : Type) : Type := mkRetryRun {
  settlement : Settlement T;
  requests : nat;
  delays : list Z;
}.
Arguments mkRetryRun {T}.
Arguments settlement {T}.
Arguments requests {T}.
Arguments delays {T}.

Section RequestWithRetry.
Context {T : Type}.

(** The surroundings of one run: how the [k]-th call of [this.request]
    ends, and whether [options.signal?.aborted] holds when the [catch] block
    of that call looks at it. *)
Variable request : nat → Outcome T.
Variable signalAborted : nat → bool.

(** [options.maxRetries ?? this.defaultMaxRetries], an integer. *)
Variable maxRetries : Z.

(** The [while] loop; [calls] counts the calls of [this.request] made and
    [slept] lists the delays waited for.  [None]: out of fuel. *)
Fixpoint retryLoop (fuel : nat) (attempt : nat) (calls : nat)
    (lastError : option thrown) (slept : list Z) : option (RetryRun T) :=
  if Z.of_nat attempt <=? maxRetries then
    match fuel with
    | O => None
    | S fuel' =>
        match request calls with
        | Returned value => Some (mkRetryRun (Resolves value) (S calls) slept)
        | Threw e =>
            if signalAborted calls then
              Some (mkRetryRun (Rejects (Some e)) (S calls) slept)
            else if isRecoverableError e && (Z.of_nat attempt <? maxRetries) then
              retryLoop fuel' (S attempt) (S calls) (Some e)
                (slept ++ [calculateRetryDelay (S attempt)])
            else
              Some (mkRetryRun (Rejects (Some e)) (S calls) slept)
        end
    end
  else Some (mkRetryRun (Rejects lastError) calls slept).

Definition requestWithRetry : option (RetryRun T) :=
  retryLoop (S (Z.to_nat maxRetries)) 0 0 None [].

End RequestWithRetry.

(** ** Subscription store ([store/index.ts])

    The state of [useSubscriptionStore] is the list [subscribedSubmolts];
    what the [persist] middleware stores and restores is not modelled. *)

Module SubscriptionStore.

(** [subscribedSubmolts] *)
Definition t : Type := list string.

Definition init : t := [].

(** [Array.prototype.includes] on strings *)
Definition arrayIncludes (name : string) (l : list string) : bool :=
  existsb (String.eqb name) l.

Definition addSubscription (name : string) (s : t) : t :=
  if negb (arrayIncludes name s) then s ++ [name] else s.

Definition removeSubscription (name : string) (s : t) : t :=
  List.filter (fun x => negb (String.eqb x name)) s.

Definition isSubscribed (name : string) (s : t) : bool := arrayIncludes name s.

End SubscriptionStore.

Inductive SubscriptionOp : Type :=
| Subscribe (name : string)
| Unsubscribe (name : string).

Definition runSubscriptionOp (op : SubscriptionOp) (s : SubscriptionStore.t)
    : SubscriptionStore.t :=
  match op with
  | Subscribe name => SubscriptionStore.addSubscription name s
  | Unsubscribe name => SubscriptionStore.removeSubscription name s
  end.

(** The store after a sequence of actions, the first action first. *)
Definition runSubscriptionOps (ops : list SubscriptionOp) (s : SubscriptionStore.t)
    : SubscriptionStore.t :=
  fold_left (fun s op => runSubscriptionOp op s) ops s.

(** The last action of [ops] on [name] is a subscription. *)
Fixpoint lastSubscribes (name : string) (ops : list SubscriptionOp) (before : bool) : bool :=
  match ops with
  | [] => before
  | Subscribe n :: rest => lastSubscribes name rest (if String.eqb n name then true else before)
  | Unsubscribe n :: rest => lastSubscribes name rest (if String.eqb n name then false else before)
  end.


(* ===================================================================== *)
(** * Part II: properties *)
(* ===================================================================== *)

Example includes_ex1 : includes "dns" (toLowerCase "DNS lookup failed") = true.
Proof. reflexivity. Qed.

Example calculateRetryDelay_values :
  map calculateRetryDelay [0; 1; 2; 3; 10]%nat = [1000; 2000; 4000; 8000; 30000].
Proof. reflexivity. Qed.

(** ** Map lemmas *)

Section JsMapFacts.
Context {V : Type}.
Implicit Types (m : list (string * V)) (k : string) (v : V).

Lemma map_get_set_eq k v m : map_get k (map_set k v m) = Some v.
Proof.
  induction m as [|[k' v'] r IH]; simpl.
  - by rewrite String.eqb_refl.
  - destruct (String.eqb k k') eqn:E; simpl.
    + by rewrite String.eqb_refl.
    + by rewrite E.
Qed.

Lemma map_get_set_ne k k' v m :
  k ≠ k' → map_get k' (map_set k v m) = map_get k' m.
Proof.
  intros Hne. induction m as [|[k0 v0] r IH]; simpl.
  - destruct (String.eqb k' k) eqn:E; [|done].
    apply String.eqb_eq in E. congruence.
  - destruct (String.eqb k k0) eqn:E; simpl.
    + apply String.eqb_eq in E. subst k0.
      destruct (String.eqb k' k) eqn:E'; [|done].
      apply String.eqb_eq in E'. congruence.
    + by rewrite IH.
Qed.

Lemma map_get_set k k' v m :
  map_get k' (map_set k v m) = if String.eqb k k' then Some v else map_get k' m.
Proof.
  destruct (String.eqb k k') eqn:E.
  - apply String.eqb_eq in E. subst. apply map_get_set_eq.
  - apply map_get_set_ne. intros ->. by rewrite String.eqb_refl in E.
Qed.

Lemma map_get_delete_eq k m : map_get k (map_delete k m) = None.
Proof.
  induction m as [|[k' v'] r IH]; simpl; [done|].
  destruct (String.eqb k k') eqn:E; simpl; [done|]. by rewrite E.
Qed.

Lemma map_get_delete_ne k k' m :
  k ≠ k' → map_get k' (map_delete k m) = map_get k' m.
Proof.
  intros Hne. induction m as [|[k0 v0] r IH]; simpl; [done|].
  destruct (String.eqb k k0) eqn:E; simpl.
  - apply String.eqb_eq in E. subst k0.
    destruct (String.eqb k' k) eqn:E'; [|done].
    apply String.eqb_eq in E'. congruence.
  - by rewrite IH.
Qed.

Lemma map_get_delete_Some k k' v m :
  map_get k' (map_delete k m) = Some v → map_get k' m = Some v.
Proof.
  destruct (String.eqb k k') eqn:E.
  - apply String.eqb_eq in E. subst. by rewrite map_get_delete_eq.
  - rewrite map_get_delete_ne; [done|]. intros ->. by rewrite String.eqb_refl in E.
Qed.

Lemma map_keys_set_present k v v0 m :
  map_get k m = Some v0 → map_keys (map_set k v m) = map_keys m.
Proof.
  unfold map_keys. induction m as [|[k' v'] r IH]; simpl; [done|].
  destruct (String.eqb k k') eqn:E; simpl.
  - apply String.eqb_eq in E. by subst.
  - intros H. by rewrite IH.
Qed.

Lemma map_get_Some_keys k v m : map_get k m = Some v → k ∈ map_keys m.
Proof.
  unfold map_keys. induction m as [|[k' v'] r IH]; simpl; [done|].
  destruct (String.eqb k k') eqn:E.
  - apply String.eqb_eq in E. subst. intros _. apply list_elem_of_here.
  - intros H. apply list_elem_of_further. auto.
Qed.

Lemma map_get_None_keys k m : map_get k m = None ↔ k ∉ map_keys m.
Proof.
  unfold map_keys. induction m as [|[k' v'] r IH]; simpl.
  - split; [intros _; apply not_elem_of_nil|done].
  - rewrite not_elem_of_cons. destruct (String.eqb k k') eqn:E.
    + apply String.eqb_eq in E. subst. split; [discriminate|]. by intros [? _].
    + rewrite IH. split; [|tauto]. intros H. split; [|done].
      intros ->. by rewrite String.eqb_refl in E.
Qed.

Lemma map_keys_set_absent k v m :
  map_get k m = None → map_keys (map_set k v m) = (map_keys m ++ [k])%list.
Proof.
  unfold map_keys. induction m as [|[k' v'] r IH]; simpl; [done|].
  destruct (String.eqb k k') eqn:E; simpl; [discriminate|].
  intros H. by rewrite IH.
Qed.

Lemma map_keys_set_NoDup k v m :
  NoDup (map_keys m) → NoDup (map_keys (map_set k v m)).
Proof.
  intros Hnd. destruct (map_get k m) as [v0|] eqn:E.
  - by rewrite (map_keys_set_present k v v0 m E).
  - rewrite (map_keys_set_absent k v m E). apply NoDup_app. split; [done|].
    split; [|apply NoDup_singleton].
    intros x Hx Hk. apply list_elem_of_singleton in Hk. subst x.
    by apply map_get_None_keys in E.
Qed.

Lemma map_get_elem k v m : NoDup (map_keys m) → (k, v) ∈ m → map_get k m = Some v.
Proof.
  unfold map_keys. induction m as [|[k' v'] r IH]; simpl; intros Hnd Hin.
  - by apply elem_of_nil in Hin.
  - apply NoDup_cons in Hnd as [Hk' Hnd]. apply elem_of_cons in Hin as [[= -> ->]|Hin].
    + by rewrite String.eqb_refl.
    + destruct (String.eqb k k') eqn:E; [|by apply IH].
      apply String.eqb_eq in E. subst k'. exfalso. apply Hk'.
      apply list_elem_of_fmap. by exists (k, v).
Qed.

Lemma map_get_Some_elem k v m : map_get k m = Some v → (k, v) ∈ m.
Proof.
  induction m as [|[k' v'] r IH]; simpl; [done|].
  destruct (String.eqb k k') eqn:E.
  - apply String.eqb_eq in E. subst. intros [= ->]. apply list_elem_of_here.
  - intros H. apply list_elem_of_further. auto.
Qed.


End JsMapFacts.

(** ** SessionManager: the effect of each operation on the session map *)

Section SessionManagerFacts.
Import SessionManager.
Implicit Types (m : SessionManager.t) (id : string).

Lemma cancelPendingOperations_sessions sid m :
  sessions (cancelPendingOperations sid m) = sessions m.
Proof. unfold cancelPendingOperations. by destruct (map_get sid _). Qed.

Lemma updateSession_None id u m :
  map_get id (sessions m) = None → updateSession id u m = (None, m).
Proof. intros H. unfold updateSession. by rewrite H. Qed.

(** [updateSession] on a known id replaces exactly that record; the new
    record takes [status], [systemSent] and [interrupted] from the update
    where it has them and from the old record otherwise. *)
Lemma updateSession_Some id u m s :
  map_get id (sessions m) = Some s →
  ∃ s', fst (updateSession id u m) = Some s'
    ∧ sessions (snd (updateSession id u m)) = map_set id s' (sessions m)
    ∧ Session.status s' = default (Session.status s) (SessionUpdates.status u)
    ∧ Session.systemSent s' = default (Session.systemSent s) (SessionUpdates.systemSent u)
    ∧ Session.interrupted s' = default (Session.interrupted s) (SessionUpdates.interrupted u)
    ∧ Session.updatedAt s' = clock m (ticks m)
    ∧ pendingOperations (snd (updateSession id u m)) = pendingOperations m
    ∧ controllers (snd (updateSession id u m)) = controllers m.
Proof.
  intros H. unfold updateSession. rewrite H. simpl.
  eexists. repeat split.
Qed.

Lemma updateSession_get id u m s' :
  fst (updateSession id u m) = Some s' →
  getSession id (snd (updateSession id u m)) = Some s'.
Proof.
  unfold getSession. destruct (map_get id (sessions m)) as [s|] eqn:H.
  - destruct (updateSession_Some id u m s H) as (s0 & E1 & E2 & _).
    rewrite E1, E2. intros [= ->]. apply map_get_set_eq.
  - rewrite (updateSession_None _ _ _ H). discriminate.
Qed.

Lemma updateSession_managerOk id u m :
  managerOk m →
  (∀ s, map_get id (sessions m) = Some s →
     default (Session.systemSent s) (SessionUpdates.systemSent u) = true →
     default (Session.status s) (SessionUpdates.status u) = running) →
  managerOk (snd (updateSession id u m)).
Proof.
  intros Hok Hu. destruct (map_get id (sessions m)) as [s|] eqn:H.
  - destruct (updateSession_Some id u m s H) as (s' & _ & E2 & Est & Ess & _).
    intros id' s0. unfold getSession. rewrite E2, map_get_set.
    destruct (String.eqb id id') eqn:E.
    + intros [= <-]. unfold sessionOk. rewrite Est, Ess. by apply Hu.
    + apply Hok.
  - by rewrite (updateSession_None _ _ _ H).
Qed.

Lemma managerOk_sessions m m' :
  sessions m' = sessions m → managerOk m → managerOk m'.
Proof. unfold managerOk, getSession. intros ->. done. Qed.

Lemma createSession_managerOk id name cfg m :
  managerOk m → managerOk (snd (createSession id name cfg m)).
Proof.
  intros Hok id' s. unfold createSession, getSession. simpl.
  rewrite map_get_set. destruct (String.eqb id id').
  - intros [= <-]. unfold sessionOk. simpl. discriminate.
  - apply Hok.
Qed.

Lemma startSession_managerOk id m :
  managerOk m → managerOk (snd (startSession id m)).
Proof. intros Hok. apply updateSession_managerOk; [done|]. simpl. done. Qed.

Lemma markSystemSent_managerOk id m :
  managerOk m → managerOk (snd (markSystemSent id m)).
Proof.
  intros Hok. unfold markSystemSent.
  destruct (map_get id (sessions m)) as [s|] eqn:H; [|done].
  destruct (SessionStatus_eqb (Session.status s) running) eqn:E; simpl; [|done].
  apply updateSession_managerOk; [done|]. simpl. intros s0 H0 _.
  rewrite H in H0. injection H0 as <-. by destruct (Session.status s).
Qed.

Lemma errorSession_managerOk id err m :
  managerOk m → managerOk (snd (errorSession id err m)).
Proof.
  intros Hok. unfold errorSession. simpl.
  apply updateSession_managerOk; [|simpl; discriminate].
  eapply managerOk_sessions; [|exact Hok]. simpl.
  apply cancelPendingOperations_sessions.
Qed.

Lemma terminateSession_managerOk id m :
  managerOk m → managerOk (snd (terminateSession id m)).
Proof.
  intros Hok. unfold terminateSession.
  apply updateSession_managerOk; [|simpl; discriminate].
  eapply managerOk_sessions; [|exact Hok].
  apply cancelPendingOperations_sessions.
Qed.

Lemma cleanupLoop_managerOk ids n m :
  managerOk m → managerOk (snd (cleanupLoop ids n m)).
Proof.
  revert n m. induction ids as [|id rest IH]; intros n m Hok; cbn [cleanupLoop]; [done|].
  destruct (map_get id (sessions m)) as [s|]; [|by apply IH].
  destruct (isZombieSession s m) as [z m1] eqn:Ez.
  assert (managerOk m1) as Hok1.
  { unfold isZombieSession in Ez. simpl in Ez. injection Ez as _ <-. exact Hok. }
  destruct z; apply IH; [|done].
  by apply terminateSession_managerOk.
Qed.

Lemma deleteSession_managerOk id m :
  managerOk m → managerOk (snd (deleteSession id m)).
Proof.
  intros Hok. unfold deleteSession.
  assert (managerOk (cancelPendingOperations id m)) as Hok1.
  { eapply managerOk_sessions; [|exact Hok]. apply cancelPendingOperations_sessions. }
  destruct (map_get id (sessions (cancelPendingOperations id m))); simpl; [|done].
  intros id' s. unfold getSession. simpl. intros H.
  apply map_get_delete_Some in H. by apply (Hok1 id').
Qed.

Lemma updateStats_managerOk id d inc m :
  managerOk m → managerOk (snd (updateStats id d inc m)).
Proof.
  intros Hok. unfold updateStats.
  destruct (map_get id (sessions m)) as [s|] eqn:H; [|done].
  apply updateSession_managerOk; [done|]. simpl. intros s0 H0.
  apply (Hok id). exact H0.
Qed.

Lemma runOp_managerOk op m : managerOk m → managerOk (runOp op m).
Proof.
  intros Hok. destruct op; simpl.
  - by apply createSession_managerOk.
  - by apply startSession_managerOk.
  - by apply markSystemSent_managerOk.
  - by apply errorSession_managerOk.
  - by apply terminateSession_managerOk.
  - by apply cleanupLoop_managerOk.
  - by apply deleteSession_managerOk.
  - by apply updateStats_managerOk.
  - eapply managerOk_sessions; [|exact Hok]. simpl.
    apply cancelPendingOperations_sessions.
  - eapply managerOk_sessions; [|exact Hok].
    apply cancelPendingOperations_sessions.
Qed.

Lemma reachable_managerOk m : reachable m → managerOk m.
Proof.
  induction 1 as [clk|op m _ IH].
  - intros id s. unfold getSession. simpl. discriminate.
  - by apply runOp_managerOk.
Qed.

Lemma reachable_runOps ops m : reachable m → reachable (runOps ops m).
Proof.
  unfold runOps. revert m. induction ops as [|op ops IH]; intros m Hm; simpl; [done|].
  apply IH. by constructor.
Qed.

End SessionManagerFacts.

(** ** SessionManager: the claims *)

Section SessionManagerClaims.
Import SessionManager.
Implicit Types (m : SessionManager.t) (id : string).

Lemma errorSession_result id err m s' :
  fst (errorSession id err m) = Some s' →
  Session.status s' = error ∧ Session.systemSent s' = false
  ∧ getSession id (snd (errorSession id err m)) = Some s'.
Proof.
  intros H. split; [|split]; [| |by apply updateSession_get].
  - unfold errorSession in H. simpl in H. unfold updateSession in H.
    destruct (map_get id _); simpl in H; [|discriminate]. by injection H as <-.
  - unfold errorSession in H. simpl in H. unfold updateSession in H.
    destruct (map_get id _); simpl in H; [|discriminate]. by injection H as <-.
Qed.

Lemma terminateSession_result id m s' :
  fst (terminateSession id m) = Some s' →
  Session.status s' = terminated ∧ Session.systemSent s' = false
  ∧ Session.interrupted s' = true
  ∧ getSession id (snd (terminateSession id m)) = Some s'.
Proof.
  intros H. split; [|split; [|split]]; [| | |by apply updateSession_get].
  all: unfold terminateSession, updateSession in H;
    destruct (map_get id _); simpl in H; [|discriminate]; by injection H as <-.
Qed.

Lemma markSystemSent_denied id m :
  (∀ s, getSession id m = Some s → Session.status s ≠ running) →
  markSystemSent id m = (None, m).
Proof.
  unfold getSession, markSystemSent. intros H.
  destruct (map_get id (sessions m)) as [s|]; [|done].
  specialize (H s eq_refl). by destruct (Session.status s).
Qed.

(** The zombie scenario of the test suite: a running session with its flag
    set, a time-out of 100 ms and no activity since, is terminated by
    [cleanupZombieSessions], which reports one session cleaned. *)
Example cleanupZombieSessions_terminates_zombie :
  let m :=
    runOps [OpCreateSession "zombie-1" "Zombie"
              (SessionConfig.mk "test-model" None None (Some 100) []);
            OpStartSession "zombie-1"; OpMarkSystemSent "zombie-1"] (init jumpClock) in
  fst (cleanupZombieSessions m) = 1%nat
  ∧ (λ s, (Session.status s, Session.systemSent s, Session.interrupted s))
      <$> getSession "zombie-1" (snd (cleanupZombieSessions m))
    = Some (terminated, false, true).
Proof. split; reflexivity. Qed.

(** Registering an operation twice aborts the first controller and leaves
    the second one live. *)
Example registerOperation_twice :
  let m1 := registerOperation "test-1" (init tickClock) in
  let m2 := registerOperation "test-1" (snd m1) in
  aborted (fst m1) (snd m1) = false
  ∧ aborted (fst m1) (snd m2) = true ∧ aborted (fst m2) (snd m2) = false.
Proof. repeat split. Qed.

(** C1. In every manager reachable through the lifecycle operations, a
    session with [systemSent = true] has status [running]; so no session is
    in [error] or [terminated] with the flag set, and [errorSession] and
    [terminateSession] store, in the one record they write, the new status
    together with [systemSent = false]. *)
Theorem C1_systemSent_implies_running m :
  reachable m →
  (∀ id s, getSession id m = Some s →
     Session.systemSent s = true → Session.status s = running)
  ∧ (∀ id s, getSession id m = Some s →
       Session.status s = error ∨ Session.status s = terminated →
       Session.systemSent s = false)
  ∧ (∀ id err s', fst (errorSession id err m) = Some s' →
       Session.status s' = error ∧ Session.systemSent s' = false
       ∧ getSession id (snd (errorSession id err m)) = Some s')
  ∧ (∀ id s', fst (terminateSession id m) = Some s' →
       Session.status s' = terminated ∧ Session.systemSent s' = false
       ∧ getSession id (snd (terminateSession id m)) = Some s').
Proof.
  intros Hr. pose proof (reachable_managerOk m Hr) as Hok.
  split; [|split; [|split]].
  - intros id s Hs. exact (Hok id s Hs).
  - intros id s Hs Hst. specialize (Hok id s Hs). unfold sessionOk in Hok.
    destruct (Session.systemSent s); [|done].
    specialize (Hok eq_refl). rewrite Hok in Hst. by destruct Hst.
  - intros id err s' H. by apply errorSession_result.
  - intros id s' H. destruct (terminateSession_result id m s' H) as (?&?&?&?). done.
Qed.

Lemma C1_witness :
  ∃ s, getSession "s1"
         (runOps [OpCreateSession "s1" "Test" minimalConfig; OpStartSession "s1";
                  OpMarkSystemSent "s1"] (init tickClock)) = Some s
       ∧ Session.systemSent s = true ∧ Session.status s = running.
Proof.
  pose proof (C1_systemSent_implies_running
                (runOps [OpCreateSession "s1" "Test" minimalConfig; OpStartSession "s1";
                         OpMarkSystemSent "s1"] (init tickClock))
                (reachable_runOps _ _ (reachable_init tickClock))) as (H & _).
  eexists. split; [vm_compute; reflexivity|]. split; [reflexivity|].
  apply (H "s1"); reflexivity.
Defined.

(** C2. [markSystemSent] returns a session (with [systemSent = true], and
    stored under the id) only for a known session whose status is
    [running]; for an unknown id and for a session in any other status it
    returns [undefined] and the manager is left exactly as it was. *)
Theorem C2_markSystemSent_only_when_running m id :
  (∀ s', fst (markSystemSent id m) = Some s' →
     ∃ s, getSession id m = Some s ∧ Session.status s = running
          ∧ Session.systemSent s' = true
          ∧ getSession id (snd (markSystemSent id m)) = Some s')
  ∧ (getSession id m = None → markSystemSent id m = (None, m))
  ∧ (∀ s, getSession id m = Some s →
       Session.status s = idle ∨ Session.status s = initializing
       ∨ Session.status s = error ∨ Session.status s = terminated →
       markSystemSent id m = (None, m))
  ∧ (∀ s, getSession id m = Some s → Session.status s = running →
       ∃ s', fst (markSystemSent id m) = Some s' ∧ Session.systemSent s' = true).
Proof.
  split; [|split; [|split]].
  - intros s' H. unfold markSystemSent, getSession in *.
    destruct (map_get id (sessions m)) as [s|] eqn:Hg; [|discriminate].
    destruct (SessionStatus_eqb (Session.status s) running) eqn:E; simpl in H;
      [|discriminate].
    exists s. split; [done|]. split; [by destruct (Session.status s)|].
    split; [|by apply updateSession_get].
    unfold updateSession in H. rewrite Hg in H. simpl in H. by injection H as <-.
  - intros H. apply markSystemSent_denied. intros s Hs. congruence.
  - intros s Hs Hst. apply markSystemSent_denied. intros s0 Hs0.
    assert (s0 = s) as -> by congruence.
    destruct Hst as [-> | [-> | [-> | ->]]]; discriminate.
  - intros s Hs Hst. unfold markSystemSent, getSession in *. rewrite Hs, Hst. simpl.
    unfold updateSession. rewrite Hs. simpl. eexists. split; reflexivity.
Qed.

Lemma C2_witness :
  markSystemSent "s1" (runOps [OpCreateSession "s1" "Test" minimalConfig] (init tickClock))
  = (None, runOps [OpCreateSession "s1" "Test" minimalConfig] (init tickClock)).
Proof.
  destruct (C2_markSystemSent_only_when_running
              (runOps [OpCreateSession "s1" "Test" minimalConfig] (init tickClock)) "s1")
    as (_ & _ & H & _).
  eapply H; [vm_compute; reflexivity|]. left. reflexivity.
Defined.

(** C3 as stated fails: [createSession] performs no validation.  A config
    that carries a key outside the allow-list, and that
    [validateSessionConfig] rejects, is turned into a session that is
    returned and stored with the extra key. *)
Lemma C3_counterexample :
  keysAllowed driftedConfig = false
  ∧ ValidationResult.success (validateSessionConfig driftedConfig) = false
  ∧ getSession "s1" (snd (createSession "s1" "Test" driftedConfig (init tickClock)))
    = Some (fst (createSession "s1" "Test" driftedConfig (init tickClock)))
  ∧ ∀ k, k ∈ SessionConfig.keys
                (Session.config
                   (fst (createSession "s1" "Test" driftedConfig (init tickClock))))
         ↔ k ∈ ["model"; "unknownKey"; "timeout"].
Proof.
  repeat (split; [reflexivity|]). intros k.
  change (SessionConfig.keys _) with ["model"; "timeout"; "unknownKey"].
  rewrite !elem_of_cons, !elem_of_nil. tauto.
Qed.

(** C3, amended. [createSession] never rejects: for every config it returns
    a session in status [idle] with [systemSent = false], zeroed counters and
    a defaulted time-out, stores it under the id, and the stored config keeps
    every key of the given config, allow-listed or not. *)
Theorem C3_createSession_accepts_every_config id name (config : SessionConfig.t) m :
  let s := fst (createSession id name config m) in
  getSession id (snd (createSession id name config m)) = Some s
  ∧ Session.status s = idle ∧ Session.systemSent s = false
  ∧ Session.interrupted s = false
  ∧ SessionStats.totalTokens (Session.stats s) = 0
  ∧ SessionStats.turnCount (Session.stats s) = 0
  ∧ SessionConfig.timeout (Session.config s)
    = Some (match SessionConfig.timeout config with
            | Some tm => if tm =? 0 then DEFAULT_SESSION_TIMEOUT else tm
            | None => DEFAULT_SESSION_TIMEOUT
            end)
  ∧ SessionConfig.extra (Session.config s) = SessionConfig.extra config
  ∧ (∀ k, k ∈ SessionConfig.keys config → k ∈ SessionConfig.keys (Session.config s)).
Proof.
  simpl. repeat split.
  - unfold getSession. simpl. apply map_get_set_eq.
  - intros k. destruct config as [mo [sy|] [to|] [ti|] ex];
      unfold SessionConfig.keys; simpl;
      rewrite ?elem_of_cons; tauto.
Qed.

(** C4 as stated fails: nothing guards a terminated session.  After a
    successful [terminateSession], [startSession] puts the record back into
    [running] and [errorSession] moves it to [error]. *)
Lemma C4_counterexample :
  Session.status <$>
    getSession "s1"
      (runOps [OpCreateSession "s1" "Test" minimalConfig; OpTerminateSession "s1"]
         (init tickClock)) = Some terminated
  ∧ Session.status <$>
      getSession "s1"
        (runOps [OpCreateSession "s1" "Test" minimalConfig; OpTerminateSession "s1";
                 OpStartSession "s1"] (init tickClock)) = Some running
  ∧ Session.status <$>
      getSession "s1"
        (runOps [OpCreateSession "s1" "Test" minimalConfig; OpTerminateSession "s1";
                 OpErrorSession "s1" (SessionErrorInfo.mk "E" "late" false)]
           (init tickClock)) = Some error.
Proof. repeat split. Qed.

(** C4, amended. Once [terminateSession id] has succeeded, [markSystemSent id]
    is a no-op that leaves the manager unchanged; the other lifecycle
    operations still replace the stored record: [startSession] returns it to
    [running] (with [systemSent = false]), [errorSession] moves it to
    [error], and [updateSession] applies whatever status the caller passes. *)
Theorem C4_after_terminate id m0 s0 :
  fst (terminateSession id m0) = Some s0 →
  let m := snd (terminateSession id m0) in
  getSession id m = Some s0 ∧ Session.status s0 = terminated
  ∧ markSystemSent id m = (None, m)
  ∧ (∃ s', fst (startSession id m) = Some s'
           ∧ getSession id (snd (startSession id m)) = Some s'
           ∧ Session.status s' = running ∧ Session.systemSent s' = false)
  ∧ (∀ err, ∃ s', fst (errorSession id err m) = Some s'
           ∧ getSession id (snd (errorSession id err m)) = Some s'
           ∧ Session.status s' = error ∧ Session.systemSent s' = false)
  ∧ (∀ u, ∃ s', fst (updateSession id u m) = Some s'
           ∧ getSession id (snd (updateSession id u m)) = Some s'
           ∧ Session.status s' = default terminated (SessionUpdates.status u)).
Proof.
  intros H m. destruct (terminateSession_result id m0 s0 H) as (Hst & Hss & _ & Hg).
  fold m in Hg. split; [done|]. split; [done|]. split; [|split; [|split]].
  - apply markSystemSent_denied. intros s Hs. rewrite Hg in Hs. injection Hs as <-.
    by rewrite Hst.
  - destruct (updateSession_Some id
                (SessionUpdates.mk None (Some running) (Some false) None None None None None)
                m s0 Hg) as (s' & E1 & _ & Est & Ess & _).
    exists s'. split; [exact E1|]. split; [by apply updateSession_get|]. done.
  - intros err.
    assert (map_get id (sessions (snd (dateNow (cancelPendingOperations id m)))) = Some s0)
      as Hg'.
    { simpl. by rewrite cancelPendingOperations_sessions. }
    unfold errorSession. simpl.
    match goal with |- context [updateSession id ?u ?mm] =>
      destruct (updateSession_Some id u mm s0 Hg') as (s' & E1 & _ & Est & Ess & _)
    end.
    exists s'. split; [exact E1|]. split; [by apply updateSession_get|]. done.
  - intros u. destruct (updateSession_Some id u m s0 Hg) as (s' & E1 & _ & Est & _).
    exists s'. split; [exact E1|]. split; [by apply updateSession_get|].
    by rewrite Est, Hst.
Qed.

Lemma C4_witness :
  markSystemSent "s1"
    (runOps [OpCreateSession "s1" "Test" minimalConfig; OpTerminateSession "s1"]
       (init tickClock))
  = (None,
     runOps [OpCreateSession "s1" "Test" minimalConfig; OpTerminateSession "s1"]
       (init tickClock)).
Proof.
  pose proof (C4_after_terminate "s1"
                (runOps [OpCreateSession "s1" "Test" minimalConfig] (init tickClock))
                _ eq_refl) as (_ & _ & H & _).
  exact H.
Defined.

End SessionManagerClaims.

(** ** Error classifier: the claims *)

Example isNetworkError_markers :
  map (fun msg => isNetworkError (ThrownError (newError msg)))
      ["getaddrinfo ENOTFOUND example.com"; "getaddrinfo EAI_AGAIN svc";
       "fetch failed"; "connection refused"; "Invalid JSON"]
  = [true; true; true; true; false].
Proof. reflexivity. Qed.

Example isRecoverableError_by_status :
  map (fun '(msg, sc) => isRecoverableError (ThrownError (mkJsError "Error" msg (Some sc))))
      [("Server error", 500); ("Service unavailable", 503);
       ("Not found", 404); ("Unauthorized", 401)]
  = [true; true; false; false].
Proof. reflexivity. Qed.

(** C8 as stated fails on two inputs.  An error that carries the 4xx status
    404 is classified recoverable when its message has a connectivity
    marker, because the network test comes first; and an error that
    carries status 429 is classified non-recoverable although its message
    contains the rate-limit signal, because an error with a status code is
    decided by the status alone.  A value that is not an [Error] is never
    recoverable, whatever status it carries. *)
Lemma C8_counterexample :
  isRecoverableError (ThrownError (mkJsError "ApiError" "Network unreachable" (Some 404)))
  = true
  ∧ isRecoverableError (ThrownError (mkJsError "ApiError" "rate limit exceeded" (Some 429)))
    = false
  ∧ isRecoverableError (ThrownOther (Some "Server error") (Some 500)) = false.
Proof. repeat split. Qed.

(** C8, amended. [isRecoverableError err] is [true] whenever [err] is a
    network error (also when it carries a 4xx status) and whenever [err] is
    an [Error] with a status code in [500, 600); for an [Error] without a
    status code it is [true] exactly when [err] is a network error or its
    message contains "rate limit"; it is [false] for an [Error] whose status
    code lies outside [500, 600) and whose message has neither a
    connectivity marker nor "rate limit" (404 "Not found", 401
    "Unauthorized"), and for every value that is not an [Error]. *)
Theorem C8_isRecoverableError_cases (e : JsError) :
  (∀ err, isNetworkError err = true → isRecoverableError err = true)
  ∧ (∀ c, err_statusCode e = Some c → 500 <= c < 600 →
       isRecoverableError (ThrownError e) = true)
  ∧ (err_statusCode e = None →
       (isRecoverableError (ThrownError e) = true
        ↔ isNetworkError (ThrownError e) = true
          ∨ includes "rate limit" (err_message e) = true))
  ∧ (∀ c, err_statusCode e = Some c → ¬ (500 <= c < 600) →
       isNetworkError (ThrownError e) = false →
       includes "rate limit" (err_message e) = false →
       isRecoverableError (ThrownError e) = false)
  ∧ (∀ msg sc, isRecoverableError (ThrownOther msg sc) = false).
Proof.
  split; [|split; [|split; [|split]]].
  - intros err H. unfold isRecoverableError. by rewrite H.
  - intros c Hc Hr. unfold isRecoverableError.
    destruct (isNetworkError _); [done|]. rewrite Hc.
    apply andb_true_iff. split; [apply Z.leb_le | apply Z.ltb_lt]; lia.
  - intros Hc. unfold isRecoverableError.
    destruct (isNetworkError _) eqn:En; [tauto|]. rewrite Hc.
    destruct (includes "rate limit" _); split; auto.
    intros [?|?]; discriminate.
  - intros c Hc Hr Hn _. unfold isRecoverableError. rewrite Hn, Hc.
    apply andb_false_iff.
    destruct (Z.leb_spec 500 c); [right|by left].
    apply Z.ltb_ge. lia.
  - intros msg sc. reflexivity.
Qed.

Lemma C8_witness :
  isRecoverableError (ThrownError (mkJsError "ApiError" "Not found" (Some 404))) = false.
Proof.
  destruct (C8_isRecoverableError_cases (mkJsError "ApiError" "Not found" (Some 404)))
    as (_ & _ & _ & H & _).
  apply (H 404); [reflexivity | lia | reflexivity | reflexivity].
Defined.

(** ** Loading from storage: the claims *)

Section LoadFromStorageFacts.
Variable toNumberOther : jsval → option Z.
Variable clock : nat → Z.

Local Abbreviation zombieAt := (isZombieAt toNumberOther).
Local Abbreviation loop := (loadLoop toNumberOther clock).
Local Abbreviation load := (loadFromStorage toNumberOther clock).

(** A record of the loaded map was in the map before the loop ran, or is an
    entry that was found to be no zombie and to pass [validateSession]. *)
Lemma loadLoop_sound entries : ∀ sessions ticks result id s,
  loop entries sessions ticks = Some result →
  map_get id result = Some s →
  map_get id sessions = Some s
  ∨ ((id, s) ∈ entries ∧ validateSession s = true
     ∧ ∃ n, zombieAt (clock n) s = Some false).
Proof.
  induction entries as [|[id0 s0] rest IH]; intros sessions ticks result id s Hl Hg.
  - simpl in Hl. injection Hl as <-. by left.
  - cbn [loadLoop] in Hl.
    destruct (zombieAt (clock ticks) s0) as [[|]|] eqn:Ez; [| |discriminate].
    + destruct (IH _ _ _ _ _ Hl Hg) as [H | (Hin & Hv & Hz)]; [by left|].
      right. split; [by apply list_elem_of_further|done].
    + destruct (validateSession s0) eqn:Ev.
      * destruct (IH _ _ _ _ _ Hl Hg) as [H | (Hin & Hv & Hz)].
        -- rewrite map_get_set in H. destruct (String.eqb id0 id) eqn:E.
           ++ apply String.eqb_eq in E. subst id0. injection H as <-.
              right. split; [apply list_elem_of_here|]. split; [done|]. by exists ticks.
           ++ by left.
        -- right. split; [by apply list_elem_of_further|done].
      * destruct (IH _ _ _ _ _ Hl Hg) as [H | (Hin & Hv & Hz)]; [by left|].
        right. split; [by apply list_elem_of_further|done].
Qed.

Lemma validateSession_keys s :
  validateSession s = true →
  ∀ key, key ∈ objectKeys (prop s "config") → key ∈ allowedConfigKeys.
Proof.
  unfold validateSession. intros H.
  repeat match type of H with
         | (if ?c then _ else _) = _ => destruct c eqn:?; [discriminate|]
         end.
  match goal with
  | E : negb (forallb _ _) = false |- _ => apply negb_false_iff in E; rename E into Hall
  end.
  intros key Hk. rewrite forallb_forall in Hall.
  apply list_elem_of_In in Hk. specialize (Hall key Hk).
  apply existsb_exists in Hall as (k' & Hin & Heq).
  apply String.eqb_eq in Heq. subst k'. by apply list_elem_of_In.
Qed.

Lemma loadLoop_chars_throws c r keys sessions ticks :
  loop (zip keys (chars (String c r))) sessions ticks = None
  ∨ keys = [].
Proof. destruct keys as [|k keys]; [by right|]. by left. Qed.

(** C9. Whatever the storage read yields, [loadFromStorage] ends with a
    session map and no exception; every record of that map is an entry of
    the stored object that was no zombie when it was examined and that
    passes [validateSession], so all its config keys are on the
    allow-list: a zombie record, a record with an unknown config key and a
    record that fails the schema check in another way are absent.  A read
    that throws, and a stored value that is not an object, give the empty
    map. *)
Theorem C9_loadFromStorage (read : StorageRead) :
  (∀ id s, map_get id (load read) = Some s →
     (∃ n, zombieAt (clock n) s = Some false)
     ∧ validateSession s = true
     ∧ (∀ key, key ∈ objectKeys (prop s "config") → key ∈ allowedConfigKeys)
     ∧ ∃ stored entries, read = StorageReturns stored
         ∧ objectEntries stored = Some entries ∧ (id, s) ∈ entries)
  ∧ (read = StorageThrows → load read = [])
  ∧ (∀ stored, read = StorageReturns stored →
       stored = JNull ∨ typeof stored ≠ "object" → load read = []).
Proof.
  split; [|split].
  - intros id s Hg. destruct read as [|stored]; [discriminate|].
    unfold loadFromStorage in Hg.
    destruct (objectEntries stored) as [entries|] eqn:He; [|discriminate].
    destruct (loop entries [] 0%nat) as [result|] eqn:Hl; [|discriminate].
    destruct (loadLoop_sound _ _ _ _ _ _ Hl Hg) as [H | (Hin & Hv & Hz)];
      [discriminate|].
    split; [done|]. split; [done|]. split; [by apply validateSession_keys|].
    by exists stored, entries.
  - by intros ->.
  - intros stored -> H. unfold loadFromStorage.
    destruct stored as [| |b|z|str|items|props]; simpl; try done.
    + destruct str as [|c r]; [done|].
      destruct (loadLoop_chars_throws c r (indexKeys (String.length (String c r))) [] 0%nat)
        as [-> | E]; [done|]. discriminate.
    + destruct H as [?|H]; [discriminate|]. by destruct H.
    + destruct H as [?|H]; [discriminate|]. by destruct H.
Qed.

End LoadFromStorageFacts.

(** The stored form of a typed session is classified by [isZombieAt] as
    [SessionManager.isZombieSession] classifies the session (the extra
    properties of a config are other than the declared ones). *)
Lemma isZombieAt_sessionToJs toNumberOther (s : Session.t) (m : SessionManager.t) :
  map_get "timeout" (SessionConfig.extra (Session.config s)) = None →
  isZombieAt toNumberOther (SessionManager.clock m (SessionManager.ticks m)) (sessionToJs s)
  = Some (fst (SessionManager.isZombieSession s m)).
Proof.
  destruct s as [id name st ss intr [mo sy to ti ex] [tt tc stt la] err ca ua].
  unfold isZombieAt, SessionManager.isZombieSession. simpl. intros Hex.
  destruct sy, to, ti as [tm|]; simpl; rewrite ?Hex; simpl;
    try destruct (Z.eqb_spec tm 0) as [->|]; simpl;
    destruct ss, st; simpl; reflexivity.
Qed.

Example load_drops_drifted_config :
  map_keys (loadFromStorage (fun _ => None) tickClock (StorageReturns storedBlob)) = ["a"].
Proof. reflexivity. Qed.

Example load_clears_on_malformed_record :
  loadFromStorage (fun _ => None) tickClock
    (StorageReturns (JObj [("a", storedSession "a" minimalConfig); ("b", JObj [])]))
  = [].
Proof. reflexivity. Qed.

Lemma C9_witness :
  validateSession (storedSession "a" minimalConfig) = true
  ∧ map_get "b" (loadFromStorage (fun _ => None) tickClock (StorageReturns storedBlob))
    = None.
Proof.
  split; [|reflexivity].
  destruct (C9_loadFromStorage (fun _ => None) tickClock (StorageReturns storedBlob))
    as (H & _).
  apply (H "a" (storedSession "a" minimalConfig)). reflexivity.
Defined.

(** ** SkillVerifier: how the steps change the state *)

Section Verifier.
Import SkillVerifier.
Implicit Types (w : SkillVerifier.t) (P : SkillStatus → Prop).

Lemma objectsStep_refl P o : objectsStep P o o.
Proof. intros ref sk H. exists sk. auto. Qed.

Lemma objectsStep_trans P o1 o2 o3 :
  objectsStep P o1 o2 → objectsStep P o2 o3 → objectsStep P o1 o3.
Proof.
  intros H12 H23 ref sk H.
  destruct (H12 ref sk H) as (sk2 & H2 & Hid2 & Hst2).
  destruct (H23 ref sk2 H2) as (sk3 & H3 & Hid3 & Hst3).
  exists sk3. split; [done|]. split; [congruence|].
  destruct Hst3 as [E|?]; [|by right].
  rewrite E. destruct Hst2 as [->|?]; auto.
Qed.

Lemma objectsStep_weaken P Q o o' :
  (∀ st, P st → Q st) → objectsStep P o o' → objectsStep Q o o'.
Proof.
  intros HPQ H ref sk Hl. destruct (H ref sk Hl) as (sk' & ? & ? & [?|?]); eauto 8.
Qed.

Lemma objectsStep_alter P f ref o :
  (∀ sk, Skill.id (f sk) = Skill.id sk
         ∧ (Skill.status (f sk) = Skill.status sk ∨ P (Skill.status (f sk)))) →
  objectsStep P o (alter f ref o).
Proof.
  intros Hf r sk H. destruct (decide (r = ref)) as [->|Hne].
  - exists (f sk). rewrite list_lookup_alter_eq, H. split; [done|]. apply Hf.
  - exists sk. rewrite list_lookup_alter_ne by done. auto.
Qed.

Lemma objectsStep_app P o extra : objectsStep P o (o ++ extra).
Proof. intros r sk H. exists sk. split; [by apply lookup_app_l_Some|]. auto. Qed.

Lemma chainsStep_refl cs : chainsStep cs cs.
Proof. split; [done|]. intros p c H. exists c. auto. Qed.

Lemma chainsStep_trans cs1 cs2 cs3 :
  chainsStep cs1 cs2 → chainsStep cs2 cs3 → chainsStep cs1 cs3.
Proof.
  intros [L12 H12] [L23 H23]. split; [congruence|]. intros p c H.
  destruct (H12 p c H) as (c2 & H2 & Ei2 & Eo2 & F2 & K2).
  destruct (H23 p c2 H2) as (c3 & H3 & Ei3 & Eo3 & F3 & K3).
  exists c3. split; [done|]. split; [congruence|]. split; [congruence|]. split; auto.
Qed.

Lemma evolves_refl P w : evolves P w w.
Proof.
  split; [done|]. split; [done|].
  split; [apply objectsStep_refl | apply chainsStep_refl].
Qed.

Lemma evolves_trans P w1 w2 w3 : evolves P w1 w2 → evolves P w2 w3 → evolves P w1 w3.
Proof.
  intros (S12 & V12 & O12 & C12) (S23 & V23 & O23 & C23).
  split; [congruence|]. split; [congruence|].
  split; [by eapply objectsStep_trans | by eapply chainsStep_trans].
Qed.

Lemma evolves_weaken P Q w w' : (∀ st, P st → Q st) → evolves P w w' → evolves Q w w'.
Proof.
  intros HPQ (S & V & O & C). split; [done|]. split; [done|].
  split; [by eapply objectsStep_weaken|done].
Qed.

Lemma evolves_skillsEvolve P w w' : evolves P w w' → skillsEvolve P w w'.
Proof. intros (S & _ & O & _). by split. Qed.

Lemma skillsEvolve_refl P w : skillsEvolve P w w.
Proof. split; [done|apply objectsStep_refl]. Qed.

Lemma skillsEvolve_trans P w1 w2 w3 :
  skillsEvolve P w1 w2 → skillsEvolve P w2 w3 → skillsEvolve P w1 w3.
Proof.
  intros [S12 O12] [S23 O23]. split; [congruence|]. by eapply objectsStep_trans.
Qed.

(** A step that leaves the four components alone. *)
Lemma evolves_same P w w' :
  skills w' = skills w → verificationPromises w' = verificationPromises w →
  objects w' = objects w → chains w' = chains w → evolves P w w'.
Proof.
  intros S V O C. split; [done|]. split; [done|]. rewrite O, C.
  split; [apply objectsStep_refl | apply chainsStep_refl].
Qed.

Lemma modifySkill_skills k f w : skills (modifySkill k f w) = skills w.
Proof. unfold modifySkill. by destruct (map_get k (skills w)). Qed.

Lemma modifySkill_chains k f w : chains (modifySkill k f w) = chains w.
Proof. unfold modifySkill. by destruct (map_get k (skills w)). Qed.

Lemma modifySkill_verificationPromises k f w :
  verificationPromises (modifySkill k f w) = verificationPromises w.
Proof. unfold modifySkill. by destruct (map_get k (skills w)). Qed.

Lemma modifySkill_fetchLog k f w : fetchLog (modifySkill k f w) = fetchLog w.
Proof. unfold modifySkill. by destruct (map_get k (skills w)). Qed.

Lemma modifySkill_sessionManager k f w :
  sessionManager (modifySkill k f w) = sessionManager w.
Proof. unfold modifySkill. by destruct (map_get k (skills w)). Qed.

Lemma modifySkill_evolves P k f w :
  (∀ sk, Skill.id (f sk) = Skill.id sk
         ∧ (Skill.status (f sk) = Skill.status sk ∨ P (Skill.status (f sk)))) →
  evolves P w (modifySkill k f w).
Proof.
  intros Hf. split; [apply modifySkill_skills|].
  split; [apply modifySkill_verificationPromises|].
  split; [|rewrite modifySkill_chains; apply chainsStep_refl].
  unfold modifySkill. destruct (map_get k (skills w)); simpl.
  - by apply objectsStep_alter.
  - apply objectsStep_refl.
Qed.

Lemma updateSkillStatus_evolves P k st e w :
  P st → evolves P w (updateSkillStatus k st e w).
Proof. intros HP. apply modifySkill_evolves. intros sk. simpl. auto. Qed.

Lemma setRetryCount_evolves P k n w :
  evolves P w (modifySkill k (Skill.setRetryCount n) w).
Proof. apply modifySkill_evolves. intros sk. simpl. auto. Qed.

Lemma setLastVerified_evolves P k v w :
  evolves P w (modifySkill k (Skill.setLastVerified v) w).
Proof. apply modifySkill_evolves. intros sk. simpl. auto. Qed.

(** Setting the state of a chain that is in flight. *)
Lemma setChainState_evolves P p st w :
  (∀ c, chains w !! p = Some c → inFlight (state c) = true) →
  stateOk st →
  evolves P w (setChainState p st w).
Proof.
  intros Hp Hst. split; [done|]. split; [done|].
  split; [apply objectsStep_refl|]. simpl.
  split; [apply length_alter|]. intros q c H.
  destruct (decide (q = p)) as [->|Hne].
  - eexists. rewrite list_lookup_alter_eq, H. simpl. split; [done|].
    repeat split; eauto.
  - exists c. rewrite list_lookup_alter_ne by done. auto 6.
Qed.

(** Reading a component through the steps that do not touch it. *)
Lemma dateNow_skills w : skills (snd (dateNow w)) = skills w.
Proof. reflexivity. Qed.

Lemma onSessionManager_skills f w : skills (onSessionManager f w) = skills w.
Proof. reflexivity. Qed.

Lemma with_fetchLog_skills x w : skills (with_fetchLog x w) = skills w.
Proof. reflexivity. Qed.

Lemma setChainState_skills p st w : skills (setChainState p st w) = skills w.
Proof. reflexivity. Qed.

Lemma updateSkillStatus_skills k st e w : skills (updateSkillStatus k st e w) = skills w.
Proof. unfold updateSkillStatus, modifySkill. by destruct (map_get k (skills w)). Qed.

Lemma dateNow_objects w : objects (snd (dateNow w)) = objects w.
Proof. reflexivity. Qed.

Lemma onSessionManager_objects f w : objects (onSessionManager f w) = objects w.
Proof. reflexivity. Qed.

Lemma with_fetchLog_objects x w : objects (with_fetchLog x w) = objects w.
Proof. reflexivity. Qed.

Lemma setChainState_objects p st w : objects (setChainState p st w) = objects w.
Proof. reflexivity. Qed.

Lemma dateNow_verificationPromises w : verificationPromises (snd (dateNow w)) = verificationPromises w.
Proof. reflexivity. Qed.

Lemma onSessionManager_verificationPromises f w : verificationPromises (onSessionManager f w) = verificationPromises w.
Proof. reflexivity. Qed.

Lemma with_fetchLog_verificationPromises x w : verificationPromises (with_fetchLog x w) = verificationPromises w.
Proof. reflexivity. Qed.

Lemma setChainState_verificationPromises p st w : verificationPromises (setChainState p st w) = verificationPromises w.
Proof. reflexivity. Qed.

Lemma updateSkillStatus_verificationPromises k st e w : verificationPromises (updateSkillStatus k st e w) = verificationPromises w.
Proof. unfold updateSkillStatus, modifySkill. by destruct (map_get k (skills w)). Qed.

Lemma dateNow_chains w : chains (snd (dateNow w)) = chains w.
Proof. reflexivity. Qed.

Lemma onSessionManager_chains f w : chains (onSessionManager f w) = chains w.
Proof. reflexivity. Qed.

Lemma with_fetchLog_chains x w : chains (with_fetchLog x w) = chains w.
Proof. reflexivity. Qed.

Lemma updateSkillStatus_chains k st e w : chains (updateSkillStatus k st e w) = chains w.
Proof. unfold updateSkillStatus, modifySkill. by destruct (map_get k (skills w)). Qed.

Lemma dateNow_fetchLog w : fetchLog (snd (dateNow w)) = fetchLog w.
Proof. reflexivity. Qed.

Lemma onSessionManager_fetchLog f w : fetchLog (onSessionManager f w) = fetchLog w.
Proof. reflexivity. Qed.

Lemma setChainState_fetchLog p st w : fetchLog (setChainState p st w) = fetchLog w.
Proof. reflexivity. Qed.

Lemma updateSkillStatus_fetchLog k st e w : fetchLog (updateSkillStatus k st e w) = fetchLog w.
Proof. unfold updateSkillStatus, modifySkill. by destruct (map_get k (skills w)). Qed.

Lemma with_fetchLog_sessionManager x w : sessionManager (with_fetchLog x w) = sessionManager w.
Proof. reflexivity. Qed.

Lemma setChainState_sessionManager p st w : sessionManager (setChainState p st w) = sessionManager w.
Proof. reflexivity. Qed.

Lemma updateSkillStatus_sessionManager k st e w : sessionManager (updateSkillStatus k st e w) = sessionManager w.
Proof. unfold updateSkillStatus, modifySkill. by destruct (map_get k (skills w)). Qed.

Create Rewrite HintDb frame.
#[local] Hint Rewrite
  dateNow_skills
  onSessionManager_skills
  with_fetchLog_skills
  setChainState_skills
  updateSkillStatus_skills
  dateNow_objects
  onSessionManager_objects
  with_fetchLog_objects
  setChainState_objects
  dateNow_verificationPromises
  onSessionManager_verificationPromises
  with_fetchLog_verificationPromises
  setChainState_verificationPromises
  updateSkillStatus_verificationPromises
  dateNow_chains
  onSessionManager_chains
  with_fetchLog_chains
  updateSkillStatus_chains
  dateNow_fetchLog
  onSessionManager_fetchLog
  setChainState_fetchLog
  updateSkillStatus_fetchLog
  with_fetchLog_sessionManager
  setChainState_sessionManager
  updateSkillStatus_sessionManager
  modifySkill_skills modifySkill_chains modifySkill_verificationPromises
  modifySkill_fetchLog modifySkill_sessionManager : frame.

Lemma dateNow_evolves P w : evolves P w (snd (dateNow w)).
Proof. by apply evolves_same. Qed.

Lemma onSessionManager_evolves P f w : evolves P w (onSessionManager f w).
Proof. by apply evolves_same. Qed.

Lemma with_fetchLog_evolves P x w : evolves P w (with_fetchLog x w).
Proof. by apply evolves_same. Qed.

(** Peel the steps of a composite operation off, the last one first. *)
Ltac peel1 :=
  match goal with
  | |- evolves _ ?w ?w => apply evolves_refl
  | |- evolves _ _ (snd (dateNow _)) =>
      eapply evolves_trans; [|apply dateNow_evolves]
  | |- evolves _ _ (onSessionManager _ _) =>
      eapply evolves_trans; [|apply onSessionManager_evolves]
  | |- evolves _ _ (with_fetchLog _ _) =>
      eapply evolves_trans; [|apply with_fetchLog_evolves]
  | |- evolves _ _ (modifySkill _ (Skill.setRetryCount _) _) =>
      eapply evolves_trans; [|apply setRetryCount_evolves]
  | |- evolves _ _ (modifySkill _ (Skill.setLastVerified _) _) =>
      eapply evolves_trans; [|apply setLastVerified_evolves]
  | |- evolves _ _ (updateSkillStatus _ _ _ _) =>
      eapply evolves_trans; [|apply updateSkillStatus_evolves]
  | |- evolves _ _ (setChainState _ _ _) =>
      eapply evolves_trans; [|apply setChainState_evolves]
  | |- evolves _ _ _ => by apply evolves_same
  end.

Ltac peel := repeat peel1.

Ltac side :=
  try solve [ exact I | simpl; lia
            | unfold underVerification; auto
            | autorewrite with frame; assumption ].

Lemma inFlight_at p c w :
  chains w !! p = Some c → inFlight (state c) = true →
  ∀ c', chains w !! p = Some c' → inFlight (state c') = true.
Proof. intros H Hf c' H'. congruence. Qed.

Lemma cancelPath_evolves p c w :
  (∀ c', chains w !! p = Some c' → inFlight (state c') = true) →
  evolves underVerification w (cancelPath p c w).
Proof. intros Hp. unfold cancelPath. cbv zeta. peel; side. Qed.

Lemma failPath_evolves p c le w :
  (∀ c', chains w !! p = Some c' → inFlight (state c') = true) →
  evolves underVerification w (failPath p c le w).
Proof.
  intros Hp. unfold failPath. cbv zeta. destruct (sessionId c), le; peel; side.
Qed.

Lemma loopIteration_evolves p c attempt le w :
  (∀ c', chains w !! p = Some c' → inFlight (state c') = true) →
  evolves underVerification w (loopIteration p c attempt le w).
Proof.
  intros Hp. unfold loopIteration.
  destruct (Nat.leb_spec attempt MAX_RETRIES); [|by apply failPath_evolves].
  destruct (chainAborted c w); [by apply cancelPath_evolves|].
  peel; side.
Qed.

Lemma successPath_evolves p c w :
  (∀ c', chains w !! p = Some c' → inFlight (state c') = true) →
  evolves underVerification w (successPath p c w).
Proof. intros Hp. unfold successPath. cbv zeta. destruct (sessionId c); peel; side. Qed.

Lemma catchPath_evolves p c attempt e w :
  (∀ c', chains w !! p = Some c' → inFlight (state c') = true) →
  evolves underVerification w (catchPath p c attempt e w).
Proof.
  intros Hp. unfold catchPath. cbv zeta.
  destruct (_ || _); [by apply cancelPath_evolves|].
  destruct (isRecoverableError _); cbn [andb].
  2: { eapply evolves_trans; [apply dateNow_evolves|].
       apply failPath_evolves. by autorewrite with frame. }
  destruct (Nat.ltb_spec attempt MAX_RETRIES).
  - peel; side.
  - eapply evolves_trans; [apply dateNow_evolves|].
    apply failPath_evolves. by autorewrite with frame.
Qed.

Lemma fetchResolved_evolves p ok status w :
  evolves underVerification w (fetchResolved p ok status w).
Proof.
  unfold fetchResolved. destruct (chains w !! p) as [c|] eqn:Hc; [|apply evolves_refl].
  destruct (state c) eqn:Hs; try apply evolves_refl.
  assert (inFlight (state c) = true) as Hf by by rewrite Hs.
  destruct ok; [apply successPath_evolves | apply catchPath_evolves];
    by eapply inFlight_at.
Qed.

Lemma fetchRejected_evolves p e w :
  evolves underVerification w (fetchRejected p e w).
Proof.
  unfold fetchRejected. destruct (chains w !! p) as [c|] eqn:Hc; [|apply evolves_refl].
  destruct (state c) eqn:Hs; try apply evolves_refl.
  assert (inFlight (state c) = true) as Hf by by rewrite Hs.
  apply catchPath_evolves. by eapply inFlight_at.
Qed.

Lemma timerFired_evolves p w : evolves underVerification w (timerFired p w).
Proof.
  unfold timerFired. destruct (chains w !! p) as [c|] eqn:Hc; [|apply evolves_refl].
  destruct (state c) eqn:Hs; try apply evolves_refl.
  assert (inFlight (state c) = true) as Hf by by rewrite Hs.
  apply loopIteration_evolves. by eapply inFlight_at.
Qed.

Lemma timeoutEach_evolves refs w :
  evolves underVerification w (snd (timeoutEach refs w)).
Proof.
  revert w. induction refs as [|ref rest IH]; intros w; [apply evolves_refl|].
  cbn [timeoutEach]. cbv zeta.
  destruct (statusOf ref w) as [[]|].
  2: { match goal with |- context [timeoutEach rest ?w'] =>
         specialize (IH w'); destruct (timeoutEach rest w') as [rs w3] end.
       simpl in *. eapply evolves_trans; [|exact IH]. peel; side. }
  all: specialize (IH w); destruct (timeoutEach rest w) as [rs w1]; exact IH.
Qed.

Lemma adminStatus_evolves k w :
  evolves (λ _, True) w (disableSkill k w)
  ∧ evolves (λ _, True) w (enableSkill k w)
  ∧ evolves (λ _, True) w (resetSkill k w).
Proof.
  split; [|split].
  - by apply updateSkillStatus_evolves.
  - unfold enableSkill. destruct (lookupSkill k w) as [[r sk]|]; [|apply evolves_refl].
    destruct (Skill.status sk); try apply evolves_refl.
    apply modifySkill_evolves. intros sk0. simpl. auto.
  - unfold resetSkill. destruct (lookupSkill k w) as [[r sk]|]; [|apply evolves_refl].
    destruct (Skill.status sk); try apply evolves_refl.
    apply modifySkill_evolves. intros sk0. simpl. auto.
Qed.

(** Well-formedness is kept by every step that evolves the state. *)
Lemma evolves_wfVerifier P w w' : evolves P w w' → wfVerifier w → wfVerifier w'.
Proof.
  intros (S & V & O & [L C]) (W0 & W1 & W2 & W3 & W4).
  assert (∀ p c', chains w' !! p = Some c' →
            ∃ c, chains w !! p = Some c ∧ skillId c' = skillId c
                 ∧ ownerWaiting c' = ownerWaiting c
                 ∧ (inFlight (state c') = true → inFlight (state c) = true)
                 ∧ (stateOk (state c) → stateOk (state c'))) as Hback.
  { intros p c' H'. assert (is_Some (chains w !! p)) as [c H].
    { apply lookup_lt_is_Some. rewrite <- L. by eapply lookup_lt_Some. }
    destruct (C p c H) as (c2 & H2 & ?). exists c. split; [done|]. congruence. }
  split; [|split; [|split; [|split]]].
  - by rewrite S.
  - intros k r Hg. rewrite S in Hg. destruct (W1 k r Hg) as (sk & Hsk & Hid).
    destruct (O r sk Hsk) as (sk' & ? & ? & _).
    exists sk'. split; [done|]. congruence.
  - intros p c' H' Ho. destruct (Hback p c' H') as (c & H & Ei & Eo & _).
    rewrite S, V, Ei. apply (W2 p c H). congruence.
  - intros p c' H' Hf. destruct (Hback p c' H') as (c & H & Ei & Eo & F & _).
    rewrite Eo. apply (W3 p c H). auto.
  - intros p c' H'. destruct (Hback p c' H') as (c & H & _ & _ & _ & K).
    apply K. by apply (W4 p c).
Qed.

Lemma lookupSkill_Some k w r sk :
  lookupSkill k w = Some (r, sk) ↔ map_get k (skills w) = Some r ∧ objects w !! r = Some sk.
Proof.
  unfold lookupSkill. destruct (map_get k (skills w)) as [r0|]; [|split; [done|by intros []]].
  destruct (objects w !! r0) as [sk0|] eqn:E; split.
  - by intros [= -> ->].
  - intros [[= ->] H]. congruence.
  - done.
  - intros [[= ->] H]. congruence.
Qed.

Lemma lookupSkill_wf k w r :
  wfVerifier w → map_get k (skills w) = Some r →
  ∃ sk, lookupSkill k w = Some (r, sk) ∧ Skill.id sk = k.
Proof.
  intros (_ & W1 & _) Hg. destruct (W1 k r Hg) as (sk & Hsk & Hid).
  exists sk. split; [|done]. by apply lookupSkill_Some.
Qed.

Lemma registerSkill_wfVerifier id name dn vu w :
  wfVerifier w → wfVerifier (snd (registerSkill id name dn vu w)).
Proof.
  intros (W0 & W1 & W2 & W3 & W4). unfold registerSkill. simpl.
  split; [|split; [|split; [|split]]]; simpl; [| | |done|done].
  - by apply map_keys_set_NoDup.
  - intros k r. rewrite map_get_set. destruct (String.eqb id k) eqn:E.
    + apply String.eqb_eq in E. subst k. intros [= <-].
      eexists. split; [apply list_lookup_middle; done|done].
    + intros Hg. destruct (W1 k r Hg) as (sk & Hsk & Hid).
      exists sk. split; [by apply lookup_app_l_Some|done].
  - intros p c Hc Ho. destruct (W2 p c Hc Ho) as [Hv Hs]. split; [done|].
    rewrite map_get_set. by destruct (String.eqb id (skillId c)).
Qed.

Lemma ownerResumes_wfVerifier p w : wfVerifier w → wfVerifier (ownerResumes p w).
Proof.
  intros Hwf. pose proof Hwf as (W0 & W1 & W2 & W3 & W4). unfold ownerResumes.
  destruct (chains w !! p) as [cp|] eqn:Hp; [|done].
  destruct (state cp) as [| |res] eqn:Hs; try done.
  destruct (ownerWaiting cp) eqn:Ho; [|done].
  split; [done|]. split; [done|]. simpl.
  assert (∀ q c, alter (λ c, mkChain (skillId c) (skillName c) (url c) (sessionId c)
                              (abortController c) (timeout c) (state c) false) p (chains w)
                 !! q = Some c →
            (q = p ∧ ownerWaiting c = false ∧ state c = state cp)
            ∨ (q ≠ p ∧ chains w !! q = Some c)) as Hcases.
  { intros q c. destruct (decide (q = p)) as [->|Hne].
    - rewrite list_lookup_alter_eq, Hp. simpl. intros [= <-]. left. by simpl.
    - rewrite list_lookup_alter_ne by done. by right. }
  split; [|split].
  - intros q c Hq Hoq. destruct (Hcases q c Hq) as [(-> & Hf & _)|[Hne Hq']]; [congruence|].
    destruct (W2 q c Hq' Hoq) as [Hv Hr]. split; [|done].
    rewrite map_get_delete_ne; [done|]. intros E.
    destruct (W2 p cp Hp Ho) as [Hvp _]. rewrite E in Hvp. congruence.
  - intros q c Hq Hf. destruct (Hcases q c Hq) as [(-> & _ & Est)|[Hne Hq']].
    + rewrite Est, Hs in Hf. discriminate.
    + by apply (W3 q c).
  - intros q c Hq. destruct (Hcases q c Hq) as [(-> & _ & Est)|[Hne Hq']].
    + by rewrite Est, Hs.
    + by apply (W4 q c).
Qed.

Lemma registerAbort_evolves P sid w : evolves P w (snd (registerAbort sid w)).
Proof. unfold registerAbort. destruct (bound sid); simpl; peel. Qed.

(** A new chain, entered into the map of pending verifications. *)
Lemma newChain_wfVerifier w c :
  wfVerifier w →
  map_get (skillId c) (verificationPromises w) = None →
  is_Some (map_get (skillId c) (skills w)) →
  ownerWaiting c = true → stateOk (state c) →
  wfVerifier
    (with_verificationPromises
       (map_set (skillId c) (length (chains w)) (verificationPromises w))
       (with_chains (chains w ++ [c]) w)).
Proof.
  intros (W0 & W1 & W2 & W3 & W4) Hnone Hreg Hown Hst.
  assert (∀ q c', (chains w ++ [c]) !! q = Some c' →
            (chains w !! q = Some c') ∨ (q = length (chains w) ∧ c' = c)) as Hcases.
  { intros q c' Hq. apply lookup_app_Some in Hq as [?|[Hge Hq]]; [by left|right].
    apply list_lookup_singleton_Some in Hq as [Hz ->]. split; [lia|done]. }
  split; [done|]. split; [done|]. simpl. split; [|split].
  - intros q c' Hq Ho. destruct (Hcases q c' Hq) as [Hq'|[-> ->]].
    + destruct (W2 q c' Hq' Ho) as [Hv Hr]. split; [|done].
      rewrite map_get_set_ne; [done|]. intros E. rewrite E in Hnone. congruence.
    + split; [apply map_get_set_eq|done].
  - intros q c' Hq Hf. destruct (Hcases q c' Hq) as [Hq'|[-> ->]]; [|done].
    by apply (W3 q c').
  - intros q c' Hq. destruct (Hcases q c' Hq) as [Hq'|[-> ->]]; [|done].
    by apply (W4 q c').
Qed.

Lemma evolves_with_verificationPromises P x w w' :
  evolves P w w' →
  evolves P (with_verificationPromises x w) (with_verificationPromises x w').
Proof. intros (S & V & O & C). split; [done|]. split; [done|]. by split. Qed.

Lemma evolves_append_chain P c w : skillsEvolve P w (with_chains (chains w ++ [c]) w).
Proof. split; [done|apply objectsStep_refl]. Qed.

Lemma appended_chain_inFlight c w :
  inFlight (state c) = true →
  ∀ c', chains (with_chains (chains w ++ [c]) w) !! length (chains w) = Some c' →
        inFlight (state c') = true.
Proof.
  intros Hf c'. simpl. rewrite list_lookup_middle by done. by intros [= <-].
Qed.

(** The chain a [performVerification] call creates, run up to its first
    [await] and entered into the map of pending verifications. *)
Lemma startChain_wfVerifier w c :
  wfVerifier w →
  map_get (skillId c) (verificationPromises w) = None →
  is_Some (map_get (skillId c) (skills w)) →
  ownerWaiting c = true → state c = AwaitingFetch 0 None →
  wfVerifier
    (with_verificationPromises
       (map_set (skillId c) (length (chains w))
          (verificationPromises
             (loopIteration (length (chains w)) c 0 None (with_chains (chains w ++ [c]) w))))
       (loopIteration (length (chains w)) c 0 None (with_chains (chains w ++ [c]) w))).
Proof.
  intros Hwf Hnone Hreg Hown Hst.
  assert (evolves underVerification (with_chains (chains w ++ [c]) w)
            (loopIteration (length (chains w)) c 0 None (with_chains (chains w ++ [c]) w)))
    as Hev.
  { apply loopIteration_evolves. apply appended_chain_inFlight. by rewrite Hst. }
  pose proof Hev as (_ & -> & _). simpl.
  eapply evolves_wfVerifier;
    [apply evolves_with_verificationPromises; exact Hev|].
  apply newChain_wfVerifier; try done. rewrite Hst. simpl. lia.
Qed.

Lemma startChain_skillsEvolve w c :
  state c = AwaitingFetch 0 None →
  skillsEvolve underVerification w
    (with_verificationPromises
       (map_set (skillId c) (length (chains w))
          (verificationPromises
             (loopIteration (length (chains w)) c 0 None (with_chains (chains w ++ [c]) w))))
       (loopIteration (length (chains w)) c 0 None (with_chains (chains w ++ [c]) w))).
Proof.
  intros Hst.
  assert (evolves underVerification (with_chains (chains w ++ [c]) w)
            (loopIteration (length (chains w)) c 0 None (with_chains (chains w ++ [c]) w)))
    as (S & _ & O & _).
  { apply loopIteration_evolves. apply appended_chain_inFlight. by rewrite Hst. }
  by split.
Qed.

Lemma performVerification_prefix_evolves k sid w :
  evolves underVerification w
    (snd (registerAbort sid (updateSkillStatus k verifying None w))).
Proof.
  eapply evolves_trans; [|apply registerAbort_evolves].
  apply updateSkillStatus_evolves. by left.
Qed.

Lemma verifySkill_wfVerifier k sid t w :
  wfVerifier w → wfVerifier (snd (verifySkill k sid t w)).
Proof.
  intros Hwf. unfold verifySkill.
  destruct (lookupSkill k w) as [[r sk]|] eqn:Hl.
  2: { cbv zeta. simpl. eapply (evolves_wfVerifier (λ _, True)); [|exact Hwf].
       split; [done|]. split; [done|]. split; [apply objectsStep_app|apply chainsStep_refl]. }
  destruct (map_get k (verificationPromises w)) as [ep|] eqn:Hv; [done|].
  apply lookupSkill_Some in Hl as [Hg Ho].
  assert (Skill.id sk = k) as Hid.
  { destruct Hwf as (_ & W1 & _). destruct (W1 k r Hg) as (sk' & ? & ?). congruence. }
  destruct (Skill.verificationUrl sk) as [[|u0 u]|] eqn:Hu.
  1, 3: eapply evolves_wfVerifier; [|exact Hwf];
    apply (updateSkillStatus_evolves underVerification); right; by left.
  cbv zeta. unfold performVerification. cbv zeta. cbn [fst snd]. rewrite Hid.
  pose proof (performVerification_prefix_evolves k sid w) as Hev.
  match goal with
  | |- context [loopIteration _ ?c 0%nat None _] =>
      pose proof (startChain_wfVerifier _ c
                    (evolves_wfVerifier _ _ _ Hev Hwf)) as H
  end.
  destruct Hev as (S & V & _). apply H; simpl; rewrite ?S, ?V, ?Hg; done.
Qed.

Lemma verifySkill_skillsEvolve k sid t w :
  wfVerifier w → skillsEvolve underVerification w (snd (verifySkill k sid t w)).
Proof.
  intros Hwf. unfold verifySkill.
  destruct (lookupSkill k w) as [[r sk]|] eqn:Hl.
  2: { cbv zeta. simpl. split; [done|]. apply objectsStep_app. }
  destruct (map_get k (verificationPromises w)) as [ep|] eqn:Hv;
    [apply skillsEvolve_refl|].
  apply lookupSkill_Some in Hl as [Hg Ho].
  assert (Skill.id sk = k) as Hid.
  { destruct Hwf as (_ & W1 & _). destruct (W1 k r Hg) as (sk' & ? & ?). congruence. }
  destruct (Skill.verificationUrl sk) as [[|u0 u]|] eqn:Hu.
  1, 3: apply evolves_skillsEvolve, updateSkillStatus_evolves; right; by left.
  cbv zeta. unfold performVerification. cbv zeta. cbn [fst snd]. rewrite Hid.
  eapply skillsEvolve_trans;
    [apply evolves_skillsEvolve, (performVerification_prefix_evolves k sid w)|].
  match goal with
  | |- context [loopIteration _ ?c 0%nat None _] =>
      apply (startChain_skillsEvolve _ c)
  end.
  done.
Qed.

Lemma verifyEach_wfVerifier ids sid t w :
  wfVerifier w → wfVerifier (snd (verifyEach ids sid t w)).
Proof.
  revert w. induction ids as [|id rest IH]; intros w Hwf; [done|].
  cbn [verifyEach].
  pose proof (verifySkill_wfVerifier id sid t w Hwf) as H1.
  destruct (verifySkill id sid t w) as [o w1]. simpl in H1.
  specialize (IH w1 H1). destruct (verifyEach rest sid t w1) as [os w2]. exact IH.
Qed.

Lemma verifyEach_skillsEvolve ids sid t w :
  wfVerifier w → skillsEvolve underVerification w (snd (verifyEach ids sid t w)).
Proof.
  revert w. induction ids as [|id rest IH]; intros w Hwf; [apply skillsEvolve_refl|].
  cbn [verifyEach].
  pose proof (verifySkill_wfVerifier id sid t w Hwf) as H1.
  pose proof (verifySkill_skillsEvolve id sid t w Hwf) as E1.
  destruct (verifySkill id sid t w) as [o w1]. simpl in H1, E1.
  specialize (IH w1 H1). destruct (verifyEach rest sid t w1) as [os w2].
  simpl in *. by eapply skillsEvolve_trans.
Qed.

Lemma verifyAllSkills_wfVerifier sid t w :
  wfVerifier w → wfVerifier (snd (verifyAllSkills sid t w)).
Proof.
  intros Hwf. unfold verifyAllSkills.
  destruct (List.filter _ _) as [|r0 refs]; [done|].
  match goal with |- context [verifyEach ?ids sid t w] =>
    pose proof (verifyEach_wfVerifier ids sid t w Hwf) as H;
    destruct (verifyEach ids sid t w) as [os w1] end.
  exact H.
Qed.

Lemma runVerifierOp_wfVerifier op w : wfVerifier w → wfVerifier (runVerifierOp op w).
Proof.
  intros Hwf. destruct op; simpl.
  - by apply registerSkill_wfVerifier.
  - by apply verifySkill_wfVerifier.
  - by apply verifyAllSkills_wfVerifier.
  - eapply evolves_wfVerifier; [apply timeoutEach_evolves|done].
  - eapply evolves_wfVerifier; [apply adminStatus_evolves|done].
  - eapply evolves_wfVerifier; [apply adminStatus_evolves|done].
  - eapply evolves_wfVerifier; [apply adminStatus_evolves|done].
  - eapply evolves_wfVerifier; [apply fetchResolved_evolves|done].
  - eapply evolves_wfVerifier; [apply fetchRejected_evolves|done].
  - eapply evolves_wfVerifier; [apply timerFired_evolves|done].
  - by apply ownerResumes_wfVerifier.
  - eapply evolves_wfVerifier; [apply (onSessionManager_evolves (λ _, True))|done].
Qed.

Lemma reachableVerifier_wfVerifier w : reachableVerifier w → wfVerifier w.
Proof.
  induction 1 as [clk|op w _ IH]; [|by apply runVerifierOp_wfVerifier].
  split; [apply NoDup_nil_2|]. split; [done|]. split; [done|]. split; done.
Qed.

Lemma reachableVerifier_runVerifierOps ops w :
  reachableVerifier w → reachableVerifier (runVerifierOps ops w).
Proof.
  unfold runVerifierOps. revert w.
  induction ops as [|op ops IH]; intros w Hw; simpl; [done|].
  apply IH. by constructor.
Qed.

(** ** SkillVerifier: the claims *)

(** The controller that [registerOperation] has just handed out is not
    aborted. *)
Lemma registerAbort_not_aborted sid w c w' :
  abortController c = fst (registerAbort sid w) →
  sessionManager w' = sessionManager (snd (registerAbort sid w)) →
  chainAborted c w' = false.
Proof.
  unfold chainAborted, registerAbort. intros -> ->.
  destruct (bound sid) as [s|]; [|done]. simpl.
  unfold SessionManager.aborted. simpl. by rewrite list_lookup_middle.
Qed.

(** The first turn of a new chain issues its [fetch]. *)
Lemma loopIteration_first p c w :
  chainAborted c w = false →
  loopIteration p c 0 None w
  = setChainState p (AwaitingFetch 0 None)
      (with_fetchLog (fetchLog w ++ [mkFetchCall (url c) (timeout c) p]) w).
Proof. intros H. unfold loopIteration. simpl. by rewrite H. Qed.

Lemma registerAbort_frame sid w :
  skills (snd (registerAbort sid w)) = skills w
  ∧ objects (snd (registerAbort sid w)) = objects w
  ∧ verificationPromises (snd (registerAbort sid w)) = verificationPromises w
  ∧ chains (snd (registerAbort sid w)) = chains w
  ∧ fetchLog (snd (registerAbort sid w)) = fetchLog w.
Proof. unfold registerAbort. by destruct (bound sid). Qed.

Ltac projections :=
  cbn [skills objects verificationPromises chains fetchLog sessionManager
       with_skills with_objects with_verificationPromises with_chains with_fetchLog
       with_sessionManager setChainState onSessionManager fst snd
       skillId url timeout state ownerWaiting abortController].

(** What a [verifySkill] call does that finds its skill registered, with a
    verification URL, and no verification pending: it starts the chain
    [length (chains w)], issues the first [fetch], and records the chain as
    the pending verification of the skill. *)
Lemma verifySkill_starts k sid t w r sk u0 u :
  wfVerifier w →
  lookupSkill k w = Some (r, sk) →
  map_get k (verificationPromises w) = None →
  Skill.verificationUrl sk = Some (String u0 u) →
  ∃ w', verifySkill k sid t w = (Pending (length (chains w)), w')
    ∧ skills w' = skills w
    ∧ map_get k (verificationPromises w') = Some (length (chains w))
    ∧ (∀ k', k' ≠ k →
         map_get k' (verificationPromises w') = map_get k' (verificationPromises w))
    ∧ fetchLog w'
      = fetchLog w
        ++ [mkFetchCall (String u0 u) (default SKILL_VERIFICATION_TIMEOUT t)
              (length (chains w))]
    ∧ statusOf r w' = Some verifying.
Proof.
  intros Hwf Hl Hv Hu.
  apply lookupSkill_Some in Hl as Hl'. destruct Hl' as [Hg Ho].
  assert (Skill.id sk = k) as Hid.
  { destruct Hwf as (_ & W1 & _). destruct (W1 k r Hg) as (sk' & ? & ?). congruence. }
  unfold verifySkill. rewrite Hl, Hv, Hu. cbv zeta.
  unfold performVerification. cbv zeta. cbn [fst snd]. rewrite Hid.
  rewrite loopIteration_first
    by (eapply registerAbort_not_aborted; [reflexivity|reflexivity]).
  destruct (registerAbort_frame sid (updateSkillStatus k verifying None w))
    as (S & O & V & C & F).
  eexists. split; [by rewrite C, updateSkillStatus_chains|].
  unfold statusOf. projections. rewrite ?S, ?O, ?V, ?C, ?F, ?Hu.
  autorewrite with frame.
  split; [done|]. split; [apply map_get_set_eq|].
  split; [intros k' Hne; by apply map_get_set_ne|]. split; [done|].
  unfold updateSkillStatus, modifySkill. rewrite Hg. projections.
  by rewrite list_lookup_alter_eq, Ho.
Qed.

(** The scenarios of the test suite.  Two concurrent calls, then the one
    [fetch] resolves: both calls are resolved by chain 0, whose result is
    the success, and [fetch] was called once. *)
Example verifySkill_deduplicates :
  let w1 := snd (verifySkill "x" None None verifierWithSkill) in
  let w2 := fetchResolved 0 true 200 (snd (verifySkill "x" None None w1)) in
  fst (verifySkill "x" None None verifierWithSkill) = Pending 0
  ∧ fst (verifySkill "x" None None w1) = Pending 0
  ∧ outcomeResult (Pending 0) w2
    = Some (SkillVerificationResult.mk true (Some 0%nat) None)
  ∧ length (fetchLog w2) = 1%nat.
Proof. repeat split. Qed.

(** Two failures that are recoverable and a success: three calls of
    [fetch]; failures throughout: the initial attempt and [MAX_RETRIES]
    retries. *)
Example verifySkill_retries :
  let w1 := snd (verifySkill "x" None None verifierWithSkill) in
  let retry := [VFetchRejected 0 networkError; VTimerFired 0] in
  length (fetchLog (runVerifierOps (retry ++ retry ++ [VFetchResolved 0 true 200]) w1))
  = 3%nat
  ∧ statusOf 0 (runVerifierOps (retry ++ retry ++ [VFetchResolved 0 true 200]) w1)
    = Some verified
  ∧ length (fetchLog
              (runVerifierOps (retry ++ retry ++ retry ++ retry ++ retry) w1))
    = 4%nat
  ∧ statusOf 0 (runVerifierOps (retry ++ retry ++ retry ++ retry ++ retry) w1)
    = Some failed.
Proof. repeat split. Qed.

(** C5. In a reachable verifier, while the chain [p] of a skill id is in
    flight, every further [verifySkill] call for that id returns the promise
    [p] itself and changes nothing: it starts no chain and issues no network
    call.  And for a registered, unverified skill with a verification URL
    and no pending verification, two [verifySkill] calls in a row are
    resolved by one and the same promise, the second call leaves the state
    of the first untouched, and together they have issued exactly one
    [fetch], for the skill's URL. *)
Theorem C5_verifySkill_coalesces w :
  reachableVerifier w →
  (∀ p c sid t, chains w !! p = Some c → inFlight (state c) = true →
     verifySkill (skillId c) sid t w = (Pending p, w))
  ∧ (∀ k r sk u0 u sid1 t1 sid2 t2,
       lookupSkill k w = Some (r, sk) → Skill.status sk = unverified →
       Skill.verificationUrl sk = Some (String u0 u) →
       map_get k (verificationPromises w) = None →
       fst (verifySkill k sid1 t1 w) = Pending (length (chains w))
       ∧ verifySkill k sid2 t2 (snd (verifySkill k sid1 t1 w))
         = (Pending (length (chains w)), snd (verifySkill k sid1 t1 w))
       ∧ fetchLog (snd (verifySkill k sid1 t1 w))
         = fetchLog w
           ++ [mkFetchCall (String u0 u) (default SKILL_VERIFICATION_TIMEOUT t1)
                 (length (chains w))]).
Proof.
  intros Hr. pose proof (reachableVerifier_wfVerifier w Hr) as Hwf.
  assert (∀ w0 p k sid t, wfVerifier w0 →
            map_get k (verificationPromises w0) = Some p →
            is_Some (map_get k (skills w0)) →
            verifySkill k sid t w0 = (Pending p, w0)) as Hjoin.
  { intros w0 p k sid t Hwf0 Hv [r Hg].
    destruct (lookupSkill_wf k w0 r Hwf0 Hg) as (sk & Hl & _).
    unfold verifySkill. by rewrite Hl, Hv. }
  split.
  - intros p c sid t Hc Hf. pose proof Hwf as (_ & _ & W2 & W3 & _).
    destruct (W2 p c Hc (W3 p c Hc Hf)) as [Hv Hreg]. by apply Hjoin.
  - intros k r sk u0 u sid1 t1 sid2 t2 Hl Hst Hu Hv.
    pose proof (verifySkill_wfVerifier k sid1 t1 w Hwf) as Hwf1.
    destruct (verifySkill_starts k sid1 t1 w r sk u0 u Hwf Hl Hv Hu)
      as (w' & E & S & Hv' & _ & F & _).
    rewrite E in *. cbn [fst snd] in *. split; [done|]. split; [|done].
    apply Hjoin; [done|done|]. rewrite S.
    apply lookupSkill_Some in Hl as [Hg _]. by exists r.
Qed.

Lemma C5_witness :
  verifySkill "x" None None (snd (verifySkill "x" None None verifierWithSkill))
  = (Pending 0%nat, snd (verifySkill "x" None None verifierWithSkill))
  ∧ length (fetchLog (snd (verifySkill "x" None None verifierWithSkill))) = 1%nat.
Proof.
  destruct (C5_verifySkill_coalesces verifierWithSkill
              (reachableVerifier_runVerifierOps _ _ (reachableVerifier_init tickClock)))
    as [_ H].
  destruct (H "x" 0%nat
              (Skill.mk "x" "x" "X" unverified (Some "https://example.com/verify")
                 None None 0%nat)
              "h"%char "ttps://example.com/verify" None None None None
              eq_refl eq_refl eq_refl eq_refl) as (_ & H2 & H3).
  split; [exact H2|]. rewrite H3. reflexivity.
Defined.

(** C6 as stated fails: the back-off sleep is a bare timer.  The chain of
    ["x"] rests in the sleep of 2000 ms that follows its first failed
    attempt; the token of its session is then fired; the chain still rests
    in that same sleep. *)
Lemma C6_counterexample :
  sleepingFor <$> chains verifierSleeping !! 0%nat = Some (Some (1%nat, 2000))
  ∧ (λ c, chainAborted c
            (runVerifierOp (VSession (OpCancelPendingOperations "s")) verifierSleeping))
    <$> chains verifierSleeping !! 0%nat = Some true
  ∧ sleepingFor
    <$> chains (runVerifierOp (VSession (OpCancelPendingOperations "s")) verifierSleeping)
        !! 0%nat
    = Some (Some (1%nat, 2000)).
Proof. repeat split. Qed.

Lemma cancelPath_settles p c w c0 :
  chains w !! p = Some c0 →
  fetchLog (cancelPath p c w) = fetchLog w
  ∧ settledCode <$> chains (cancelPath p c w) !! p
    = Some (Some (false, Some "VERIFICATION_CANCELLED")).
Proof.
  intros Hc. unfold cancelPath. cbv zeta. projections. autorewrite with frame.
  split; [done|]. by rewrite list_lookup_alter_eq, Hc.
Qed.

(** C6, amended. The back-off sleep does not observe the cancellation
    token: no operation on the session manager, the firing of the token
    included, changes a sleeping chain or issues a network call.  The token
    is observed when the timer fires: if it has been fired by then, the
    chain ends with [VERIFICATION_CANCELLED] and no further network attempt
    is issued; otherwise the next attempt is issued. *)
Theorem C6_backoff_sleep_and_token w p c attempt le delay :
  reachableVerifier w →
  chains w !! p = Some c → state c = Sleeping attempt le delay →
  (∀ op, chains (runVerifierOp (VSession op) w) = chains w
         ∧ fetchLog (runVerifierOp (VSession op) w) = fetchLog w)
  ∧ (chainAborted c w = true →
       fetchLog (timerFired p w) = fetchLog w
       ∧ settledCode <$> chains (timerFired p w) !! p
         = Some (Some (false, Some "VERIFICATION_CANCELLED")))
  ∧ (chainAborted c w = false →
       fetchLog (timerFired p w) = fetchLog w ++ [mkFetchCall (url c) (timeout c) p]
       ∧ state <$> chains (timerFired p w) !! p = Some (AwaitingFetch attempt le)).
Proof.
  intros Hr Hc Hs. pose proof (reachableVerifier_wfVerifier w Hr) as (_ & _ & _ & _ & W4).
  specialize (W4 p c Hc). rewrite Hs in W4. simpl in W4.
  split; [done|]. unfold timerFired, loopIteration. rewrite Hc, Hs.
  destruct (Nat.leb_spec attempt MAX_RETRIES) as [_|Hgt]; [|lia].
  split; intros ->.
  - by apply (cancelPath_settles p c w c).
  - projections. split; [done|]. by rewrite list_lookup_alter_eq, Hc.
Qed.

Lemma C6_witness :
  settledCode <$>
    chains
      (timerFired 0
         (runVerifierOp (VSession (OpCancelPendingOperations "s")) verifierSleeping))
    !! 0%nat
  = Some (Some (false, Some "VERIFICATION_CANCELLED"))
  ∧ length
      (fetchLog
         (timerFired 0
            (runVerifierOp (VSession (OpCancelPendingOperations "s")) verifierSleeping)))
    = 1%nat.
Proof.
  destruct (C6_backoff_sleep_and_token
              (runVerifierOp (VSession (OpCancelPendingOperations "s")) verifierSleeping)
              0%nat
              (mkChain "x" "x" "https://example.com/verify" (Some "s") (Some 0%nat) 5000
                 (Sleeping 1 (Some (SkillError.mk "NETWORK_ERROR" "fetch failed" true 1003))
                    2000) true)
              1%nat (Some (SkillError.mk "NETWORK_ERROR" "fetch failed" true 1003)) 2000
              (reachableVerifier_step _ _
                 (reachableVerifier_runVerifierOps _ _
                    (reachableVerifier_runVerifierOps _ _ (reachableVerifier_init tickClock))))
              eq_refl eq_refl) as (_ & H & _).
  destruct (H eq_refl) as [H1 H2]. split; [exact H2|]. rewrite H1. reflexivity.
Defined.

(** C10 as stated fails where a verification of the id is pending: the
    skill registered under ["x"] is disabled and has no verification URL,
    yet [verifySkill "x"] joins the pending promise, changes nothing and
    leaves the skill [disabled].  When the response of the joined
    verification is then not OK, the promise the call returned resolves
    with [success = false] and [VERIFICATION_ERROR], and the registered
    skill is [failed]: the call has not succeeded and the skill is not
    [verified]. *)
Lemma C10_counterexample :
  (λ '(r, sk), (r, Skill.status sk, Skill.verificationUrl sk))
    <$> lookupSkill "x" verifierReRegistered
  = Some (1%nat, disabled, None)
  ∧ verifySkill "x" None None verifierReRegistered = (Pending 0, verifierReRegistered)
  ∧ statusOf 1 (snd (verifySkill "x" None None verifierReRegistered)) = Some disabled
  ∧ (λ r, (SkillVerificationResult.success r,
           SkillError.code <$> SkillVerificationResult.error r))
      <$> outcomeResult (fst (verifySkill "x" None None verifierReRegistered))
            (runVerifierOp (VFetchResolved 0 false 500)
               (snd (verifySkill "x" None None verifierReRegistered)))
    = Some (false, Some "VERIFICATION_ERROR")
  ∧ statusOf 1
      (runVerifierOp (VFetchResolved 0 false 500)
         (snd (verifySkill "x" None None verifierReRegistered)))
    = Some failed.
Proof. repeat split. Qed.

Lemma areAllSkillsVerified_spec w :
  areAllSkillsVerified w = true
  ↔ ∀ r, r ∈ getAllSkills w →
         statusOf r w = Some disabled ∨ statusOf r w = Some verified.
Proof.
  unfold areAllSkillsVerified. rewrite forallb_forall. split.
  - intros H r Hr. apply list_elem_of_In in Hr.
    destruct (statusOf r w) as [st|] eqn:Est.
    + specialize (H r). rewrite filter_In, Est in H.
      destruct st; auto; by specialize (H (conj Hr eq_refl)).
    + specialize (H r). rewrite filter_In, Est in H. by specialize (H (conj Hr eq_refl)).
  - intros H r Hin. apply filter_In in Hin as [Hin Hf].
    apply list_elem_of_In in Hin. destruct (H r Hin) as [E|E]; rewrite E in *; done.
Qed.

(** C10, amended. [verifySkill] does not look at the status [disabled].
    For a registered skill that is disabled: when no verification of the id
    is pending, a call for a skill without verification URL succeeds at once
    and leaves the skill [verified], and a call for a skill with a URL starts
    a verification (status [verifying], one [fetch] issued); when a
    verification of the id is pending, the call joins it: it returns the
    pending promise and changes nothing, so the skill stays [disabled] and no
    [fetch] is issued.  The scan of [verifyAllSkills] does leave a disabled
    skill out, and [areAllSkillsVerified] holds exactly when every registered
    skill is disabled or verified. *)
Theorem C10_verifySkill_ignores_disabled w k r sk sid t :
  reachableVerifier w →
  lookupSkill k w = Some (r, sk) → Skill.status sk = disabled →
  (map_get k (verificationPromises w) = None →
   Skill.verificationUrl sk = None ∨ Skill.verificationUrl sk = Some "" →
     fst (verifySkill k sid t w)
     = Resolved (SkillVerificationResult.mk true (Some r) None)
     ∧ statusOf r (snd (verifySkill k sid t w)) = Some verified
     ∧ fetchLog (snd (verifySkill k sid t w)) = fetchLog w)
  ∧ (map_get k (verificationPromises w) = None →
     ∀ u0 u, Skill.verificationUrl sk = Some (String u0 u) →
       fst (verifySkill k sid t w) = Pending (length (chains w))
       ∧ statusOf r (snd (verifySkill k sid t w)) = Some verifying
       ∧ fetchLog (snd (verifySkill k sid t w))
         = fetchLog w
           ++ [mkFetchCall (String u0 u) (default SKILL_VERIFICATION_TIMEOUT t)
                 (length (chains w))])
  ∧ (∀ p, map_get k (verificationPromises w) = Some p →
       verifySkill k sid t w = (Pending p, w)
       ∧ statusOf r (snd (verifySkill k sid t w)) = Some disabled
       ∧ fetchLog (snd (verifySkill k sid t w)) = fetchLog w)
  ∧ (∀ sid' t' a w', verifyAllSkills sid' t' w = (inr a, w') → r ∉ scanned a)
  ∧ (areAllSkillsVerified w = true
     ↔ ∀ r', r' ∈ getAllSkills w →
             statusOf r' w = Some disabled ∨ statusOf r' w = Some verified).
Proof.
  intros Hr Hl Hst. pose proof (reachableVerifier_wfVerifier w Hr) as Hwf.
  apply lookupSkill_Some in Hl as Hl'. destruct Hl' as [Hg Ho].
  split; [|split; [|split; [|split]]].
  - intros Hv Hu. unfold verifySkill. rewrite Hl, Hv.
    assert (∀ X Y : Outcome * SkillVerifier.t,
              match Skill.verificationUrl sk with
              | Some (String _ _) => X
              | _ => Y
              end = Y) as -> by (intros X Y; by destruct Hu as [-> | ->]).
    cbv zeta. projections. autorewrite with frame. rewrite Hg.
    split; [done|]. split; [|done].
    unfold statusOf, updateSkillStatus, modifySkill. rewrite Hg. projections.
    by rewrite list_lookup_alter_eq, Ho.
  - intros Hv u0 u Hu.
    destruct (verifySkill_starts k sid t w r sk u0 u Hwf Hl Hv Hu)
      as (w' & -> & _ & _ & _ & F & St). done.
  - intros p Hv.
    assert (verifySkill k sid t w = (Pending p, w)) as E
      by (unfold verifySkill; by rewrite Hl, Hv).
    rewrite E. cbn [fst snd]. split; [done|]. split.
    { unfold statusOf. rewrite Ho. simpl. by rewrite Hst. }
    done.
  - intros sid' t' a w' Ha Hin. unfold verifyAllSkills in Ha.
    destruct (List.filter _ (getAllSkills w)) as [|r0 refs] eqn:Ef; [discriminate|].
    destruct (verifyEach _ sid' t' w) as [os w1]. injection Ha as <- <-.
    simpl in Hin. rewrite <- Ef in Hin. apply list_elem_of_In, filter_In in Hin as [_ Hf].
    unfold statusOf in Hf. rewrite Ho in Hf. simpl in Hf. rewrite Hst in Hf. discriminate.
  - apply areAllSkillsVerified_spec.
Qed.

Lemma C10_witness :
  fst (verifySkill "x" None None
         (runVerifierOps [VRegisterSkill "x" "x" "X" None; VDisableSkill "x"]
            (init tickClock)))
  = Resolved (SkillVerificationResult.mk true (Some 0%nat) None)
  ∧ statusOf 0
      (snd (verifySkill "x" None None
              (runVerifierOps [VRegisterSkill "x" "x" "X" None; VDisableSkill "x"]
                 (init tickClock))))
    = Some verified.
Proof.
  destruct (C10_verifySkill_ignores_disabled
              (runVerifierOps [VRegisterSkill "x" "x" "X" None; VDisableSkill "x"]
                 (init tickClock))
              "x" 0%nat (Skill.mk "x" "x" "X" disabled None None None 0%nat) None None
              (reachableVerifier_runVerifierOps _ _ (reachableVerifier_init tickClock))
              eq_refl eq_refl) as (H & _).
  destruct (H eq_refl (or_introl eq_refl)) as (H1 & H2 & _). by split.
Defined.

(** *** [verifyAllSkills] *)

Lemma objectsStep_statusOf P w w' r st :
  objectsStep P (objects w) (objects w') → statusOf r w = Some st →
  ∃ st', statusOf r w' = Some st' ∧ (st' = st ∨ P st').
Proof.
  unfold statusOf. intros HO Hs. destruct (objects w !! r) as [sk|] eqn:E; [|done].
  injection Hs as <-. destruct (HO r sk E) as (sk' & -> & _ & Hst). by exists (Skill.status sk').
Qed.

Lemma underVerification_persists w w' r st :
  skillsEvolve underVerification w w' → statusOf r w = Some st → underVerification st →
  ∃ st', statusOf r w' = Some st' ∧ underVerification st'.
Proof.
  intros [_ HO] Hs Hu. destruct (objectsStep_statusOf _ _ _ _ _ HO Hs) as (st' & ? & Hc).
  exists st'. split; [done|]. by destruct Hc as [->|?].
Qed.

(** What one [verifySkill] call does to the pending map and to the status
    of its skill. *)
Lemma verifySkill_effect k sid t w r :
  wfVerifier w → map_get k (skills w) = Some r →
  (∀ k', k' ≠ k →
     map_get k' (verificationPromises (snd (verifySkill k sid t w)))
     = map_get k' (verificationPromises w))
  ∧ (map_get k (verificationPromises w) = None →
     ∃ st, statusOf r (snd (verifySkill k sid t w)) = Some st ∧ underVerification st).
Proof.
  intros Hwf Hg. destruct (lookupSkill_wf k w r Hwf Hg) as (sk & Hl & Hid).
  apply lookupSkill_Some in Hl as Hl'. destruct Hl' as [_ Ho].
  destruct (map_get k (verificationPromises w)) as [ep|] eqn:Hv.
  { unfold verifySkill. rewrite Hl, Hv. by split. }
  destruct (Skill.verificationUrl sk) as [[|u0 u]|] eqn:Hu.
  2: { destruct (verifySkill_starts k sid t w r sk u0 u Hwf Hl Hv Hu)
         as (w' & -> & _ & _ & Hother & _ & St).
       split; [done|]. intros _. exists verifying. split; [done|by left]. }
  all: unfold verifySkill; rewrite Hl, Hv, Hu; cbv zeta; projections;
    autorewrite with frame; (split; [done|]); intros _; exists verified;
    (split; [|right; by left]);
    unfold statusOf, updateSkillStatus, modifySkill; rewrite Hg; projections;
    by rewrite list_lookup_alter_eq, Ho.
Qed.

(** After the calls that [verifyAllSkills] makes, every skill it called
    [verifySkill] for is under verification, provided no verification of it
    was pending before (or it was under verification already). *)
Lemma verifyEach_started ids : ∀ sid t w,
  wfVerifier w →
  (∀ id, id ∈ ids → ∃ r, map_get id (skills w) = Some r
     ∧ (map_get id (verificationPromises w) = None
        ∨ ∃ st, statusOf r w = Some st ∧ underVerification st)) →
  ∀ id, id ∈ ids → ∃ r st, map_get id (skills w) = Some r
     ∧ statusOf r (snd (verifyEach ids sid t w)) = Some st ∧ underVerification st.
Proof.
  induction ids as [|id0 rest IH]; intros sid t w Hwf Hpre id Hin;
    [by apply elem_of_nil in Hin|].
  cbn [verifyEach].
  pose proof (verifySkill_wfVerifier id0 sid t w Hwf) as Hwf1.
  pose proof (verifySkill_skillsEvolve id0 sid t w Hwf) as Hev1.
  destruct (Hpre id0 (list_elem_of_here _ _)) as (r0 & Hg0 & Hpre0).
  pose proof (verifySkill_effect id0 sid t w r0 Hwf Hg0) as [Hother Hnew].
  destruct (verifySkill id0 sid t w) as [o w1]. cbn [snd] in *.
  assert (∃ st, statusOf r0 w1 = Some st ∧ underVerification st) as Hr0.
  { destruct Hpre0 as [Hnone|(st & Hst & Hu)]; [by apply Hnew|].
    by eapply underVerification_persists. }
  assert (∀ id', id' ∈ rest → ∃ r, map_get id' (skills w1) = Some r
            ∧ (map_get id' (verificationPromises w1) = None
               ∨ ∃ st, statusOf r w1 = Some st ∧ underVerification st)) as Hpre1.
  { intros id' Hin'. destruct (Hpre id' (list_elem_of_further _ _ _ Hin'))
      as (r & Hg & Hp). exists r. pose proof Hev1 as [S1 HO]. rewrite S1.
    split; [done|].
    destruct (decide (id' = id0)) as [->|Hne].
    - right. by assert (r = r0) as -> by congruence.
    - destruct Hp as [Hnone|(st & Hst & Hu)].
      + left. by rewrite Hother.
      + right. by eapply (underVerification_persists w w1). }
  pose proof (verifyEach_skillsEvolve rest sid t w1 Hwf1) as Hev2.
  specialize (IH sid t w1 Hwf1 Hpre1).
  destruct (verifyEach rest sid t w1) as [os w2]. cbn [snd] in *.
  apply elem_of_cons in Hin as [->|Hin].
  - exists r0. destruct Hr0 as (st & Hst & Hu).
    destruct (underVerification_persists w1 w2 r0 st Hev2 Hst Hu) as (st' & ? & ?).
    by exists st'.
  - destruct (IH id Hin) as (r & st & Hg & Hst & Hu). exists r, st.
    destruct Hev1 as [S1 _]. by rewrite <- S1.
Qed.





End Verifier.

(* ===================================================================== *)
(** * Part III: further properties of the code *)
(* ===================================================================== *)

(** ** SessionManager: counters, isolation, pending operations, time stamps *)

Section SessionManagerMore.
Import SessionManager.
Implicit Types (m : SessionManager.t) (id : string).

Lemma pow2_le (a b : nat) : (a ≤ b)%nat → 2 ^ Z.of_nat a ≤ 2 ^ Z.of_nat b.
Proof. intros H. apply Z.pow_le_mono_r; lia. Qed.

(** X1. The back-off delay lies between the base delay and the cap of
    30 s, never decreases from one attempt to the next, is the base doubled
    [attempt] times up to the fourth attempt and the cap from the fifth on. *)
Theorem X1_calculateRetryDelay_shape (attempt : nat) :
  RETRY_DELAY_BASE ≤ calculateRetryDelay attempt ≤ 30000
  ∧ calculateRetryDelay attempt ≤ calculateRetryDelay (S attempt)
  ∧ ((attempt ≤ 4)%nat →
     calculateRetryDelay attempt = RETRY_DELAY_BASE * 2 ^ Z.of_nat attempt)
  ∧ ((5 ≤ attempt)%nat → calculateRetryDelay attempt = 30000).
Proof.
  unfold calculateRetryDelay, RETRY_DELAY_BASE.
  assert (1 ≤ 2 ^ Z.of_nat attempt) as H1.
  { change 1 with (2 ^ Z.of_nat 0). apply pow2_le. lia. }
  assert (2 ^ Z.of_nat attempt ≤ 2 ^ Z.of_nat (S attempt)) as H2 by (apply pow2_le; lia).
  repeat split; try lia.
  - intros H. assert (2 ^ Z.of_nat attempt ≤ 2 ^ Z.of_nat 4) as H3 by (by apply pow2_le).
    change (2 ^ Z.of_nat 4) with 16 in H3. lia.
  - intros H. assert (2 ^ Z.of_nat 5 ≤ 2 ^ Z.of_nat attempt) as H3 by (by apply pow2_le).
    change (2 ^ Z.of_nat 5) with 32 in H3. lia.
Qed.


(** *** Frame facts *)

Lemma updateSession_frame id u m :
  pendingOperations (snd (updateSession id u m)) = pendingOperations m
  ∧ controllers (snd (updateSession id u m)) = controllers m
  ∧ clock (snd (updateSession id u m)) = clock m
  ∧ (ticks m ≤ ticks (snd (updateSession id u m)))%nat.
Proof.
  unfold updateSession. destruct (map_get id (sessions m)); simpl; repeat split; lia.
Qed.

Lemma updateSession_other id id' u m :
  id ≠ id' → getSession id' (snd (updateSession id u m)) = getSession id' m.
Proof.
  intros Hne. unfold getSession.
  destruct (map_get id (sessions m)) as [s|] eqn:H.
  - destruct (updateSession_Some id u m s H) as (s' & _ & -> & _).
    by apply map_get_set_ne.
  - by rewrite (updateSession_None _ _ _ H).
Qed.

Lemma updateSession_keys id u m :
  map_keys (sessions (snd (updateSession id u m))) = map_keys (sessions m).
Proof.
  destruct (map_get id (sessions m)) as [s|] eqn:H.
  - destruct (updateSession_Some id u m s H) as (s' & _ & -> & _).
    by apply (map_keys_set_present id s' s).
  - by rewrite (updateSession_None _ _ _ H).
Qed.

Lemma cancelPendingOperations_frame sid m :
  sessions (cancelPendingOperations sid m) = sessions m
  ∧ clock (cancelPendingOperations sid m) = clock m
  ∧ ticks (cancelPendingOperations sid m) = ticks m.
Proof. unfold cancelPendingOperations. by destruct (map_get sid _). Qed.

Lemma isZombieSession_frame s m :
  sessions (snd (isZombieSession s m)) = sessions m
  ∧ pendingOperations (snd (isZombieSession s m)) = pendingOperations m
  ∧ controllers (snd (isZombieSession s m)) = controllers m
  ∧ clock (snd (isZombieSession s m)) = clock m
  ∧ ticks (snd (isZombieSession s m)) = S (ticks m).
Proof. done. Qed.

Lemma getSession_cancel sid id m :
  getSession id (cancelPendingOperations sid m) = getSession id m.
Proof. unfold getSession. by rewrite cancelPendingOperations_sessions. Qed.

Lemma terminateSession_other id id' m :
  id ≠ id' → getSession id' (snd (terminateSession id m)) = getSession id' m.
Proof.
  intros Hne. unfold terminateSession. rewrite updateSession_other by done.
  apply getSession_cancel.
Qed.

Lemma terminateSession_keys id m :
  map_keys (sessions (snd (terminateSession id m))) = map_keys (sessions m).
Proof.
  unfold terminateSession. by rewrite updateSession_keys, cancelPendingOperations_sessions.
Qed.

Lemma cleanupLoop_keys ids n m :
  map_keys (sessions (snd (cleanupLoop ids n m))) = map_keys (sessions m).
Proof.
  revert n m. induction ids as [|id rest IH]; intros n m; cbn [cleanupLoop]; [done|].
  destruct (map_get id (sessions m)) as [s|]; [|by apply IH].
  destruct (isZombieSession s m) as [z m1] eqn:Ez.
  assert (sessions m1 = sessions m) as E1.
  { pose proof (isZombieSession_frame s m) as (H & _). by rewrite Ez in H. }
  destruct z; rewrite IH; [|by rewrite E1].
  by rewrite terminateSession_keys, E1.
Qed.

Lemma map_get_keys_eq {V} k (a b : list (string * V)) :
  map_keys a = map_keys b → is_Some (map_get k a) ↔ is_Some (map_get k b).
Proof.
  intros E. rewrite <-!not_eq_None_Some, !map_get_None_keys, E. done.
Qed.

Lemma map_delete_set_absent {V} k (v : V) (a : list (string * V)) :
  map_get k a = None → map_delete k (map_set k v a) = a.
Proof.
  induction a as [|[k' v'] r IH]; simpl.
  - by rewrite String.eqb_refl.
  - destruct (String.eqb k k') eqn:E; simpl; [discriminate|].
    intros H. by rewrite E, IH.
Qed.

Lemma map_keys_delete {V} k (a : list (string * V)) :
  map_keys (map_delete k a) = List.filter (λ k', negb (String.eqb k k')) (map_keys a).
Proof.
  unfold map_keys. induction a as [|[k' v'] r IH]; simpl; [done|].
  destruct (String.eqb k k'); simpl; by rewrite IH.
Qed.

(** X2. [updateStats] adds to the counters of the addressed session and
    changes nothing else of it but the activity stamps; two calls add up; an
    unknown id gives [undefined] and no change. *)
Theorem X2_updateStats_accumulates id d inc m :
  (getSession id m = None → updateStats id d inc m = (None, m))
  ∧ (∀ s, getSession id m = Some s →
       ∃ s', fst (updateStats id d inc m) = Some s'
         ∧ getSession id (snd (updateStats id d inc m)) = Some s'
         ∧ SessionStats.totalTokens (Session.stats s')
           = SessionStats.totalTokens (Session.stats s) + d
         ∧ SessionStats.turnCount (Session.stats s')
           = SessionStats.turnCount (Session.stats s) + (if inc then 1 else 0)
         ∧ SessionStats.startTime (Session.stats s')
           = SessionStats.startTime (Session.stats s)
         ∧ Session.status s' = Session.status s
         ∧ Session.systemSent s' = Session.systemSent s
         ∧ Session.interrupted s' = Session.interrupted s
         ∧ Session.config s' = Session.config s
         ∧ Session.error s' = Session.error s
         ∧ Session.createdAt s' = Session.createdAt s
         ∧ ∀ d2 inc2, ∃ s2,
             fst (updateStats id d2 inc2 (snd (updateStats id d inc m))) = Some s2
             ∧ SessionStats.totalTokens (Session.stats s2)
               = SessionStats.totalTokens (Session.stats s) + d + d2)
  ∧ (∀ id', id' ≠ id →
       getSession id' (snd (updateStats id d inc m)) = getSession id' m).
Proof.
  unfold getSession. split; [|split].
  - intros H. unfold updateStats. by rewrite H.
  - intros s H.
    assert (∀ m0 s0 d0 i0, map_get id (sessions m0) = Some s0 →
              ∃ s1, fst (updateStats id d0 i0 m0) = Some s1
                ∧ map_get id (sessions (snd (updateStats id d0 i0 m0))) = Some s1
                ∧ SessionStats.totalTokens (Session.stats s1)
                  = SessionStats.totalTokens (Session.stats s0) + d0
                ∧ SessionStats.turnCount (Session.stats s1)
                  = SessionStats.turnCount (Session.stats s0) + (if i0 then 1 else 0)
                ∧ SessionStats.startTime (Session.stats s1)
                  = SessionStats.startTime (Session.stats s0)
                ∧ Session.status s1 = Session.status s0
                ∧ Session.systemSent s1 = Session.systemSent s0
                ∧ Session.interrupted s1 = Session.interrupted s0
                ∧ Session.config s1 = Session.config s0
                ∧ Session.error s1 = Session.error s0
                ∧ Session.createdAt s1 = Session.createdAt s0) as Hone.
    { intros m0 s0 d0 i0 H0. unfold updateStats, updateSession. rewrite H0. simpl.
      eexists. split; [reflexivity|]. rewrite map_get_set_eq.
      repeat split. simpl. destruct i0; lia. }
    destruct (Hone m s d inc H) as (s' & E1 & E2 & T & R).
    exists s'. split; [done|]. split; [done|]. split; [done|].
    repeat (split; [apply R|]).
    intros d2 inc2. destruct (Hone _ s' d2 inc2 E2) as (s2 & F1 & _ & T2 & _).
    exists s2. split; [done|]. lia.
  - intros id' Hne. unfold updateStats.
    destruct (map_get id (sessions m)); [|done].
    by apply (updateSession_other id id').
Qed.


(** *** Isolation *)

Lemma runOp_other_session op id id' m :
  opTarget op = Some id → id' ≠ id → getSession id' (runOp op m) = getSession id' m.
Proof.
  intros Ht Hne. assert (id ≠ id') as Hne' by congruence.
  destruct op; simpl in Ht; simplify_eq; simpl.
  - unfold createSession, getSession. simpl. by apply map_get_set_ne.
  - unfold startSession. by rewrite updateSession_other.
  - unfold markSystemSent. destruct (map_get id (sessions m)) as [s|]; [|done].
    destruct (negb _); [done|]. by rewrite updateSession_other.
  - unfold errorSession. cbn [dateNow fst snd]. rewrite updateSession_other by done.
    unfold getSession. cbn [sessions]. by rewrite cancelPendingOperations_sessions.
  - by apply terminateSession_other.
  - unfold deleteSession. rewrite cancelPendingOperations_sessions.
    destruct (map_get id (sessions m)); simpl.
    + unfold getSession. simpl. rewrite ?cancelPendingOperations_sessions.
      by apply map_get_delete_ne.
    + apply getSession_cancel.
  - unfold updateStats. destruct (map_get id (sessions m)); [|done].
    by rewrite updateSession_other.
  - unfold getSession. simpl. by rewrite cancelPendingOperations_sessions.
  - apply getSession_cancel.
Qed.

Lemma cancel_other_pending sid sid' m :
  sid ≠ sid' →
  map_get sid' (pendingOperations (cancelPendingOperations sid m))
  = map_get sid' (pendingOperations m).
Proof.
  intros Hne. unfold cancelPendingOperations.
  destruct (map_get sid (pendingOperations m)); [|done]. simpl.
  by apply map_get_delete_ne.
Qed.

Lemma runOp_other_pending op id id' m :
  opTarget op = Some id → id' ≠ id →
  map_get id' (pendingOperations (runOp op m)) = map_get id' (pendingOperations m).
Proof.
  intros Ht Hne. assert (id ≠ id') as Hne' by congruence.
  destruct op; simpl in Ht; simplify_eq; simpl.
  - done.
  - unfold startSession. by destruct (updateSession_frame id
      (SessionUpdates.mk None (Some running) (Some false) None None None None None) m)
      as (-> & _).
  - unfold markSystemSent. destruct (map_get id (sessions m)) as [s|]; [|done].
    destruct (negb _); [done|].
    by destruct (updateSession_frame id
      (SessionUpdates.mk None None (Some true) None None None None None) m) as (-> & _).
  - unfold errorSession. simpl.
    match goal with |- context [updateSession id ?u ?m0] =>
      destruct (updateSession_frame id u m0) as (-> & _) end.
    simpl. by apply cancel_other_pending.
  - unfold terminateSession.
    match goal with |- context [updateSession id ?u ?m0] =>
      destruct (updateSession_frame id u m0) as (-> & _) end.
    by apply cancel_other_pending.
  - unfold deleteSession.
    destruct (map_get id (sessions (cancelPendingOperations id m))); simpl;
      by apply cancel_other_pending.
  - unfold updateStats. destruct (map_get id (sessions m)); [|done].
    match goal with |- context [updateSession id ?u ?m0] =>
      by destruct (updateSession_frame id u m0) as (-> & _) end.
  - rewrite map_get_set_ne by done. by apply cancel_other_pending.
  - by apply cancel_other_pending.
Qed.

(** X3. An operation addressed to one session leaves the record and the
    pending operation of every other session as they are. *)
Theorem X3_operations_are_isolated op id id' m :
  opTarget op = Some id → id' ≠ id →
  getSession id' (runOp op m) = getSession id' m
  ∧ map_get id' (pendingOperations (runOp op m)) = map_get id' (pendingOperations m).
Proof.
  intros Ht Hne. split.
  - by apply (runOp_other_session op id).
  - by apply (runOp_other_pending op id).
Qed.

Lemma X3_witness :
  getSession "b" (runOp (OpTerminateSession "a")
                    (runOps [OpCreateSession "a" "A" minimalConfig;
                             OpCreateSession "b" "B" minimalConfig] (init tickClock)))
  = getSession "b" (runOps [OpCreateSession "a" "A" minimalConfig;
                            OpCreateSession "b" "B" minimalConfig] (init tickClock)).
Proof.
  apply (X3_operations_are_isolated (OpTerminateSession "a") "a" "b");
    [reflexivity|discriminate].
Defined.

(** *** The keys of the session map *)

Lemma runOp_keys op m :
  map_keys (sessions (runOp op m)) =
  match op with
  | OpCreateSession id _ _ =>
      match getSession id m with
      | Some _ => map_keys (sessions m)
      | None => map_keys (sessions m) ++ [id]
      end
  | OpDeleteSession id =>
      List.filter (λ k, negb (String.eqb id k)) (map_keys (sessions m))
  | _ => map_keys (sessions m)
  end.
Proof.
  destruct op; simpl.
  - unfold createSession, getSession. simpl.
    destruct (map_get id (sessions m)) as [s|] eqn:H.
    + by apply (map_keys_set_present id _ s).
    + by apply map_keys_set_absent.
  - apply updateSession_keys.
  - unfold markSystemSent. destruct (map_get id (sessions m)); [|done].
    destruct (negb _); [done|]. apply updateSession_keys.
  - unfold errorSession. simpl. rewrite updateSession_keys. simpl.
    by rewrite cancelPendingOperations_sessions.
  - apply terminateSession_keys.
  - apply cleanupLoop_keys.
  - unfold deleteSession. rewrite cancelPendingOperations_sessions.
    destruct (map_get id (sessions m)) eqn:H; simpl.
    + rewrite ?cancelPendingOperations_sessions. apply map_keys_delete.
    + rewrite ?cancelPendingOperations_sessions.
      apply map_get_None_keys in H. symmetry.
      induction (map_keys (sessions m)) as [|k r IH]; [done|]. simpl.
      apply not_elem_of_cons in H as [Hk Hr].
      destruct (String.eqb id k) eqn:E; [apply String.eqb_eq in E; congruence|].
      simpl. by rewrite IH.
  - unfold updateStats. destruct (map_get id (sessions m)); [|done].
    apply updateSession_keys.
  - by rewrite cancelPendingOperations_sessions.
  - by rewrite cancelPendingOperations_sessions.
Qed.

Lemma NoDup_filter_keys (f : string → bool) (l : list string) :
  NoDup l → NoDup (List.filter f l).
Proof.
  induction 1 as [|x l Hx Hl IH]; simpl; [constructor|].
  destruct (f x); [|done]. constructor; [|done].
  intros Hin. apply Hx. apply list_elem_of_In in Hin. apply filter_In in Hin as [Hin _].
  by apply list_elem_of_In.
Qed.

Lemma reachable_keys_NoDup m : reachable m → NoDup (map_keys (sessions m)).
Proof.
  induction 1 as [clk|op m _ IH]; [constructor|].
  rewrite runOp_keys. destruct op; try done.
  - destruct (getSession id m) eqn:H; [done|].
    apply NoDup_app. split; [done|]. split; [|apply NoDup_singleton].
    intros x Hx Hk. apply list_elem_of_singleton in Hk. subst x.
    by apply map_get_None_keys in H.
  - by apply NoDup_filter_keys.
Qed.

(** X4. The key list of the session map, which is the order of
    [getAllSessions]: [createSession] appends a new id and keeps the place of
    an id that exists, [deleteSession] removes the id, every other operation
    leaves the list as it is; the ids of a reachable manager are distinct. *)
Theorem X4_session_keys op m :
  map_keys (sessions (runOp op m)) =
  match op with
  | OpCreateSession id _ _ =>
      match getSession id m with
      | Some _ => map_keys (sessions m)
      | None => map_keys (sessions m) ++ [id]
      end
  | OpDeleteSession id =>
      List.filter (λ k, negb (String.eqb id k)) (map_keys (sessions m))
  | _ => map_keys (sessions m)
  end
  ∧ (reachable m → NoDup (map_keys (sessions m))
                   ∧ length (getAllSessions m) = length (map_keys (sessions m))).
Proof.
  split; [apply runOp_keys|]. intros Hr. split; [by apply reachable_keys_NoDup|].
  unfold getAllSessions, map_values, map_keys. by rewrite !length_map.
Qed.


(** *** Pending operations and their controllers *)

Lemma aborted_true c m : aborted c m = true ↔ controllers m !! c = Some true.
Proof.
  unfold aborted. destruct (controllers m !! c) as [[]|]; simpl; split; congruence.
Qed.

Lemma aborted_false_live c m : controllers m !! c = Some false → aborted c m = false.
Proof. unfold aborted. by intros ->. Qed.

Lemma pendingOk_frame m m' :
  pendingOperations m' = pendingOperations m → controllers m' = controllers m →
  pendingOk m → pendingOk m'.
Proof. unfold pendingOk. by intros -> ->. Qed.

Lemma cancel_pendingOk sid m : pendingOk m → pendingOk (cancelPendingOperations sid m).
Proof.
  intros [Hlive Hinj]. unfold cancelPendingOperations.
  destruct (map_get sid (pendingOperations m)) as [c|] eqn:H; [|done].
  split; simpl.
  - intros sid' c' H'. pose proof (map_get_delete_Some _ _ _ _ H') as H0.
    rewrite list_lookup_insert_ne; [by apply (Hlive sid')|].
    intros ->. assert (sid = sid') as -> by by apply (Hinj _ _ c').
    by rewrite map_get_delete_eq in H'.
  - intros sid1 sid2 c' H1 H2. apply map_get_delete_Some in H1, H2.
    by apply (Hinj _ _ c').
Qed.

Lemma cancel_aborts sid c m :
  pendingOk m → map_get sid (pendingOperations m) = Some c →
  aborted c (cancelPendingOperations sid m) = true
  ∧ map_get sid (pendingOperations (cancelPendingOperations sid m)) = None.
Proof.
  intros [Hlive _] H. unfold cancelPendingOperations. rewrite H. simpl. split.
  - apply aborted_true. simpl. apply list_lookup_insert_eq.
    apply lookup_lt_is_Some. rewrite (Hlive _ _ H). by eexists.
  - apply map_get_delete_eq.
Qed.

Lemma cancel_none sid m :
  map_get sid (pendingOperations (cancelPendingOperations sid m)) = None.
Proof.
  unfold cancelPendingOperations.
  destruct (map_get sid (pendingOperations m)) eqn:H; [|done]. apply map_get_delete_eq.
Qed.

Lemma cancel_keeps_live sid sid' c m :
  pendingOk m → sid ≠ sid' → map_get sid' (pendingOperations m) = Some c →
  map_get sid' (pendingOperations (cancelPendingOperations sid m)) = Some c
  ∧ controllers (cancelPendingOperations sid m) !! c = Some false.
Proof.
  intros Hok Hne H. split; [by rewrite cancel_other_pending|].
  apply (proj1 (cancel_pendingOk sid m Hok) sid'). by rewrite cancel_other_pending.
Qed.

Lemma register_pendingOk sid m : pendingOk m → pendingOk (snd (registerOperation sid m)).
Proof.
  intros Hok. apply (cancel_pendingOk sid) in Hok as [Hlive Hinj].
  unfold registerOperation. set (m1 := cancelPendingOperations sid m) in *.
  split; simpl.
  - intros sid' c'. rewrite map_get_set. destruct (String.eqb sid sid').
    + intros [= <-]. by rewrite lookup_app_r, Nat.sub_diag.
    + intros H. apply lookup_app_l_Some. by apply (Hlive sid').
  - assert (∀ s c', map_get s (pendingOperations m1) = Some c' →
              c' ≠ length (controllers m1)) as Hold.
    { intros s c' H ->. apply Hlive in H. apply lookup_lt_Some in H. lia. }
    intros sid1 sid2 c'. rewrite !map_get_set.
    destruct (String.eqb sid sid1) eqn:E1, (String.eqb sid sid2) eqn:E2.
    + apply String.eqb_eq in E1, E2. congruence.
    + intros [= <-] H. by apply Hold in H.
    + intros H [= <-]. by apply Hold in H.
    + apply Hinj.
Qed.

Lemma updateSession_pendingOk id u m : pendingOk m → pendingOk (snd (updateSession id u m)).
Proof.
  destruct (updateSession_frame id u m) as (E1 & E2 & _). by apply pendingOk_frame.
Qed.

Lemma terminateSession_pendingOk id m :
  pendingOk m → pendingOk (snd (terminateSession id m)).
Proof. intros H. unfold terminateSession. by apply updateSession_pendingOk, cancel_pendingOk. Qed.

Lemma cleanupLoop_pendingOk ids n m : pendingOk m → pendingOk (snd (cleanupLoop ids n m)).
Proof.
  revert n m. induction ids as [|id rest IH]; intros n m Hok; cbn [cleanupLoop]; [done|].
  destruct (map_get id (sessions m)) as [s|]; [|by apply IH].
  destruct (isZombieSession s m) as [z m1] eqn:Ez.
  assert (pendingOk m1) as Hok1.
  { pose proof (isZombieSession_frame s m) as (_ & H1 & H2 & _). rewrite Ez in H1, H2.
    by apply (pendingOk_frame m). }
  destruct z; apply IH; [|done]. by apply terminateSession_pendingOk.
Qed.

Lemma runOp_pendingEffect op m :
  op ≠ OpCleanupZombieSessions →
  pendingOperations (runOp op m) = pendingOperations (pendingEffect op m)
  ∧ controllers (runOp op m) = controllers (pendingEffect op m).
Proof.
  intros Hop. destruct op; simpl; try done.
  - unfold startSession.
    match goal with |- context [updateSession ?i ?u ?m0] =>
      by destruct (updateSession_frame i u m0) as (-> & -> & _) end.
  - unfold markSystemSent. destruct (map_get id (sessions m)); [|done].
    destruct (negb _); [done|].
    match goal with |- context [updateSession ?i ?u ?m0] =>
      by destruct (updateSession_frame i u m0) as (-> & -> & _) end.
  - unfold errorSession. simpl.
    match goal with |- context [updateSession ?i ?u ?m0] =>
      by destruct (updateSession_frame i u m0) as (-> & -> & _) end.
  - unfold terminateSession.
    match goal with |- context [updateSession ?i ?u ?m0] =>
      by destruct (updateSession_frame i u m0) as (-> & -> & _) end.
  - unfold deleteSession.
    by destruct (map_get id (sessions (cancelPendingOperations id m))).
  - unfold updateStats. destruct (map_get id (sessions m)); [|done].
    match goal with |- context [updateSession ?i ?u ?m0] =>
      by destruct (updateSession_frame i u m0) as (-> & -> & _) end.
Qed.

Lemma pendingEffect_pendingOk op m : pendingOk m → pendingOk (pendingEffect op m).
Proof.
  intros Hok. destruct op; simpl; try done; try by apply cancel_pendingOk.
  by apply register_pendingOk.
Qed.

Lemma runOp_pendingOk op m : pendingOk m → pendingOk (runOp op m).
Proof.
  intros Hok.
  assert (op = OpCleanupZombieSessions ∨ op ≠ OpCleanupZombieSessions) as [->|Hop]
    by (destruct op; (by left) || (by right)).
  - by apply cleanupLoop_pendingOk.
  - destruct (runOp_pendingEffect op m Hop) as [E1 E2].
    apply (pendingOk_frame (pendingEffect op m)); [done..|].
    by apply pendingEffect_pendingOk.
Qed.

Lemma reachable_pendingOk m : reachable m → pendingOk m.
Proof.
  induction 1 as [clk|op m _ IH]; [|by apply runOp_pendingOk].
  split; simpl; intros; discriminate.
Qed.


Lemma register_effect sid m :
  pendingOperations (snd (registerOperation sid m))
  = map_set sid (length (controllers (cancelPendingOperations sid m)))
      (pendingOperations (cancelPendingOperations sid m))
  ∧ controllers (snd (registerOperation sid m))
    = controllers (cancelPendingOperations sid m) ++ [false]
  ∧ fst (registerOperation sid m) = length (controllers (cancelPendingOperations sid m)).
Proof. done. Qed.

Lemma cancel_controllers_length sid m :
  length (controllers (cancelPendingOperations sid m)) = length (controllers m).
Proof.
  unfold cancelPendingOperations. destruct (map_get sid _); [|done].
  simpl. apply length_insert.
Qed.

(** X5. [deleteSession] reports whether the id was known, removes the
    record, and cancels the pending operation of the id whether or not the
    session exists; deleting a session just created under a new id restores
    the session map. *)
Theorem X5_deleteSession id m :
  fst (deleteSession id m) = (match getSession id m with Some _ => true | None => false end)
  ∧ getSession id (snd (deleteSession id m)) = None
  ∧ map_get id (pendingOperations (snd (deleteSession id m))) = None
  ∧ (∀ c, reachable m → map_get id (pendingOperations m) = Some c →
       aborted c (snd (deleteSession id m)) = true)
  ∧ (∀ name config, getSession id m = None →
       sessions (snd (deleteSession id (snd (createSession id name config m))))
       = sessions m).
Proof.
  unfold getSession. repeat split.
  - unfold deleteSession. rewrite cancelPendingOperations_sessions.
    by destruct (map_get id (sessions m)).
  - unfold deleteSession. rewrite cancelPendingOperations_sessions.
    destruct (map_get id (sessions m)) eqn:H; simpl.
    + apply map_get_delete_eq.
    + by rewrite cancelPendingOperations_sessions.
  - unfold deleteSession.
    destruct (map_get id (sessions (cancelPendingOperations id m))); simpl;
      apply cancel_none.
  - intros c Hr H. apply reachable_pendingOk in Hr.
    destruct (cancel_aborts id c m Hr H) as [Ha _].
    unfold deleteSession.
    by destruct (map_get id (sessions (cancelPendingOperations id m))).
  - intros name config H. unfold deleteSession.
    rewrite !cancelPendingOperations_sessions.
    unfold createSession. cbn [dateNow snd fst saveToStorage with_sessions sessions].
    rewrite map_get_set_eq. cbn [snd saveToStorage with_sessions sessions].
    rewrite ?cancelPendingOperations_sessions. cbn [sessions].
    by apply map_delete_set_absent.
Qed.

(** X6. In a reachable manager [registerOperation] hands out a controller
    that did not exist before, is not aborted and is the one registered for
    the session; the controller that was registered for the session before is
    aborted by the call. *)
Theorem X6_registerOperation_fresh sid m :
  reachable m →
  controllers m !! fst (registerOperation sid m) = None
  ∧ aborted (fst (registerOperation sid m)) (snd (registerOperation sid m)) = false
  ∧ map_get sid (pendingOperations (snd (registerOperation sid m)))
    = Some (fst (registerOperation sid m))
  ∧ (∀ c0, map_get sid (pendingOperations m) = Some c0 →
       c0 ≠ fst (registerOperation sid m)
       ∧ aborted c0 m = false
       ∧ aborted c0 (snd (registerOperation sid m)) = true).
Proof.
  intros Hr. apply reachable_pendingOk in Hr.
  destruct (register_effect sid m) as (Epo & Ec & Ef). rewrite Ef.
  split; [|split; [|split]].
  - apply lookup_ge_None. rewrite cancel_controllers_length. lia.
  - apply aborted_false_live. rewrite Ec. by rewrite lookup_app_r, Nat.sub_diag.
  - rewrite Epo. apply map_get_set_eq.
  - intros c0 H0. pose proof (proj1 Hr _ _ H0) as Hlive.
    destruct (cancel_aborts sid c0 m Hr H0) as [Ha _].
    split; [|split].
    + rewrite cancel_controllers_length. apply lookup_lt_Some in Hlive. lia.
    + by apply aborted_false_live.
    + apply aborted_true. rewrite Ec. apply lookup_app_l_Some. by apply aborted_true.
Qed.

Lemma X6_witness :
  aborted (fst (registerOperation "s" (init tickClock)))
    (snd (registerOperation "s" (init tickClock))) = false.
Proof.
  apply (X6_registerOperation_fresh "s" (init tickClock) (reachable_init tickClock)).
Defined.

(** *** Aborting is permanent *)

Lemma cancel_abort_mono sid c m :
  aborted c m = true → aborted c (cancelPendingOperations sid m) = true.
Proof.
  rewrite !aborted_true. unfold cancelPendingOperations.
  destruct (map_get sid (pendingOperations m)) as [c0|]; [|done]. simpl. intros H.
  destruct (decide (c0 = c)) as [->|Hne].
  - apply list_lookup_insert_eq. by apply lookup_lt_Some in H.
  - by rewrite list_lookup_insert_ne.
Qed.

Lemma aborted_frame c m m' : controllers m' = controllers m → aborted c m' = aborted c m.
Proof. unfold aborted. by intros ->. Qed.

Lemma cleanupLoop_abort_mono ids c : ∀ n m,
  aborted c m = true → aborted c (snd (cleanupLoop ids n m)) = true.
Proof.
  induction ids as [|id rest IH]; intros n m H; cbn [cleanupLoop]; [done|].
  destruct (map_get id (sessions m)) as [s|]; [|by apply IH].
  destruct (isZombieSession s m) as [z m1] eqn:Ez.
  assert (aborted c m1 = true) as H1.
  { pose proof (isZombieSession_frame s m) as (_ & _ & E & _). rewrite Ez in E.
    by rewrite (aborted_frame c m m1). }
  destruct z; apply IH; [|done]. unfold terminateSession.
  match goal with |- context [updateSession ?i ?u ?m0] =>
    destruct (updateSession_frame i u m0) as (_ & E & _) end.
  rewrite (aborted_frame _ _ _ E). by apply cancel_abort_mono.
Qed.

Lemma runOp_abort_mono op c m : aborted c m = true → aborted c (runOp op m) = true.
Proof.
  intros H.
  assert (op = OpCleanupZombieSessions ∨ op ≠ OpCleanupZombieSessions) as [->|Hop]
    by (destruct op; (by left) || (by right)).
  - by apply cleanupLoop_abort_mono.
  - destruct (runOp_pendingEffect op m Hop) as [_ E]. rewrite (aborted_frame _ _ _ E).
    destruct op; cbn [pendingEffect]; try done; try by apply cancel_abort_mono.
    apply aborted_true. destruct (register_effect sessionId m) as (_ & -> & _).
    apply lookup_app_l_Some. apply aborted_true. by apply cancel_abort_mono.
Qed.

(** X7. Aborting is permanent: a controller that is aborted stays aborted
    through every sequence of lifecycle operations. *)
Theorem X7_abort_is_permanent ops c m :
  aborted c m = true → aborted c (runOps ops m) = true.
Proof.
  unfold runOps. revert m. induction ops as [|op ops IH]; intros m H; simpl; [done|].
  apply IH. by apply runOp_abort_mono.
Qed.

Lemma X7_witness :
  aborted 0 (runOps [OpCreateSession "s" "S" minimalConfig; OpRegisterOperation "s"]
               (runOps [OpRegisterOperation "s"; OpCancelPendingOperations "s"]
                  (init tickClock))) = true.
Proof. apply X7_abort_is_permanent. reflexivity. Defined.

(** X8. In a reachable manager the controller registered for a session is
    not aborted, and after any one operation other than the zombie sweep it
    is aborted exactly when the operation is one that cancels the pending
    operation of that session ([errorSession], [terminateSession],
    [deleteSession], [registerOperation] or [cancelPendingOperations] on the
    same id); otherwise it is still the registered controller.
    [createSession] over the id, [startSession], [markSystemSent] and
    [updateStats] cancel nothing. *)
Theorem X8_controller_aborted_by_cancelling_operations id c m :
  reachable m → map_get id (pendingOperations m) = Some c →
  aborted c m = false
  ∧ ∀ op, op ≠ OpCleanupZombieSessions →
      aborted c (runOp op m) = cancels op id
      ∧ (cancels op id = false → map_get id (pendingOperations (runOp op m)) = Some c).
Proof.
  intros Hr H. apply reachable_pendingOk in Hr. pose proof (proj1 Hr _ _ H) as Hlive.
  split; [by apply aborted_false_live|]. intros op Hop.
  destruct (runOp_pendingEffect op m Hop) as [Epo Ec].
  rewrite (aborted_frame _ _ _ Ec), Epo.
  assert (∀ i, aborted c (cancelPendingOperations i m) = String.eqb i id
               ∧ (String.eqb i id = false →
                  map_get id (pendingOperations (cancelPendingOperations i m)) = Some c
                  ∧ controllers (cancelPendingOperations i m) !! c = Some false)) as Hc.
  { intros i. destruct (String.eqb i id) eqn:E.
    - apply String.eqb_eq in E. subst i. split; [|done]. by apply cancel_aborts.
    - assert (i ≠ id) as Hne by (intros ->; by rewrite String.eqb_refl in E).
      destruct (cancel_keeps_live i id c m Hr Hne H) as [K1 K2].
      split; [by apply aborted_false_live|done]. }
  destruct op; cbn [pendingEffect cancels]; try done;
    try (split; [by apply aborted_false_live|done]);
    try (destruct (Hc id0) as [K1 K2]; split; [done|]; intros E; by apply K2);
    try (destruct (Hc sessionId) as [K1 K2]; split; [done|]; intros E; by apply K2).
  (* registerOperation *)
  destruct (register_effect sessionId m) as (Fpo & Fc & _).
  destruct (Hc sessionId) as [K1 K2]. unfold aborted in *. rewrite Fc, Fpo.
  destruct (String.eqb sessionId id) eqn:E.
  - split; [|done]. destruct (controllers (cancelPendingOperations sessionId m) !! c)
      as [b|] eqn:L; [|done]. simpl in K1. subst b.
    by rewrite (lookup_app_l_Some _ _ _ _ L).
  - destruct (K2 eq_refl) as [K3 K4]. rewrite (lookup_app_l_Some _ _ _ _ K4).
    split; [done|]. intros _. rewrite map_get_set_ne; [done|].
    intros ->. by rewrite String.eqb_refl in E.
Qed.

Lemma X8_witness :
  aborted 0 (snd (registerOperation "s" (init tickClock))) = false.
Proof.
  apply (X8_controller_aborted_by_cancelling_operations "s" 0
           (runOp (OpRegisterOperation "s") (init tickClock))).
  - apply reachable_step, reachable_init.
  - reflexivity.
Defined.


(** A controller that is registered for a session is, after any operation
    or sequence of operations, still registered for it or aborted. *)
Lemma cancel_tracked i sid c m :
  pendingOk m → map_get sid (pendingOperations m) = Some c →
  aborted c (cancelPendingOperations i m) = true
  ∨ map_get sid (pendingOperations (cancelPendingOperations i m)) = Some c.
Proof.
  intros Hok H. destruct (String.eqb_spec i sid) as [->|Hne].
  - left. by apply cancel_aborts.
  - right. by rewrite cancel_other_pending.
Qed.

Lemma register_tracked i sid c m :
  pendingOk m → map_get sid (pendingOperations m) = Some c →
  aborted c (snd (registerOperation i m)) = true
  ∨ map_get sid (pendingOperations (snd (registerOperation i m))) = Some c.
Proof.
  intros Hok H. destruct (register_effect i m) as (Epo & Ec & _).
  destruct (String.eqb_spec i sid) as [->|Hne].
  - left. apply aborted_true. rewrite Ec. apply lookup_app_l_Some. apply aborted_true.
    by apply cancel_aborts.
  - right. rewrite Epo, map_get_set_ne by done. by rewrite cancel_other_pending.
Qed.

Lemma cleanupLoop_tracked ids sid c : ∀ n m,
  pendingOk m →
  aborted c m = true ∨ map_get sid (pendingOperations m) = Some c →
  aborted c (snd (cleanupLoop ids n m)) = true
  ∨ map_get sid (pendingOperations (snd (cleanupLoop ids n m))) = Some c.
Proof.
  induction ids as [|id rest IH]; intros n m Hok H; cbn [cleanupLoop]; [done|].
  destruct (map_get id (sessions m)) as [s|]; [|by apply IH].
  destruct (isZombieSession s m) as [z m1] eqn:Ez.
  pose proof (isZombieSession_frame s m) as (_ & E1 & E2 & _). rewrite Ez in E1, E2.
  cbn [snd] in E1, E2.
  assert (pendingOk m1) as Hok1 by by apply (pendingOk_frame m).
  assert (aborted c m1 = true ∨ map_get sid (pendingOperations m1) = Some c) as H1
    by (by rewrite (aborted_frame c m m1 E2), E1).
  destruct z; apply IH; try done; [by apply terminateSession_pendingOk|].
  unfold terminateSession.
  match goal with |- context [updateSession ?i ?u ?m0] =>
    destruct (updateSession_frame i u m0) as (-> & E & _) end.
  rewrite (aborted_frame _ _ _ E). destruct H1 as [H1|H1].
  - left. by apply cancel_abort_mono.
  - by apply cancel_tracked.
Qed.

Lemma runOp_tracked op sid c m :
  pendingOk m →
  aborted c m = true ∨ map_get sid (pendingOperations m) = Some c →
  aborted c (runOp op m) = true ∨ map_get sid (pendingOperations (runOp op m)) = Some c.
Proof.
  intros Hok [H|H]; [left; by apply runOp_abort_mono|].
  assert (op = OpCleanupZombieSessions ∨ op ≠ OpCleanupZombieSessions) as [->|Hop]
    by (destruct op; (by left) || (by right)).
  - apply cleanupLoop_tracked; auto.
  - destruct (runOp_pendingEffect op m Hop) as [-> E]. rewrite (aborted_frame _ _ _ E).
    destruct op; cbn [pendingEffect]; try (by right); try (by apply cancel_tracked).
    by apply register_tracked.
Qed.

(** *** Time stamps under a clock that does not run backwards *)

Lemma timesOk_later m m' s :
  monotone (clock m) → clock m' = clock m → (ticks m ≤ ticks m')%nat →
  timesOk m s → timesOk m' s.
Proof.
  intros Hmono Ec Ht (H1 & H2 & H3 & H4). repeat split; try done.
  rewrite Ec. etrans; [exact H4|]. by apply Hmono.
Qed.

Lemma allTimesOk_later m m' :
  monotone (clock m) → clock m' = clock m → (ticks m ≤ ticks m')%nat →
  sessions m' = sessions m → allTimesOk m → allTimesOk m'.
Proof.
  intros Hmono Ec Ht Es Hok id s H. apply (timesOk_later m); try done.
  apply (Hok id). unfold getSession in *. by rewrite <-Es.
Qed.

Lemma updateSession_allTimesOk id u m :
  monotone (clock m) →
  (∀ st, SessionUpdates.stats u = Some st →
     ∀ s, getSession id m = Some s →
       SessionStats.startTime st = SessionStats.startTime (Session.stats s)) →
  allTimesOk m → allTimesOk (snd (updateSession id u m)).
Proof.
  intros Hmono Hu Hok. unfold getSession in Hu.
  destruct (map_get id (sessions m)) as [s|] eqn:H;
    [|by rewrite (updateSession_None _ _ _ H)].
  intros id' s'. unfold getSession, updateSession. rewrite H.
  cbn [dateNow fst snd saveToStorage with_sessions sessions clock ticks].
  rewrite map_get_set. destruct (String.eqb id id') eqn:E.
  - intros [= <-]. destruct (Hok id s H) as (H1 & H2 & H3 & H4).
    unfold timesOk. cbn.
    assert (clock m (ticks m) ≤ clock m (S (ticks m))) by (apply Hmono; lia).
    assert (clock m (S (ticks m)) ≤ clock m (S (S (ticks m)))) by (apply Hmono; lia).
    repeat split; try lia.
    destruct (SessionUpdates.stats u) as [st|] eqn:Est; simpl; [|done].
    by rewrite (Hu st eq_refl s eq_refl).
  - intros H'. destruct (Hok id' s' H') as (H1 & H2 & H3 & H4).
    repeat split; try done. cbn. etrans; [exact H4|]. apply Hmono. lia.
Qed.

Lemma cancel_allTimesOk sid m : allTimesOk m → allTimesOk (cancelPendingOperations sid m).
Proof.
  intros Hok id s. rewrite getSession_cancel. intros H.
  destruct (cancelPendingOperations_frame sid m) as (_ & Ec & Et).
  unfold timesOk. rewrite Ec, Et. by apply (Hok id).
Qed.

Lemma cancel_clock sid m : clock (cancelPendingOperations sid m) = clock m.
Proof. apply cancelPendingOperations_frame. Qed.

Lemma terminateSession_allTimesOk id m :
  monotone (clock m) → allTimesOk m → allTimesOk (snd (terminateSession id m)).
Proof.
  intros Hmono Hok. unfold terminateSession. apply updateSession_allTimesOk.
  - by rewrite cancel_clock.
  - simpl. discriminate.
  - by apply cancel_allTimesOk.
Qed.

Lemma terminateSession_clock id m : clock (snd (terminateSession id m)) = clock m.
Proof.
  unfold terminateSession.
  match goal with |- context [updateSession ?i ?u ?m0] =>
    destruct (updateSession_frame i u m0) as (_ & _ & -> & _) end.
  apply cancel_clock.
Qed.

Lemma cleanupLoop_allTimesOk ids : ∀ n m,
  monotone (clock m) → allTimesOk m → allTimesOk (snd (cleanupLoop ids n m)).
Proof.
  induction ids as [|id rest IH]; intros n m Hmono Hok; cbn [cleanupLoop]; [done|].
  destruct (map_get id (sessions m)) as [s|]; [|by apply IH].
  destruct (isZombieSession s m) as [z m1] eqn:Ez.
  pose proof (isZombieSession_frame s m) as (E1 & _ & _ & E2 & E3). rewrite Ez in E1, E2, E3.
  simpl in E1, E2, E3.
  assert (allTimesOk m1) as Hok1.
  { apply (allTimesOk_later m); try done. lia. }
  assert (monotone (clock m1)) as Hmono1 by by rewrite E2.
  destruct z; apply IH; try done.
  - by rewrite terminateSession_clock.
  - by apply terminateSession_allTimesOk.
Qed.

Lemma runOp_clock op m : clock (runOp op m) = clock m.
Proof.
  destruct op; simpl; try done.
  - unfold startSession. apply updateSession_frame.
  - unfold markSystemSent. destruct (map_get id (sessions m)); [|done].
    destruct (negb _); [done|]. apply updateSession_frame.
  - unfold errorSession. simpl.
    match goal with |- context [updateSession ?i ?u ?m0] =>
      destruct (updateSession_frame i u m0) as (_ & _ & -> & _) end.
    simpl. apply cancel_clock.
  - apply terminateSession_clock.
  - unfold cleanupZombieSessions. generalize (map_keys (sessions m)) 0%nat.
    intros ids. revert m. induction ids as [|id rest IH]; intros m n; cbn [cleanupLoop];
      [done|].
    destruct (map_get id (sessions m)) as [s|]; [|by apply IH].
    destruct (isZombieSession s m) as [z m1] eqn:Ez.
    pose proof (isZombieSession_frame s m) as (_ & _ & _ & E2 & _). rewrite Ez in E2.
    simpl in E2. destruct z; rewrite IH; [|done]. by rewrite terminateSession_clock.
  - unfold deleteSession.
    destruct (map_get id (sessions (cancelPendingOperations id m))); simpl;
      apply cancel_clock.
  - unfold updateStats. destruct (map_get id (sessions m)); [|done].
    apply updateSession_frame.
  - apply cancel_clock.
  - apply cancel_clock.
Qed.

Lemma runOp_allTimesOk op m :
  monotone (clock m) → allTimesOk m → allTimesOk (runOp op m).
Proof.
  intros Hmono Hok. destruct op; simpl.
  - intros id' s'. unfold getSession, createSession.
    cbn [dateNow fst snd saveToStorage with_sessions sessions clock ticks].
    rewrite map_get_set. destruct (String.eqb id id').
    + intros [= <-]. unfold timesOk. cbn. repeat split; try lia. apply Hmono. lia.
    + intros H'. destruct (Hok id' s' H') as (H1 & H2 & H3 & H4).
      repeat split; try done. cbn. etrans; [exact H4|]. apply Hmono. lia.
  - apply updateSession_allTimesOk; [done| |done]. simpl. discriminate.
  - unfold markSystemSent. destruct (map_get id (sessions m)); [|done].
    destruct (negb _); [done|].
    apply updateSession_allTimesOk; [done| |done]. simpl. discriminate.
  - unfold errorSession. simpl.
    apply updateSession_allTimesOk.
    + simpl. by rewrite cancel_clock.
    + simpl. discriminate.
    + apply (allTimesOk_later (cancelPendingOperations id m)).
      * by rewrite cancel_clock.
      * done.
      * simpl. lia.
      * done.
      * by apply cancel_allTimesOk.
  - by apply terminateSession_allTimesOk.
  - by apply cleanupLoop_allTimesOk.
  - unfold deleteSession. pose proof (cancel_allTimesOk id m Hok) as Hok1.
    destruct (map_get id (sessions (cancelPendingOperations id m))); simpl; [|done].
    intros id' s'. unfold getSession. simpl. intros H'.
    apply map_get_delete_Some in H'. by apply (Hok1 id').
  - unfold updateStats. destruct (map_get id (sessions m)) as [s|] eqn:H; [|done].
    apply updateSession_allTimesOk; [done| |done]. simpl.
    intros st [= <-] s0. unfold getSession. rewrite H. by intros [= <-].
  - intros id' s'. unfold getSession. simpl. rewrite cancelPendingOperations_sessions.
    intros H'. destruct (cancelPendingOperations_frame sessionId m) as (_ & Ec & Et).
    unfold timesOk. simpl. rewrite Ec, Et. by apply (Hok id').
  - by apply cancel_allTimesOk.
Qed.

(** X9. When the clock does not run backwards, every session of a reachable
    manager has its stamps in order: created before updated before last
    active, the start time is the creation time, and the last activity is not
    later than the next reading of the clock, so the idle time that
    [isZombieSession] computes is never negative. *)
Theorem X9_time_stamps_in_order m :
  reachable m → monotone (clock m) →
  ∀ id s, getSession id m = Some s →
    Session.createdAt s ≤ Session.updatedAt s
    ∧ Session.updatedAt s ≤ SessionStats.lastActivityTime (Session.stats s)
    ∧ SessionStats.startTime (Session.stats s) = Session.createdAt s
    ∧ 0 ≤ fst (dateNow m) - SessionStats.lastActivityTime (Session.stats s).
Proof.
  intros Hr Hmono.
  assert (allTimesOk m) as Hok.
  { induction Hr as [clk|op m _ IH].
    - intros id s. unfold getSession. simpl. discriminate.
    - apply runOp_allTimesOk; rewrite runOp_clock in Hmono; [done|]. by apply IH. }
  intros id s H. destruct (Hok id s H) as (H1 & H2 & H3 & H4).
  repeat split; try done. simpl. lia.
Qed.

Lemma X9_witness :
  from_option
    (λ s, Session.createdAt s ≤ Session.updatedAt s
          ∧ Session.updatedAt s ≤ SessionStats.lastActivityTime (Session.stats s)
          ∧ SessionStats.startTime (Session.stats s) = Session.createdAt s
          ∧ 0 ≤ fst (dateNow (runOps [OpCreateSession "s" "S" minimalConfig;
                                      OpStartSession "s"] (init tickClock)))
                - SessionStats.lastActivityTime (Session.stats s))
    False
    (getSession "s" (runOps [OpCreateSession "s" "S" minimalConfig; OpStartSession "s"]
                       (init tickClock))).
Proof.
  pose proof (X9_time_stamps_in_order
                (runOps [OpCreateSession "s" "S" minimalConfig; OpStartSession "s"]
                   (init tickClock))
                (reachable_runOps _ _ (reachable_init tickClock))) as H.
  destruct (getSession "s" _) as [s|] eqn:E; simpl.
  - apply (H (λ i j Hij, ltac:(simpl; unfold tickClock; lia)) "s" s E).
  - vm_compute in E. discriminate E.
Defined.


(** *** The zombie sweep *)

Lemma terminateSession_known id m s :
  getSession id m = Some s →
  ∃ s', getSession id (snd (terminateSession id m)) = Some s'
    ∧ Session.status s' = terminated ∧ Session.systemSent s' = false
    ∧ Session.interrupted s' = true ∧ Session.config s' = Session.config s
    ∧ SessionStats.totalTokens (Session.stats s')
      = SessionStats.totalTokens (Session.stats s)
    ∧ SessionStats.turnCount (Session.stats s')
      = SessionStats.turnCount (Session.stats s)
    ∧ (ticks m ≤ ticks (snd (terminateSession id m)))%nat.
Proof.
  unfold getSession. intros H. unfold terminateSession, updateSession.
  rewrite cancelPendingOperations_sessions, H.
  cbn [dateNow fst snd saveToStorage with_sessions sessions ticks].
  rewrite map_get_set_eq. eexists. split; [reflexivity|]. simpl.
  destruct (cancelPendingOperations_frame id m) as (_ & _ & ->). repeat split. lia.
Qed.

Lemma terminateSession_ticks id m : (ticks m ≤ ticks (snd (terminateSession id m)))%nat.
Proof.
  unfold terminateSession.
  match goal with |- context [updateSession ?i ?u ?m0] =>
    destruct (updateSession_frame i u m0) as (_ & _ & _ & Ht) end.
  by destruct (cancelPendingOperations_frame id m) as (_ & _ & <-).
Qed.

Lemma isZombieSession_true s m :
  fst (isZombieSession s m) = true →
  Session.systemSent s = true ∧ Session.status s ≠ terminated ∧ Session.status s ≠ error
  ∧ timeoutOf s < clock m (ticks m) - SessionStats.lastActivityTime (Session.stats s).
Proof.
  unfold isZombieSession, timeoutOf. simpl. rewrite !andb_true_iff, !negb_true_iff.
  intros [[[H1 H2] H3] H4]. apply Z.ltb_lt in H4.
  repeat split; try done.
  - intros E. by rewrite E in H2.
  - intros E. by rewrite E in H3.
Qed.

Lemma statusIs_frame st id m m' :
  getSession id m' = getSession id m → statusIs st id m' = statusIs st id m.
Proof. unfold statusIs. by intros ->. Qed.

Lemma zombieSwept_later m m1 m' s s' :
  (ticks m ≤ ticks m1)%nat → clock m1 = clock m → zombieSwept m1 m' s s' →
  zombieSwept m m' s s'.
Proof.
  intros Ht Ec (H1 & H2 & H3 & (k & Hk & Hz) & R). repeat split; try done; try apply R.
  exists k. rewrite <-Ec. split; [lia|done].
Qed.

Lemma cleanupLoop_spec ids : ∀ n m,
  NoDup ids →
  (ticks m ≤ ticks (snd (cleanupLoop ids n m)))%nat
  ∧ clock (snd (cleanupLoop ids n m)) = clock m
  ∧ (∀ id, id ∉ ids → getSession id (snd (cleanupLoop ids n m)) = getSession id m)
  ∧ (∀ id s, getSession id m = Some s →
       ∃ s', getSession id (snd (cleanupLoop ids n m)) = Some s'
         ∧ (s' = s ∨ zombieSwept m (snd (cleanupLoop ids n m)) s s'))
  ∧ fst (cleanupLoop ids n m)
    = (n + length (List.filter
                     (λ id, statusIs terminated id (snd (cleanupLoop ids n m))
                            && negb (statusIs terminated id m)) ids))%nat.
Proof.
  induction ids as [|id rest IH]; intros n m Hnd; cbn [cleanupLoop].
  { simpl. split; [done|]. split; [done|]. split; [done|]. split; [|lia].
    intros id s H. exists s. split; [done|by left]. }
  apply NoDup_cons in Hnd as [Hid Hnd].
  destruct (map_get id (sessions m)) as [s|] eqn:Hs.
  2:{ destruct (IH n m Hnd) as (I1 & I2 & I3 & I4 & I5).
      split; [done|]. split; [done|]. split.
      { intros id' Hn. apply not_elem_of_cons in Hn as [_ Hn]. by apply I3. }
      split; [done|]. rewrite I5. cbn [List.filter].
      assert (statusIs terminated id (snd (cleanupLoop rest n m)) = false) as ->; [|done].
      unfold statusIs. rewrite (I3 id Hid). unfold getSession. by rewrite Hs. }
  destruct (isZombieSession s m) as [z m1] eqn:Ez.
  pose proof (isZombieSession_frame s m) as (E1 & _ & _ & E2 & E3).
  rewrite Ez in E1, E2, E3. simpl in E1, E2, E3.
  assert (∀ i, getSession i m1 = getSession i m) as Eg
    by (intros i; unfold getSession; by rewrite E1).
  destruct z.
  - (* a zombie: terminated *)
    pose proof (isZombieSession_true s m) as Hz. rewrite Ez in Hz.
    destruct (Hz eq_refl) as (Z1 & Z2 & Z3 & Z4).
    set (m2 := snd (terminateSession id m1)).
    assert (getSession id m1 = Some s) as Hs1 by (rewrite Eg; exact Hs).
    destruct (terminateSession_known id m1 s Hs1) as (s' & T1 & T2 & T3 & T4 & T5 & T6 & T7 & T8).
    fold m2 in T1, T8.
    assert (clock m2 = clock m) as Ec2 by (unfold m2; by rewrite terminateSession_clock).
    assert (∀ i, i ≠ id → getSession i m2 = getSession i m) as Eo.
    { intros i Hi. unfold m2. rewrite terminateSession_other by done. apply Eg. }
    destruct (IH (S n) m2 Hnd) as (I1 & I2 & I3 & I4 & I5).
    assert (getSession id (snd (cleanupLoop rest (S n) m2)) = Some s') as Hafter
      by (by rewrite (I3 id Hid)).
    split; [lia|]. split; [by rewrite I2|]. split.
    { intros id' Hn. apply not_elem_of_cons in Hn as [Hne Hn].
      rewrite (I3 id' Hn). by apply Eo. }
    split.
    { intros id' s0 H0. destruct (decide (id' = id)) as [->|Hne].
      - exists s'. split; [done|]. right.
        assert (s0 = s) as -> by (unfold getSession in H0; congruence).
        repeat split; try done. exists (ticks m). split; [lia|done].
      - rewrite <-(Eo id' Hne) in H0. destruct (I4 id' s0 H0) as (s1 & G1 & G2).
        exists s1. split; [done|]. destruct G2 as [->|G2]; [by left|right].
        apply (zombieSwept_later m m2); [lia|done|done]. }
    rewrite I5. cbn [List.filter].
    assert (statusIs terminated id (snd (cleanupLoop rest (S n) m2)) = true) as ->.
    { unfold statusIs. rewrite Hafter, T2. done. }
    assert (statusIs terminated id m = false) as ->.
    { unfold statusIs, getSession. rewrite Hs. by destruct (Session.status s). }
    cbn [andb negb length].
    rewrite (filter_ext_in
               (λ i, statusIs terminated i (snd (cleanupLoop rest (S n) m2))
                     && negb (statusIs terminated i m2))
               (λ i, statusIs terminated i (snd (cleanupLoop rest (S n) m2))
                     && negb (statusIs terminated i m))); [lia|].
    intros i Hi. rewrite (statusIs_frame terminated i m m2); [done|].
    apply Eo. intros ->. apply Hid. by apply list_elem_of_In.
  - (* no zombie: left alone *)
    destruct (IH n m1 Hnd) as (I1 & I2 & I3 & I4 & I5).
    split; [lia|]. split; [by rewrite I2|]. split.
    { intros id' Hn. apply not_elem_of_cons in Hn as [Hne Hn].
      rewrite (I3 id' Hn). apply Eg. }
    split.
    { intros id' s0 H0. rewrite <-Eg in H0. destruct (I4 id' s0 H0) as (s1 & G1 & G2).
      exists s1. split; [done|]. destruct G2 as [->|G2]; [by left|right].
      apply (zombieSwept_later m m1); [lia|done|done]. }
    rewrite I5. cbn [List.filter].
    rewrite (statusIs_frame terminated id m1 (snd (cleanupLoop rest n m1)) (I3 id Hid)).
    rewrite (statusIs_frame terminated id m m1 (Eg id)).
    rewrite andb_negb_r.
    rewrite (filter_ext_in
               (λ i, statusIs terminated i (snd (cleanupLoop rest n m1))
                     && negb (statusIs terminated i m1))
               (λ i, statusIs terminated i (snd (cleanupLoop rest n m1))
                     && negb (statusIs terminated i m))); [done|].
    intros i Hi. by rewrite (statusIs_frame terminated i m m1 (Eg i)).
Qed.

(** X10. The zombie sweep of a reachable manager neither adds nor removes
    a session; every record is either left as it is, or it was a running
    session with its flag set whose idle time exceeded its time-out at a
    reading of the clock made during the sweep, and it is now terminated,
    flag cleared, interrupted, with its config and counters kept.  The number
    returned is the number of sessions that the sweep terminated. *)
Theorem X10_cleanupZombieSessions m :
  reachable m →
  map_keys (sessions (snd (cleanupZombieSessions m))) = map_keys (sessions m)
  ∧ (∀ id s, getSession id m = Some s →
       ∃ s', getSession id (snd (cleanupZombieSessions m)) = Some s'
         ∧ (s' = s
            ∨ (Session.status s = running
               ∧ zombieSwept m (snd (cleanupZombieSessions m)) s s')))
  ∧ fst (cleanupZombieSessions m)
    = length (List.filter
                (λ id, statusIs terminated id (snd (cleanupZombieSessions m))
                       && negb (statusIs terminated id m))
                (map_keys (sessions m))).
Proof.
  intros Hr. pose proof (reachable_keys_NoDup m Hr) as Hnd.
  pose proof (reachable_managerOk m Hr) as Hok.
  unfold cleanupZombieSessions.
  destruct (cleanupLoop_spec (map_keys (sessions m)) 0 m Hnd) as (_ & _ & _ & I4 & I5).
  split; [apply cleanupLoop_keys|]. split; [|by rewrite I5].
  intros id s H. destruct (I4 id s H) as (s' & G1 & G2). exists s'. split; [done|].
  destruct G2 as [->|G2]; [by left|right]. split; [|done].
  apply (Hok id s H). apply G2.
Qed.

Lemma X10_witness :
  fst (cleanupZombieSessions
         (runOps [OpCreateSession "zombie-1" "Zombie"
                    (SessionConfig.mk "test-model" None None (Some 100) []);
                  OpStartSession "zombie-1"; OpMarkSystemSent "zombie-1"]
            (init jumpClock)))
  = 1%nat.
Proof.
  etrans.
  - apply (X10_cleanupZombieSessions
             (runOps [OpCreateSession "zombie-1" "Zombie"
                        (SessionConfig.mk "test-model" None None (Some 100) []);
                      OpStartSession "zombie-1"; OpMarkSystemSent "zombie-1"]
                (init jumpClock))).
    apply reachable_runOps, reachable_init.
  - reflexivity.
Defined.

End SessionManagerMore.

(** ** Error classifier: markers are substrings, in any letter case *)

Lemma append_nil (b : string) : "" +:+ b = b.
Proof. reflexivity. Qed.

Lemma append_cons (c : ascii) (a b : string) : String c a +:+ b = String c (a +:+ b).
Proof. reflexivity. Qed.

Lemma prefix_spec (n h : string) :
  String.prefix n h = true ↔ ∃ post, h = n +:+ post.
Proof.
  revert h. induction n as [|c n IH]; intros h.
  - split; [intros _; by exists h|]. intros _. by destruct h.
  - destruct h as [|c' h].
    + split; [done|]. by intros [post ?].
    + cbn [String.prefix]. setoid_rewrite append_cons.
      destruct (Ascii.ascii_dec c c') as [->|Hne].
      * rewrite IH. split; intros [post E]; exists post; congruence.
      * split; [done|]. intros [post E]. congruence.
Qed.

Lemma includes_spec (n h : string) :
  includes n h = true ↔ ∃ pre post, h = pre +:+ n +:+ post.
Proof.
  split.
  - induction h as [|c r IH]; cbn [includes]; rewrite orb_true_iff.
    + intros [H|H]; [|done]. apply prefix_spec in H as [post E]. by exists "", post.
    + intros [H|H].
      * apply prefix_spec in H as [post E]. by exists "", post.
      * destruct (IH H) as (pre & post & E). exists (String c pre), post.
        by rewrite append_cons, E.
  - intros (pre & post & ->). induction pre as [|c pre IH].
    + rewrite append_nil.
      assert (String.prefix n (n +:+ post) = true) as H
        by (apply prefix_spec; by exists post).
      destruct (n +:+ post); cbn [includes]; by rewrite H.
    + rewrite append_cons. cbn [includes]. rewrite IH. apply orb_true_r.
Qed.

Lemma toLowerCase_app (a b : string) :
  toLowerCase (a +:+ b) = toLowerCase a +:+ toLowerCase b.
Proof.
  induction a as [|c a IH]; [done|].
  rewrite append_cons. cbn [toLowerCase]. by rewrite append_cons, IH.
Qed.

(** X11. [isNetworkError] is [true] for an [Error] exactly when its
    message, in lower case, contains one of the seven markers as a substring;
    so a marker in any letter case, with any text around it, makes the error
    a network error, and a recoverable one, whatever its name and its status
    code. *)
Theorem X11_isNetworkError_markers (e : JsError) :
  (isNetworkError (ThrownError e) = true
   ↔ ∃ marker pre post, marker ∈ networkMarkers
       ∧ toLowerCase (err_message e) = pre +:+ marker +:+ post)
  ∧ (∀ name statusCode pre w post,
       toLowerCase w ∈ networkMarkers →
       isNetworkError (ThrownError (mkJsError name (pre +:+ w +:+ post) statusCode)) = true
       ∧ isRecoverableError
           (ThrownError (mkJsError name (pre +:+ w +:+ post) statusCode)) = true).
Proof.
  assert (∀ e0, isNetworkError (ThrownError e0) = true
                ↔ ∃ marker pre post, marker ∈ networkMarkers
                    ∧ toLowerCase (err_message e0) = pre +:+ marker +:+ post) as Hiff.
  { intros e0. unfold isNetworkError, networkMarkers.
    rewrite !orb_true_iff, !includes_spec. split.
    - intros H.
      repeat (destruct H as [H|H]);
        destruct H as (pre & post & E); eexists _, pre, post; (split; [|exact E]);
        rewrite !elem_of_cons; tauto.
    - intros (marker & pre & post & Hin & E).
      rewrite !elem_of_cons, elem_of_nil in Hin.
      repeat (destruct Hin as [->|Hin]); try done;
        [do 6 left|do 5 left; right|do 4 left; right|do 3 left; right
        |do 2 left; right|left; right|right]; by exists pre, post. }
  split; [apply Hiff|].
  intros name statusCode pre w post Hw.
  assert (isNetworkError (ThrownError (mkJsError name (pre +:+ w +:+ post) statusCode))
          = true) as Hn.
  { apply Hiff. exists (toLowerCase w), (toLowerCase pre), (toLowerCase post).
    split; [done|]. cbn [err_message]. by rewrite !toLowerCase_app. }
  split; [done|]. unfold isRecoverableError. by rewrite Hn.
Qed.

(** ** Loading from storage: unreadable records, and what is kept *)

Section LoadFromStorageMore.
Variable toNumberOther : jsval → option Z.
Variable clock : nat → Z.

Local Abbreviation zombieAt := (isZombieAt toNumberOther).
Local Abbreviation loop := (loadLoop toNumberOther clock).
Local Abbreviation load := (loadFromStorage toNumberOther clock).
Local Abbreviation kept := (keptEntries toNumberOther clock).

Lemma isZombieAt_None now s : zombieAt now s = None ↔ unreadable s = true.
Proof.
  unfold isZombieAt, unreadable, getProp.
  destruct s; simpl; try done;
    try (destruct (prop _ "config"); simpl; try done);
    try (destruct (prop _ "stats"); simpl; done).
  all: destruct (default JUndefined (map_get "config" props)); simpl; try done.
  all: destruct (default JUndefined (map_get "stats" props)); simpl; done.
Qed.

Lemma loadLoop_throws entries : ∀ sessions ticks,
  (∃ id s, (id, s) ∈ entries ∧ unreadable s = true) →
  loop entries sessions ticks = None.
Proof.
  induction entries as [|[id0 s0] rest IH]; intros sessions ticks (id & s & Hin & Hu).
  - by apply elem_of_nil in Hin.
  - cbn [loadLoop]. apply elem_of_cons in Hin as [[= <- <-]|Hin].
    + apply (isZombieAt_None (clock ticks)) in Hu. by rewrite Hu.
    + assert (∀ a t, loop rest a t = None) as Hrest
        by (intros a t; apply IH; by exists id, s).
      destruct (zombieAt (clock ticks) s0) as [[|]|]; [apply Hrest| |done].
      destruct (validateSession s0); apply Hrest.
Qed.

(** X12. Loading is all or nothing: one stored record that is [null], or
    that lacks [config] or [stats], makes [isZombieSession] throw before the
    record can be rejected, and the [catch] clause then clears the map, so
    that every session is lost, the valid ones that precede the record
    included. *)
Theorem X12_load_all_or_nothing stored entries :
  objectEntries stored = Some entries →
  (∃ id s, (id, s) ∈ entries ∧ unreadable s = true) →
  load (StorageReturns stored) = [].
Proof.
  intros He Hu. unfold loadFromStorage. rewrite He.
  by rewrite (loadLoop_throws entries [] 0%nat Hu).
Qed.

Lemma map_set_absent {V} k (v : V) (a : list (string * V)) :
  map_get k a = None → map_set k v a = a ++ [(k, v)].
Proof.
  induction a as [|[k' v'] r IH]; simpl; [done|].
  destruct (String.eqb k k'); [done|]. intros H. by rewrite IH.
Qed.

Lemma keptEntries_keys entries : ∀ ticks k,
  k ∈ map_keys (kept entries ticks) → k ∈ map_keys entries.
Proof.
  unfold map_keys.
  induction entries as [|[id0 s0] rest IH]; intros ticks k; cbn [keptEntries]; [done|].
  destruct (keeps _ _ _); simpl; rewrite ?elem_of_cons; intros H.
  - destruct H as [->|H]; [by left|right; by apply (IH (S ticks))].
  - right. by apply (IH (S ticks)).
Qed.

Lemma keptEntries_NoDup entries : ∀ ticks,
  NoDup (map_keys entries) → NoDup (map_keys (kept entries ticks)).
Proof.
  induction entries as [|[id0 s0] rest IH]; intros ticks Hnd; cbn [keptEntries];
    [constructor|].
  apply NoDup_cons in Hnd as [Hid Hnd].
  destruct (keeps _ _ _); [|by apply IH].
  unfold map_keys. simpl. apply NoDup_cons. split; [|by apply IH].
  intros Hin. apply Hid. by apply (keptEntries_keys rest (S ticks)).
Qed.

Lemma loadLoop_kept entries : ∀ sessions ticks,
  NoDup (map_keys entries) →
  (∀ k, k ∈ map_keys entries → map_get k sessions = None) →
  (∀ id s, (id, s) ∈ entries → unreadable s = false) →
  loop entries sessions ticks = Some (sessions ++ kept entries ticks).
Proof.
  induction entries as [|[id0 s0] rest IH]; intros sessions ticks Hnd Hfresh Hr;
    cbn [loadLoop keptEntries].
  { by rewrite app_nil_r. }
  apply NoDup_cons in Hnd as [Hid Hnd].
  assert (∀ id s, (id, s) ∈ rest → unreadable s = false) as Hr'
    by (intros id s Hin; apply (Hr id); by apply list_elem_of_further).
  assert (∀ k, k ∈ map_keys rest → map_get k sessions = None) as Hfresh'
    by (intros k Hk; apply Hfresh; by apply list_elem_of_further).
  unfold keeps.
  destruct (zombieAt (clock ticks) s0) as [[|]|] eqn:Ez.
  - by apply IH.
  - destruct (validateSession s0); [|by apply IH].
    rewrite (map_set_absent id0 s0 sessions) by (apply Hfresh; apply list_elem_of_here).
    rewrite IH; [by rewrite <-app_assoc|done| |done].
    intros k Hk. assert (k ≠ id0) as Hne by (intros ->; done).
    rewrite <-(map_set_absent id0 s0 sessions)
      by (apply Hfresh; apply list_elem_of_here).
    rewrite map_get_set_ne by done. by apply Hfresh'.
  - apply isZombieAt_None in Ez. by rewrite (Hr id0 s0 (list_elem_of_here _ _)) in Ez.
Qed.

Lemma keptEntries_elem entries : ∀ ticks id s,
  (id, s) ∈ kept entries ticks
  ↔ ∃ i, entries !! i = Some (id, s) ∧ keeps toNumberOther (clock (ticks + i)) s = true.
Proof.
  induction entries as [|[id0 s0] rest IH]; intros ticks id s; cbn [keptEntries].
  - split; [intros H; by apply elem_of_nil in H|]. by intros (i & H & _).
  - assert ((id, s) ∈ kept rest (S ticks)
            ↔ ∃ i, ((id0, s0) :: rest) !! S i = Some (id, s)
                   ∧ keeps toNumberOther (clock (ticks + S i)) s = true) as Hrest.
    { rewrite IH. split; intros (i & H1 & H2); exists i; split; try done.
      - by rewrite Nat.add_succ_r.
      - by rewrite Nat.add_succ_r in H2. }
    destruct (keeps toNumberOther (clock ticks) s0) eqn:Ek.
    + rewrite elem_of_cons, Hrest. split.
      * intros [[= -> ->]|(i & H)]; [|by exists (S i)].
        exists 0%nat. by rewrite Nat.add_0_r.
      * intros ([|i] & H1 & H2); [left|right; by exists i].
        simpl in H1. by injection H1 as <- <-.
    + rewrite Hrest. split.
      * intros (i & H). by exists (S i).
      * intros ([|i] & H1 & H2); [|by exists i]. simpl in H1. injection H1 as <- <-.
        rewrite Nat.add_0_r in H2. congruence.
Qed.

(** X13. When no stored record makes the check throw and the keys of the
    stored object are distinct, the loaded map is the list of the stored
    entries, in stored order, that are no zombie at the clock reading taken
    for them (the i-th entry is judged at the i-th reading) and that pass
    [validateSession]; every other entry is dropped. *)
Theorem X13_load_keeps_valid_entries stored entries :
  objectEntries stored = Some entries →
  NoDup (map_keys entries) →
  (∀ id s, (id, s) ∈ entries → unreadable s = false) →
  load (StorageReturns stored) = kept entries 0%nat
  ∧ NoDup (map_keys (load (StorageReturns stored)))
  ∧ ∀ id s,
      map_get id (load (StorageReturns stored)) = Some s
      ↔ ∃ i, entries !! i = Some (id, s)
             ∧ zombieAt (clock i) s = Some false ∧ validateSession s = true.
Proof.
  intros He Hnd Hr.
  assert (load (StorageReturns stored) = kept entries 0%nat) as E.
  { unfold loadFromStorage. rewrite He.
    by rewrite (loadLoop_kept entries [] 0%nat Hnd (λ k _, eq_refl) Hr). }
  pose proof (keptEntries_NoDup entries 0%nat Hnd) as Hnd'.
  rewrite E. split; [done|]. split; [done|].
  intros id s. split.
  - intros H. apply map_get_Some_elem in H. apply keptEntries_elem in H as (i & H1 & H2).
    exists i. split; [done|]. simpl in H2. unfold keeps in H2.
    destruct (zombieAt (clock i) s) as [[|]|]; try done.
  - intros (i & H1 & H2 & H3). apply map_get_elem; [done|].
    apply keptEntries_elem. exists i. split; [done|]. simpl. unfold keeps. by rewrite H2.
Qed.

End LoadFromStorageMore.

Lemma X12_witness :
  loadFromStorage (λ _, None) tickClock
    (StorageReturns (JObj [("a", storedSession "a" minimalConfig); ("b", JObj [])]))
  = [].
Proof.
  apply (X12_load_all_or_nothing (λ _, None) tickClock _
           [("a", storedSession "a" minimalConfig); ("b", JObj [])]); [reflexivity|].
  exists "b", (JObj []). split; [|reflexivity].
  apply list_elem_of_further, list_elem_of_here.
Defined.

Lemma X13_witness :
  loadFromStorage (λ _, None) tickClock (StorageReturns storedBlob)
  = [("a", storedSession "a" minimalConfig)].
Proof.
  etrans.
  - apply (X13_load_keeps_valid_entries (λ _, None) tickClock storedBlob
             [("a", storedSession "a" minimalConfig); ("b", storedSession "b" driftedConfig)]).
    + reflexivity.
    + unfold map_keys. simpl. apply NoDup_cons. split.
      * rewrite list_elem_of_singleton. discriminate.
      * apply NoDup_singleton.
    + intros id s Hin. apply elem_of_cons in Hin as [[= -> ->]|Hin]; [reflexivity|].
      apply list_elem_of_singleton in Hin. injection Hin as -> ->. reflexivity.
  - reflexivity.
Defined.

(** ** The stored form of a session, and what [validateSession] reads *)

Lemma objectKeys_configToJs (c : SessionConfig.t) :
  objectKeys (configToJs c) = SessionConfig.keys c.
Proof.
  destruct c as [mo sy to ti ex]. unfold configToJs, SessionConfig.keys. simpl.
  destruct sy, to, ti; reflexivity.
Qed.

Lemma validateSession_sessionToJs (s : Session.t) :
  validateSession (sessionToJs s) = keysAllowed (Session.config s).
Proof.
  unfold keysAllowed. rewrite <-objectKeys_configToJs.
  destruct s as [id name st ss intr c stats err ca ua].
  destruct c as [mo sy to ti ex]. unfold validateSession. simpl.
  by destruct (forallb _ _).
Qed.

(** X14. The stored form of a session passes [validateSession] exactly
    when all its config keys are on the allow-list, and [isZombieSession]
    does not throw on it.  So a session that [createSession] accepted with a
    config key outside the allow-list is kept and persisted, and its stored
    form is rejected by the schema check of the next load. *)
Theorem X14_stored_session_revalidated (s : Session.t) :
  validateSession (sessionToJs s) = keysAllowed (Session.config s)
  ∧ unreadable (sessionToJs s) = false
  ∧ ∀ id name config m,
      validateSession (sessionToJs (fst (SessionManager.createSession id name config m)))
      = keysAllowed config.
Proof.
  split; [apply validateSession_sessionToJs|]. split.
  - by destruct s.
  - intros id name config m. rewrite validateSession_sessionToJs.
    unfold keysAllowed, SessionManager.createSession, SessionConfig.keys. simpl.
    destruct config as [mo sy to ti ex]. simpl.
    rewrite !forallb_app. simpl. by destruct ti.
Qed.

Lemma validateSession_object v : validateSession v = true → ∃ props, v = JObj props.
Proof.
  unfold validateSession. destruct v; simpl; rewrite ?orb_true_r; try done. by eexists.
Qed.

(** X15. [validateSession] accepts plain objects only, and its verdict on
    an object depends on nothing but the types of [id], [name], [systemSent]
    and [interrupted], the [config], and whether [stats] is an object: two
    records that agree on these get the same verdict, so [status], [error],
    the time stamps and the contents of [stats] are not validated. *)
Theorem X15_validateSession_view props props' :
  validatedView (JObj props) = validatedView (JObj props') →
  validateSession (JObj props) = validateSession (JObj props')
  ∧ (∀ v, validateSession v = true → ∃ ps, v = JObj ps).
Proof.
  intros H. split; [|apply validateSession_object].
  unfold validatedView, prop in H. injection H as H1 H2 H3 H4 H5 H6 H7.
  unfold validateSession. cbv zeta. unfold prop. cbn [truthy typeof].
  by rewrite H1, H2, H3, H4, H5, H6, H7.
Qed.

Lemma X15_witness :
  validateSession
    (JObj [("id", JStr "a"); ("name", JStr "A"); ("systemSent", JBool true);
           ("interrupted", JBool false); ("config", JObj [("model", JStr "test-model")]);
           ("stats", JArr [])])
  = validateSession (storedSession "a" minimalConfig).
Proof. apply X15_validateSession_view. reflexivity. Defined.

(** ** SkillVerifier: registration, retries and the session manager *)

Section VerifierMore.
Import SkillVerifier.
Implicit Types (w : SkillVerifier.t).

(** X16. [verifySkill] on an id that is not registered resolves at once
    with a failure whose code is SKILL_NOT_FOUND and whose skill is a
    placeholder in status [failed]; it registers nothing, starts no
    verification, issues no [fetch], and does not touch the session it was
    given: the session is neither put into [error] nor are its pending
    operations cancelled. *)
Theorem X16_verifySkill_unknown_id k sid t w :
  getSkill k w = None →
  ∃ ref now,
    fst (verifySkill k sid t w)
    = Resolved (SkillVerificationResult.mk false (Some ref)
                  (Some (SkillError.mk "SKILL_NOT_FOUND"
                           ("Skill " +:+ k +:+ " is not registered") false now)))
    ∧ objects (snd (verifySkill k sid t w)) = objects w ++ [unknownSkill k]
    ∧ objects (snd (verifySkill k sid t w)) !! ref = Some (unknownSkill k)
    ∧ skills (snd (verifySkill k sid t w)) = skills w
    ∧ verificationPromises (snd (verifySkill k sid t w)) = verificationPromises w
    ∧ chains (snd (verifySkill k sid t w)) = chains w
    ∧ fetchLog (snd (verifySkill k sid t w)) = fetchLog w
    ∧ SessionManager.sessions (sessionManager (snd (verifySkill k sid t w)))
      = SessionManager.sessions (sessionManager w)
    ∧ SessionManager.pendingOperations (sessionManager (snd (verifySkill k sid t w)))
      = SessionManager.pendingOperations (sessionManager w)
    ∧ SessionManager.controllers (sessionManager (snd (verifySkill k sid t w)))
      = SessionManager.controllers (sessionManager w).
Proof.
  unfold getSkill. intros H. unfold verifySkill, lookupSkill. rewrite H.
  eexists _, _. split; [reflexivity|]. cbn.
  split; [done|]. split; [|done]. by rewrite lookup_app_r, Nat.sub_diag.
Qed.

Lemma X16_witness :
  SkillVerificationResult.success
    <$> outcomeResult (fst (verifySkill "non-existent" (Some "s") None verifierWithSkill))
          (snd (verifySkill "non-existent" (Some "s") None verifierWithSkill))
  = Some false.
Proof.
  destruct (X16_verifySkill_unknown_id "non-existent" (Some "s") None verifierWithSkill
              eq_refl) as (ref & now & -> & _).
  reflexivity.
Defined.

(** X17. [registerSkill] stores a new object, [unverified], with no error
    and a retry count of 0, under the id and returns it; an id that was
    registered keeps its place in the map and gets the new object, while the
    old object stays as it was, so a result obtained earlier still shows the
    old state; the other ids, the pending verification promises and the
    chains are untouched, so a verification in flight for the id is not
    cancelled. *)
Theorem X17_registerSkill id name displayName url w :
  lookupSkill id (snd (registerSkill id name displayName url w))
  = Some (fst (registerSkill id name displayName url w),
          Skill.mk id name displayName unverified url None None 0%nat)
  ∧ objects w !! fst (registerSkill id name displayName url w) = None
  ∧ (∀ r sk, objects w !! r = Some sk →
       objects (snd (registerSkill id name displayName url w)) !! r = Some sk)
  ∧ (∀ k, k ≠ id →
       getSkill k (snd (registerSkill id name displayName url w)) = getSkill k w)
  ∧ map_keys (skills (snd (registerSkill id name displayName url w)))
    = match getSkill id w with
      | Some _ => map_keys (skills w)
      | None => map_keys (skills w) ++ [id]
      end
  ∧ verificationPromises (snd (registerSkill id name displayName url w))
    = verificationPromises w
  ∧ chains (snd (registerSkill id name displayName url w)) = chains w
  ∧ fetchLog (snd (registerSkill id name displayName url w)) = fetchLog w.
Proof.
  unfold registerSkill, lookupSkill, getSkill. cbn.
  rewrite map_get_set_eq, lookup_app_r, Nat.sub_diag by done. cbn.
  split; [done|]. split; [by apply lookup_ge_None|].
  split; [intros r sk Hr; by apply lookup_app_l_Some|].
  split; [intros k Hne; apply map_get_set_ne; congruence|].
  split; [|done].
  destruct (map_get id (skills w)) as [r|] eqn:E.
  - by apply (map_keys_set_present id _ r).
  - by apply map_keys_set_absent.
Qed.

Lemma lookup_modifySkill k f w r sk :
  lookupSkill k w = Some (r, sk) →
  lookupSkill k (modifySkill k f w) = Some (r, f sk)
  ∧ (∀ r', r' ≠ r → objects (modifySkill k f w) !! r' = objects w !! r').
Proof.
  intros H. apply lookupSkill_Some in H as [Hk Hr].
  unfold modifySkill, lookupSkill. rewrite Hk. cbn. rewrite Hk.
  rewrite list_lookup_alter_eq, Hr. split; [done|].
  intros r' Hne. by rewrite list_lookup_alter_ne.
Qed.

(** X18. Administration of the status.  [disableSkill] sets [disabled]
    and clears the error, from any status; [enableSkill] acts on a
    [disabled] skill only and [resetSkill] on a [failed] skill only, and
    both then leave it [unverified] with no error and a retry count of 0,
    [lastVerified] and the URL kept; no other object is touched, and an id
    that is not registered is ignored.  Disabling and enabling again
    therefore leaves any skill, a verified one included, [unverified]. *)
Theorem X18_status_administration k w :
  (getSkill k w = None →
   disableSkill k w = w ∧ enableSkill k w = w ∧ resetSkill k w = w)
  ∧ ∀ r sk, lookupSkill k w = Some (r, sk) →
      lookupSkill k (disableSkill k w) = Some (r, Skill.setStatus disabled None sk)
      ∧ lookupSkill k (enableSkill k w)
        = Some (r, match Skill.status sk with disabled => Skill.reset sk | _ => sk end)
      ∧ lookupSkill k (resetSkill k w)
        = Some (r, match Skill.status sk with failed => Skill.reset sk | _ => sk end)
      ∧ lookupSkill k (enableSkill k (disableSkill k w))
        = Some (r, Skill.mk (Skill.id sk) (Skill.name sk) (Skill.displayName sk)
                     unverified (Skill.verificationUrl sk) (Skill.lastVerified sk)
                     None 0%nat)
      ∧ ∀ r', r' ≠ r →
          objects (disableSkill k w) !! r' = objects w !! r'
          ∧ objects (enableSkill k w) !! r' = objects w !! r'
          ∧ objects (resetSkill k w) !! r' = objects w !! r'.
Proof.
  split.
  - unfold getSkill. intros H.
    unfold disableSkill, enableSkill, resetSkill, updateSkillStatus, modifySkill,
      lookupSkill. by rewrite H.
  - intros r sk H.
    destruct (lookup_modifySkill k (Skill.setStatus disabled None) w r sk H) as [D1 D2].
    destruct (lookup_modifySkill k Skill.reset w r sk H) as [R1 R2].
    split; [exact D1|]. split; [|split; [|split]].
    + unfold enableSkill. rewrite H. by destruct (Skill.status sk).
    + unfold resetSkill. rewrite H. by destruct (Skill.status sk).
    + unfold enableSkill. unfold disableSkill, updateSkillStatus at 1. rewrite D1. cbn.
      destruct (lookup_modifySkill k Skill.reset _ r _ D1) as [E1 _].
      unfold disableSkill, updateSkillStatus. by rewrite E1.
    + intros r' Hne. split; [by apply D2|]. split.
      * unfold enableSkill. rewrite H. destruct (Skill.status sk); try done. by apply R2.
      * unfold resetSkill. rewrite H. destruct (Skill.status sk); try done. by apply R2.
Qed.


(** *** The shape of the steps of a chain *)

Lemma setChainState_withState p st w :
  setChainState p st w = with_chains (alter (withState st) p (chains w)) w.
Proof. reflexivity. Qed.

Lemma modifySkill_objects k f w :
  objects (modifySkill k f w)
  = match map_get k (skills w) with
    | Some r => alter f r (objects w)
    | None => objects w
    end.
Proof. unfold modifySkill. by destruct (map_get k (skills w)). Qed.

Lemma chainStep_sessionManager_free p k st F log w w' x :
  chainStep p k st F log w w' → chainStep p k st F log w (with_sessionManager x w').
Proof. done. Qed.

Ltac frames1 :=
  rewrite ?setChainState_skills, ?setChainState_verificationPromises,
    ?setChainState_fetchLog, ?setChainState_objects, ?setChainState_sessionManager,
    ?onSessionManager_skills, ?onSessionManager_verificationPromises,
    ?onSessionManager_chains, ?onSessionManager_fetchLog, ?onSessionManager_objects,
    ?updateSkillStatus_skills, ?updateSkillStatus_verificationPromises,
    ?updateSkillStatus_chains, ?updateSkillStatus_fetchLog,
    ?updateSkillStatus_sessionManager,
    ?modifySkill_skills, ?modifySkill_verificationPromises, ?modifySkill_chains,
    ?modifySkill_fetchLog, ?modifySkill_sessionManager,
    ?dateNow_skills, ?dateNow_verificationPromises, ?dateNow_chains, ?dateNow_fetchLog,
    ?dateNow_objects.

Ltac frames := repeat progress frames1.

Lemma updateSkillStatus_objects k st e w :
  objects (updateSkillStatus k st e w)
  = match map_get k (skills w) with
    | Some r => alter (Skill.setStatus st e) r (objects w)
    | None => objects w
    end.
Proof. apply modifySkill_objects. Qed.

(** The abort branch. *)
Lemma cancelPath_shape p c w :
  ∃ r, chainStep p (skillId c) (Settled r)
         (Skill.setStatus failed (SkillVerificationResult.error r)) (fetchLog w)
         w (cancelPath p c w)
    ∧ SkillVerificationResult.success r = false
    ∧ SkillError.code <$> SkillVerificationResult.error r = Some "VERIFICATION_CANCELLED"
    ∧ sessionManager (cancelPath p c w) = snd (SessionManager.dateNow (sessionManager w)).
Proof.
  exists (SkillVerificationResult.mk false (map_get (skillId c) (skills w))
            (Some (SkillError.mk "VERIFICATION_CANCELLED" "Skill verification was cancelled"
                     false (fst (dateNow w))))).
  split; [|split; [done|split; [done|]]].
  - unfold cancelPath, chainStep. cbv zeta. frames.
    rewrite setChainState_withState. cbn [chains with_chains]. frames.
    rewrite updateSkillStatus_objects. frames. by repeat split.
  - unfold cancelPath. cbv zeta. by frames.
Qed.

(** The code after the loop. *)
Lemma failPath_shape p c le w :
  ∃ r, chainStep p (skillId c) (Settled r) (Skill.setStatus failed le) (fetchLog w)
         w (failPath p c le w)
    ∧ SkillVerificationResult.success r = false
    ∧ SkillVerificationResult.error r = le.
Proof.
  exists (SkillVerificationResult.mk false (map_get (skillId c) (skills w)) le).
  split; [|done].
  unfold failPath, chainStep. cbv zeta.
  destruct (sessionId c) as [sid|], le as [e|]; frames;
    rewrite setChainState_withState; cbn [chains with_chains]; frames;
    rewrite updateSkillStatus_objects; by repeat split.
Qed.

Lemma alter_alter_objects (f g : Skill.t → Skill.t) r (o : list Skill.t) :
  alter g r (alter f r o) = alter (g ∘ f) r o.
Proof. apply list_alter_alter_eq. Qed.

(** The [response.ok] branch. *)
Lemma successPath_shape p c w :
  ∃ r F, chainStep p (skillId c) (Settled r) F (fetchLog w) w (successPath p c w)
    ∧ SkillVerificationResult.success r = true
    ∧ SkillVerificationResult.error r = None
    ∧ ∀ sk, Skill.status (F sk) = verified ∧ Skill.error (F sk) = None
            ∧ Skill.retryCount (F sk) = 0%nat
            ∧ Skill.lastVerified (F sk)
              = Some (SessionManager.clock (sessionManager w)
                        (SessionManager.ticks (sessionManager w))).
Proof.
  exists (SkillVerificationResult.mk true (map_get (skillId c) (skills w)) None),
    (Skill.setRetryCount 0
       ∘ Skill.setLastVerified
           (SessionManager.clock (sessionManager w) (SessionManager.ticks (sessionManager w)))
       ∘ Skill.setStatus verified None).
  split; [|done].
  unfold successPath, chainStep. cbv zeta.
  destruct (sessionId c) as [sid|]; frames;
    rewrite setChainState_withState; cbn [chains with_chains]; frames;
    rewrite !modifySkill_objects; frames; rewrite updateSkillStatus_objects;
    unfold dateNow; cbn [fst]; rewrite updateSkillStatus_sessionManager;
    cbn [SessionManager.dateNow fst];
    (repeat split; try done);
    destruct (map_get (skillId c) (skills w)); try done;
    by rewrite !alter_alter_objects.
Qed.


(** One turn of the loop: with the retry budget not spent, the chain is
    cancelled when its controller is aborted, and issues a [fetch]
    otherwise. *)
Lemma loopIteration_shape p c a le w :
  (a ≤ MAX_RETRIES)%nat →
  (chainAborted c w = true ∧ loopIteration p c a le w = cancelPath p c w)
  ∨ (chainAborted c w = false
     ∧ chainStep p (skillId c) (AwaitingFetch a le) (λ sk, sk)
         (fetchLog w ++ [mkFetchCall (url c) (timeout c) p]) w (loopIteration p c a le w)
     ∧ sessionManager (loopIteration p c a le w) = sessionManager w).
Proof.
  intros Ha. unfold loopIteration.
  destruct (Nat.leb_spec a MAX_RETRIES) as [_|?]; [|lia].
  destruct (chainAborted c w); [by left|right]. split; [done|]. split; [|done].
  unfold chainStep. rewrite setChainState_withState. cbn.
  repeat split. destruct (map_get (skillId c) (skills w)); [|done].
  symmetry. by apply list_alter_id.
Qed.

Lemma catchPath_shape p c a e w :
  (isAbort e = true ∧ catchPath p c a e w = cancelPath p c w)
  ∨ (isAbort e = false ∧ isRecoverableError (ThrownError e) = true ∧ (a < MAX_RETRIES)%nat
     ∧ chainStep p (skillId c)
         (Sleeping (S a) (Some (lastErrorOf e (fst (dateNow w)))) (calculateRetryDelay (S a)))
         (Skill.setRetryCount (S a)) (fetchLog w) w (catchPath p c a e w)
     ∧ sessionManager (catchPath p c a e w) = sessionManager (snd (dateNow w)))
  ∨ (isAbort e = false
     ∧ (isRecoverableError (ThrownError e) = false ∨ (MAX_RETRIES ≤ a)%nat)
     ∧ catchPath p c a e w
       = failPath p c (Some (lastErrorOf e (fst (dateNow w)))) (snd (dateNow w))).
Proof.
  unfold catchPath, isAbort. cbv zeta.
  destruct (_ || _); [by left|right].
  destruct (isRecoverableError (ThrownError e)); cbn [andb]; [|right; auto].
  destruct (Nat.ltb_spec a MAX_RETRIES); [left|right; auto].
  split; [done|]. split; [done|]. split; [done|]. split; [|by frames].
  unfold chainStep. frames. rewrite setChainState_withState. cbn [chains with_chains].
  frames. rewrite modifySkill_objects. by frames.
Qed.

(** *** The retry budget *)

Lemma fetchCount_app p l1 l2 :
  fetchCount p (l1 ++ l2) = (fetchCount p l1 + fetchCount p l2)%nat.
Proof. unfold fetchCount. by rewrite List.filter_app, length_app. Qed.

Lemma fetchCount_none p log :
  (∀ call, call ∈ log → fetchChain call ≠ p) → fetchCount p log = 0%nat.
Proof.
  unfold fetchCount. induction log as [|call r IH]; intros H; [done|]. simpl.
  destruct (Nat.eqb_spec (fetchChain call) p) as [E|_].
  - exfalso. by apply (H call); [apply list_elem_of_here|].
  - apply IH. intros c0 Hc. apply H. by apply list_elem_of_further.
Qed.

Lemma budgetOk_frame w w' :
  chains w' = chains w → fetchLog w' = fetchLog w → budgetOk w → budgetOk w'.
Proof. unfold budgetOk. by intros -> ->. Qed.

Lemma chainStep_budgetOk p k st F log w w' c :
  budgetOk w → chains w !! p = Some c → chainStep p k st F log w w' →
  (log = fetchLog w ∧ withinBudget (fetchCount p (fetchLog w)) st)
  ∨ (∃ u t a le, log = fetchLog w ++ [mkFetchCall u t p] ∧ st = AwaitingFetch a le
                 ∧ fetchCount p (fetchLog w) = a ∧ (a ≤ MAX_RETRIES)%nat) →
  budgetOk w'.
Proof.
  intros [B1 B2] Hp (_ & _ & Ec & El & _) Hlog. split.
  - rewrite Ec, El, length_alter. intros call Hin.
    destruct Hlog as [[-> _]|(u & t & a & le & -> & _)]; [by apply B1|].
    apply elem_of_app in Hin as [Hin|Hin]; [by apply B1|].
    apply list_elem_of_singleton in Hin. subst call. simpl. by apply lookup_lt_Some in Hp.
  - intros q c'. rewrite Ec, El. destruct (decide (q = p)) as [->|Hne].
    + rewrite list_lookup_alter_eq, Hp. intros [= <-]. simpl.
      destruct Hlog as [[-> H]|(u & t & a & le & -> & -> & Hn & Ha)]; [done|].
      rewrite fetchCount_app, Hn. simpl. unfold fetchCount. simpl.
      rewrite Nat.eqb_refl. simpl. split; [lia|done].
    + rewrite list_lookup_alter_ne by done. intros Hq.
      destruct Hlog as [[-> _]|(u & t & a & le & -> & _)]; [by apply B2|].
      rewrite fetchCount_app. unfold fetchCount at 2. simpl.
      destruct (Nat.eqb_spec p q) as [E|_]; [congruence|]. simpl.
      rewrite Nat.add_0_r. by apply B2.
Qed.

Lemma settle_budgetOk p k r F w w' c :
  budgetOk w → chains w !! p = Some c → inFlight (state c) = true →
  chainStep p k (Settled r) F (fetchLog w) w w' → budgetOk w'.
Proof.
  intros B Hp Hf Hs. apply (chainStep_budgetOk p k _ F _ w w' c B Hp Hs).
  left. split; [done|]. pose proof (proj2 B p c Hp) as Hb. simpl.
  destruct (state c); simpl in *; try done; unfold MAX_RETRIES in *; lia.
Qed.

Lemma cancelPath_budgetOk p c w :
  budgetOk w → chains w !! p = Some c → inFlight (state c) = true →
  budgetOk (cancelPath p c w).
Proof.
  intros B Hp Hf. destruct (cancelPath_shape p c w) as (r & Hs & _).
  by eapply settle_budgetOk.
Qed.

Lemma failPath_budgetOk p c le w w0 :
  budgetOk w0 → chains w0 !! p = Some c → inFlight (state c) = true →
  chains w = chains w0 → fetchLog w = fetchLog w0 →
  budgetOk (failPath p c le w).
Proof.
  intros B Hp Hf Ec El. destruct (failPath_shape p c le w) as (r & Hs & _).
  eapply (settle_budgetOk p (skillId c) r _ w _ c); [| |done|exact Hs].
  - by apply (budgetOk_frame w0).
  - by rewrite Ec.
Qed.

Lemma fetchResolved_budgetOk p ok status w : budgetOk w → budgetOk (fetchResolved p ok status w).
Proof.
  intros B. unfold fetchResolved. destruct (chains w !! p) as [c|] eqn:Hp; [|done].
  destruct (state c) as [a le| |] eqn:Hst; try done.
  assert (inFlight (state c) = true) as Hf by by rewrite Hst.
  pose proof (proj2 B p c Hp) as Hb. rewrite Hst in Hb. simpl in Hb. destruct Hb as [Hn Ha].
  destruct ok.
  - destruct (successPath_shape p c w) as (r & F & Hs & _). by eapply settle_budgetOk.
  - match goal with |- context [catchPath p c a ?e w] =>
      destruct (catchPath_shape p c a e w) as [[_ ->]|[(_ & _ & Hlt & Hs & _)|(_ & _ & ->)]] end.
    + by apply cancelPath_budgetOk.
    + eapply chainStep_budgetOk; [exact B|exact Hp|exact Hs|]. left. split; [done|].
      simpl. split; [done|]. split; [lia|done].
    + by apply (failPath_budgetOk p c _ _ w).
Qed.

Lemma fetchRejected_budgetOk p e w : budgetOk w → budgetOk (fetchRejected p e w).
Proof.
  intros B. unfold fetchRejected. destruct (chains w !! p) as [c|] eqn:Hp; [|done].
  destruct (state c) as [a le| |] eqn:Hst; try done.
  assert (inFlight (state c) = true) as Hf by by rewrite Hst.
  pose proof (proj2 B p c Hp) as Hb. rewrite Hst in Hb. simpl in Hb. destruct Hb as [Hn Ha].
  destruct (catchPath_shape p c a e w) as [[_ ->]|[(_ & _ & Hlt & Hs & _)|(_ & _ & ->)]].
  - by apply cancelPath_budgetOk.
  - eapply chainStep_budgetOk; [exact B|exact Hp|exact Hs|]. left. split; [done|].
    simpl. split; [done|]. split; [lia|done].
  - by apply (failPath_budgetOk p c _ _ w).
Qed.

Lemma timerFired_budgetOk p w : budgetOk w → budgetOk (timerFired p w).
Proof.
  intros B. unfold timerFired. destruct (chains w !! p) as [c|] eqn:Hp; [|done].
  destruct (state c) as [|a le d|] eqn:Hst; try done.
  assert (inFlight (state c) = true) as Hf by by rewrite Hst.
  pose proof (proj2 B p c Hp) as Hb. rewrite Hst in Hb. simpl in Hb.
  destruct Hb as (Hn & Ha & _).
  destruct (loopIteration_shape p c a le w) as [[_ ->]|(_ & Hs & _)]; [lia| |].
  - by apply cancelPath_budgetOk.
  - eapply chainStep_budgetOk; [exact B|exact Hp|exact Hs|]. right.
    eexists _, _, a, le. split; [done|]. split; [done|]. split; [done|lia].
Qed.

Lemma ownerResumes_budgetOk p w : budgetOk w → budgetOk (ownerResumes p w).
Proof.
  intros [B1 B2]. unfold ownerResumes. destruct (chains w !! p) as [c|] eqn:Hp; [|done].
  destruct (state c) eqn:Hst; try done. destruct (ownerWaiting c); [|done].
  split; cbn.
  - by rewrite length_alter.
  - intros q c'. destruct (decide (q = p)) as [->|Hne].
    + rewrite list_lookup_alter_eq, Hp. intros [= <-]. simpl. by apply (B2 p c).
    + rewrite list_lookup_alter_ne by done. apply B2.
Qed.


Lemma registerAbort_fst sid w w' :
  sessionManager w' = sessionManager w →
  fst (registerAbort sid w') = fst (registerAbort sid w)
  ∧ sessionManager (snd (registerAbort sid w')) = sessionManager (snd (registerAbort sid w)).
Proof. unfold registerAbort. intros E. destruct (bound sid); cbn; by rewrite ?E. Qed.

(** A [verifySkill] call that starts a verification: the new chain, its
    first [fetch], and the rest of the state. *)
Lemma verifySkill_start_shape k sid t w r sk u0 u :
  wfVerifier w →
  lookupSkill k w = Some (r, sk) →
  map_get k (verificationPromises w) = None →
  Skill.verificationUrl sk = Some (String u0 u) →
  ∃ w',
    verifySkill k sid t w = (Pending (length (chains w)), w')
    ∧ chains w'
      = chains w
        ++ [mkChain k (Skill.name sk) (String u0 u) (bound sid) (fst (registerAbort sid w))
              (default SKILL_VERIFICATION_TIMEOUT t) (AwaitingFetch 0 None) true]
    ∧ fetchLog w'
      = fetchLog w
        ++ [mkFetchCall (String u0 u) (default SKILL_VERIFICATION_TIMEOUT t)
              (length (chains w))]
    ∧ skills w' = skills w
    ∧ verificationPromises w' = map_set k (length (chains w)) (verificationPromises w)
    ∧ objects w' = alter (Skill.setStatus verifying None) r (objects w)
    ∧ sessionManager w' = sessionManager (snd (registerAbort sid w)).
Proof.
  intros Hwf Hl Hv Hu.
  apply lookupSkill_Some in Hl as Hl'. destruct Hl' as [Hg Ho].
  assert (Skill.id sk = k) as Hid.
  { destruct Hwf as (_ & W1 & _). destruct (W1 k r Hg) as (sk' & ? & ?). congruence. }
  unfold verifySkill. rewrite Hl, Hv, Hu. cbv zeta.
  unfold performVerification. cbv zeta. cbn [fst snd]. rewrite Hid.
  rewrite loopIteration_first
    by (eapply registerAbort_not_aborted; [reflexivity|reflexivity]).
  destruct (registerAbort_frame sid (updateSkillStatus k verifying None w))
    as (S & O & V & C & F).
  destruct (registerAbort_fst sid w (updateSkillStatus k verifying None w)
              (updateSkillStatus_sessionManager _ _ _ _)) as [A1 A2].
  eexists. split; [by rewrite C, updateSkillStatus_chains|].
  cbn [skills objects verificationPromises chains fetchLog sessionManager
       with_skills with_objects with_verificationPromises with_chains with_fetchLog
       setChainState fst snd skillId url timeout state ownerWaiting abortController].
  rewrite ?S, ?O, ?V, ?C, ?F, ?Hu, ?A1, ?A2. frames.
  rewrite updateSkillStatus_objects, Hg.
  repeat split; try done.
  rewrite <-(Nat.add_0_r (length (chains w))) at 1.
  by rewrite alter_app_r.
Qed.

Lemma start_budgetOk w w' c u t :
  budgetOk w → chains w' = chains w ++ [c] → state c = AwaitingFetch 0 None →
  fetchLog w' = fetchLog w ++ [mkFetchCall u t (length (chains w))] →
  budgetOk w'.
Proof.
  intros [B1 B2] Ec Hst El. split.
  - rewrite Ec, El, length_app. simpl. intros call Hin.
    apply elem_of_app in Hin as [Hin|Hin]; [apply B1 in Hin; lia|].
    apply list_elem_of_singleton in Hin. subst call. simpl. lia.
  - intros q c'. rewrite Ec, El, fetchCount_app. intros Hq.
    apply lookup_app_Some in Hq as [Hq|[Hge Hq]].
    + unfold fetchCount at 2. simpl.
      destruct (Nat.eqb_spec (length (chains w)) q) as [E|_].
      { apply lookup_lt_Some in Hq. lia. }
      simpl. rewrite Nat.add_0_r. by apply B2.
    + apply list_lookup_singleton_Some in Hq as [Hz ->].
      assert (q = length (chains w)) as -> by lia.
      rewrite (fetchCount_none (length (chains w)) (fetchLog w)).
      2:{ intros call Hin E. apply B1 in Hin. lia. }
      rewrite Hst. unfold fetchCount. simpl. rewrite Nat.eqb_refl. simpl.
      unfold MAX_RETRIES. lia.
Qed.

Lemma verifySkill_budgetOk k sid t w :
  wfVerifier w → budgetOk w → budgetOk (snd (verifySkill k sid t w)).
Proof.
  intros Hwf B.
  destruct (lookupSkill k w) as [[r sk]|] eqn:Hl.
  2:{ unfold verifySkill. rewrite Hl. by apply (budgetOk_frame w). }
  destruct (map_get k (verificationPromises w)) as [ep|] eqn:Hv.
  { unfold verifySkill. by rewrite Hl, Hv. }
  destruct (Skill.verificationUrl sk) as [[|u0 u]|] eqn:Hu.
  1, 3: unfold verifySkill; rewrite Hl, Hv, Hu; apply (budgetOk_frame w); [| |done];
    cbn [snd]; by frames.
  destruct (verifySkill_start_shape k sid t w r sk u0 u Hwf Hl Hv Hu)
    as (w' & -> & Ec & El & _).
  by eapply start_budgetOk.
Qed.

Lemma verifyEach_budgetOk ids sid t : ∀ w,
  wfVerifier w → budgetOk w → budgetOk (snd (verifyEach ids sid t w)).
Proof.
  induction ids as [|id rest IH]; intros w Hwf B; [done|]. cbn [verifyEach].
  pose proof (verifySkill_wfVerifier id sid t w Hwf) as H1.
  pose proof (verifySkill_budgetOk id sid t w Hwf B) as B1.
  destruct (verifySkill id sid t w) as [o w1]. cbn [snd] in H1, B1.
  specialize (IH w1 H1 B1). by destruct (verifyEach rest sid t w1).
Qed.

Lemma timeoutEach_frame refs : ∀ w,
  skills (snd (timeoutEach refs w)) = skills w
  ∧ verificationPromises (snd (timeoutEach refs w)) = verificationPromises w
  ∧ chains (snd (timeoutEach refs w)) = chains w
  ∧ fetchLog (snd (timeoutEach refs w)) = fetchLog w
  ∧ SessionManager.sessions (sessionManager (snd (timeoutEach refs w)))
    = SessionManager.sessions (sessionManager w)
  ∧ SessionManager.pendingOperations (sessionManager (snd (timeoutEach refs w)))
    = SessionManager.pendingOperations (sessionManager w)
  ∧ SessionManager.controllers (sessionManager (snd (timeoutEach refs w)))
    = SessionManager.controllers (sessionManager w).
Proof.
  induction refs as [|ref rest IH]; intros w; [done|]. cbn [timeoutEach]. cbv zeta.
  destruct (statusOf ref w) as [[]|].
  2:{ match goal with |- context [timeoutEach rest ?w'] =>
        specialize (IH w'); destruct (timeoutEach rest w') as [rs w3] end.
      cbn [snd] in *. destruct IH as (-> & -> & -> & -> & -> & -> & ->).
      by frames. }
  all: specialize (IH w); by destruct (timeoutEach rest w).
Qed.

Lemma adminStatus_frame k w :
  (chains (disableSkill k w) = chains w ∧ fetchLog (disableSkill k w) = fetchLog w)
  ∧ (chains (enableSkill k w) = chains w ∧ fetchLog (enableSkill k w) = fetchLog w)
  ∧ (chains (resetSkill k w) = chains w ∧ fetchLog (resetSkill k w) = fetchLog w).
Proof.
  unfold disableSkill, enableSkill, resetSkill.
  destruct (lookupSkill k w) as [[r sk]|]; [destruct (Skill.status sk)|]; by frames.
Qed.

Lemma runVerifierOp_budgetOk op w :
  wfVerifier w → budgetOk w → budgetOk (runVerifierOp op w).
Proof.
  intros Hwf B. destruct op; cbn [runVerifierOp].
  - by apply (budgetOk_frame w).
  - by apply verifySkill_budgetOk.
  - unfold verifyAllSkills. destruct (List.filter _ _) as [|r0 refs]; [done|].
    match goal with |- context [verifyEach ?ids ?s ?t w] =>
      pose proof (verifyEach_budgetOk ids s t w Hwf B) as H;
      by destruct (verifyEach ids s t w) end.
  - unfold verifyAllSkillsTimeout.
    destruct (timeoutEach_frame (scanned a) w) as (_ & _ & Ec & El & _).
    by apply (budgetOk_frame w).
  - apply (budgetOk_frame w); [apply adminStatus_frame..|done].
  - apply (budgetOk_frame w); [apply adminStatus_frame..|done].
  - apply (budgetOk_frame w); [apply adminStatus_frame..|done].
  - by apply fetchResolved_budgetOk.
  - by apply fetchRejected_budgetOk.
  - by apply timerFired_budgetOk.
  - by apply ownerResumes_budgetOk.
  - by apply (budgetOk_frame w).
Qed.

Lemma reachableVerifier_budgetOk w : reachableVerifier w → budgetOk w.
Proof.
  induction 1 as [clk|op w Hr IH].
  - split; [intros call H; by apply elem_of_nil in H|done].
  - apply runVerifierOp_budgetOk; [by apply reachableVerifier_wfVerifier|done].
Qed.

(** X19. The retry budget.  In every reachable verifier a chain has issued
    at most [MAX_RETRIES + 1] = 4 calls of [fetch]: while it awaits the
    response of attempt [a] it has issued [a + 1] calls, in the back-off
    sleep before attempt [a] it has issued [a] calls and sleeps for
    [calculateRetryDelay a], between 2 s and 8 s, and attempts are numbered 0
    to 3. *)
Theorem X19_retry_budget w :
  reachableVerifier w →
  (∀ p, (fetchCount p (fetchLog w) ≤ MAX_RETRIES + 1)%nat)
  ∧ ∀ p c, chains w !! p = Some c →
      withinBudget (fetchCount p (fetchLog w)) (state c)
      ∧ ∀ a le d, state c = Sleeping a le d → 2000 ≤ d ≤ 8000.
Proof.
  intros Hr. apply reachableVerifier_budgetOk in Hr as [B1 B2]. split.
  - intros p. destruct (chains w !! p) as [c|] eqn:Hp.
    + specialize (B2 p c Hp). destruct (state c); simpl in B2; unfold MAX_RETRIES in *; lia.
    + rewrite fetchCount_none; [lia|]. intros call Hin E. apply B1 in Hin.
      apply lookup_ge_None in Hp. lia.
  - intros p c Hp. split; [by apply B2|]. intros a le d Hst.
    specialize (B2 p c Hp). rewrite Hst in B2. simpl in B2. destruct B2 as (_ & Ha & ->).
    unfold MAX_RETRIES in Ha.
    assert (a = 1 ∨ a = 2 ∨ a = 3)%nat as [-> | [-> | ->]] by lia; by vm_compute.
Qed.

Lemma X19_witness :
  (fetchCount 0 (fetchLog verifierSleeping) ≤ MAX_RETRIES + 1)%nat.
Proof.
  apply X19_retry_budget. apply reachableVerifier_runVerifierOps.
  apply reachableVerifier_runVerifierOps. apply reachableVerifier_init.
Defined.


(** *** A response that is not OK *)

Lemma allChars_app f a b : allChars f (a +:+ b) = allChars f a && allChars f b.
Proof.
  induction a as [|c a IH]; [done|]. rewrite append_cons. cbn [allChars].
  by rewrite IH, andb_assoc.
Qed.

Lemma pretty_N_char_digit x : digitOrDash (pretty_N_char x) = true.
Proof. unfold pretty_N_char. by repeat case_match. Qed.

Lemma pretty_N_go_digits x : ∀ s,
  allChars digitOrDash s = true → allChars digitOrDash (pretty_N_go x s) = true.
Proof.
  induction (N.lt_wf_0 x) as [x _ IH]. intros s Hs.
  destruct (decide (x = 0)%N) as [->|Hx]; [by rewrite pretty_N_go_0|].
  rewrite pretty_N_go_step by lia. apply IH.
  - apply N.div_lt; lia.
  - cbn [allChars]. by rewrite pretty_N_char_digit, Hs.
Qed.

Lemma pretty_Z_digits (z : Z) : allChars digitOrDash (pretty z) = true.
Proof.
  assert (∀ x : positive, allChars digitOrDash (pretty x) = true) as Hpos.
  { intros x. unfold pretty, pretty_positive, pretty, pretty_N.
    destruct (decide _); [done|]. by apply pretty_N_go_digits. }
  destruct z as [|x|x]; [done|apply Hpos|].
  unfold pretty, pretty_Z. rewrite allChars_app. by rewrite Hpos.
Qed.

(** A needle none of whose characters occurs in [b] is found in [a +:+ b]
    exactly when it is found in [a]. *)
Lemma prefix_alien f needle b : ∀ a,
  allChars f b = true → allChars (λ c, negb (f c)) needle = true →
  String.prefix needle (a +:+ b) = String.prefix needle a.
Proof.
  induction needle as [|n0 ns IH]; intros a Hb Hn.
  - rewrite append_nil || idtac. by destruct a, b.
  - cbn [allChars] in Hn. apply andb_true_iff in Hn as [Hn0 Hns].
    destruct a as [|c a].
    + rewrite append_nil. destruct b as [|c b]; [done|]. cbn [String.prefix allChars] in *.
      apply andb_true_iff in Hb as [Hc _].
      destruct (Ascii.ascii_dec n0 c) as [->|_]; [|done].
      by rewrite Hc in Hn0.
    + rewrite append_cons. cbn [String.prefix].
      destruct (Ascii.ascii_dec n0 c); [|done]. by apply IH.
Qed.

Lemma includes_alien f needle b :
  allChars f b = true → allChars (λ c, negb (f c)) needle = true → needle ≠ "" →
  ∀ a, includes needle (a +:+ b) = includes needle a.
Proof.
  intros Hb Hn Hne.
  assert (includes needle b = false) as Hb0.
  { destruct needle as [|n0 ns]; [by destruct Hne|].
    cbn [allChars] in Hn. apply andb_true_iff in Hn as [Hn0 _].
    induction b as [|c b IH]; [done|]. cbn [allChars] in Hb.
    apply andb_true_iff in Hb as [Hc Hb]. cbn [includes String.prefix].
    rewrite (IH Hb). destruct (Ascii.ascii_dec n0 c) as [->|_]; [|done].
    by rewrite Hc in Hn0. }
  induction a as [|c a IH].
  - rewrite append_nil, Hb0. destruct needle; [by destruct Hne|reflexivity].
  - rewrite append_cons. cbn [includes]. rewrite IH.
    rewrite <-append_cons. by rewrite (prefix_alien f needle b (String c a)).
Qed.

Lemma toLowerCase_digits s : allChars digitOrDash s = true → toLowerCase s = s.
Proof.
  induction s as [|c s IH]; [done|]. cbn [allChars toLowerCase]. intros H.
  apply andb_true_iff in H as [Hc Hs]. rewrite (IH Hs). f_equal.
  unfold lower_ascii, digitOrDash in *.
  destruct (Nat.leb 65 (nat_of_ascii c) && Nat.leb (nat_of_ascii c) 90) eqn:E; [|done].
  exfalso. apply andb_true_iff in E as [E1 E2].
  apply Nat.leb_le in E1, E2. apply orb_true_iff in Hc as [Hc|Hc].
  - apply andb_true_iff in Hc as [_ Hc]. apply Nat.leb_le in Hc. lia.
  - apply Nat.eqb_eq in Hc. lia.
Qed.

(** The error thrown for a response that is not OK is never classified as
    recoverable, nor as an abort, nor as a network error. *)
Lemma notOk_not_recoverable (status : Z) :
  isNetworkError (ThrownError (newError (notOkMessage status))) = false
  ∧ isRecoverableError (ThrownError (newError (notOkMessage status))) = false
  ∧ isAbort (newError (notOkMessage status)) = false
  ∧ String.eqb (notOkMessage status) "" = false.
Proof.
  pose proof (pretty_Z_digits status) as Hd.
  assert (isNetworkError (ThrownError (newError (notOkMessage status))) = false) as Hn.
  { unfold isNetworkError, newError, notOkMessage. cbn [err_message].
    rewrite toLowerCase_app, (toLowerCase_digits _ Hd).
    rewrite !(includes_alien digitOrDash _ (pretty status)); done. }
  split; [done|]. split; [|split].
  - unfold isRecoverableError. rewrite Hn. unfold newError, notOkMessage.
    cbn [err_statusCode err_message].
    rewrite (includes_alien digitOrDash _ (pretty status)); done.
  - unfold isAbort, newError, notOkMessage. cbn [err_name err_message].
    destruct (String.eqb_spec ("Verification failed with status " +:+ pretty status)
                "Operation cancelled") as [E|_]; [|done].
    apply (f_equal (λ s, String.get 0 s)) in E. discriminate E.
  - unfold notOkMessage.
    destruct (String.eqb_spec ("Verification failed with status " +:+ pretty status) "")
      as [E|_]; [|done].
    discriminate E.
Qed.


Lemma lookupSkill_chainStep p k st F log w w' r sk :
  chainStep p k st F log w w' → lookupSkill k w = Some (r, sk) →
  lookupSkill k w' = Some (r, F sk).
Proof.
  intros (Es & _ & _ & _ & Eo) H. apply lookupSkill_Some in H as [Hk Hr].
  apply lookupSkill_Some. rewrite Es, Eo, Hk. split; [done|].
  by rewrite list_lookup_alter_eq, Hr.
Qed.

Lemma chainStep_chain p k st F log w w' c :
  chainStep p k st F log w w' → chains w !! p = Some c →
  chains w' !! p = Some (withState st c).
Proof. intros (_ & _ & -> & _) H. by rewrite list_lookup_alter_eq, H. Qed.

Lemma lookupSkill_tick k w : lookupSkill k (snd (dateNow w)) = lookupSkill k w.
Proof. done. Qed.

(** X20. A response that is not OK ends the verification at once, whatever
    its status: the error thrown for it has no status code and its message
    has no connectivity marker and no rate-limit signal, so that it is not
    recoverable and no retry is made; the chain settles with the failure
    VERIFICATION_ERROR, no further [fetch] is issued, and the registered
    skill is [failed] with that error. *)
Theorem X20_not_ok_response_is_final p c a le status w :
  chains w !! p = Some c → state c = AwaitingFetch a le →
  isRecoverableError (ThrownError (newError (notOkMessage status))) = false
  ∧ ∃ r,
      chains (fetchResolved p false status w) !! p = Some (withState (Settled r) c)
      ∧ SkillVerificationResult.success r = false
      ∧ SkillVerificationResult.error r
        = Some (SkillError.mk "VERIFICATION_ERROR" (notOkMessage status) false
                  (fst (dateNow w)))
      ∧ fetchLog (fetchResolved p false status w) = fetchLog w
      ∧ ∀ r0 sk, lookupSkill (skillId c) w = Some (r0, sk) →
          lookupSkill (skillId c) (fetchResolved p false status w)
          = Some (r0, Skill.setStatus failed
                        (Some (SkillError.mk "VERIFICATION_ERROR" (notOkMessage status)
                                 false (fst (dateNow w)))) sk).
Proof.
  intros Hp Hst. destruct (notOk_not_recoverable status) as (Hn & Hr & Ha & He).
  split; [done|]. unfold fetchResolved. rewrite Hp, Hst.
  change (String.append "Verification failed with status " (pretty status))
    with (notOkMessage status).
  destruct (catchPath_shape p c a (newError (notOkMessage status)) w)
    as [[Ha' _]|[(_ & Hr' & _)|(_ & _ & ->)]]; [congruence..|].
  assert (lastErrorOf (newError (notOkMessage status)) (fst (dateNow w))
          = SkillError.mk "VERIFICATION_ERROR" (notOkMessage status) false (fst (dateNow w)))
    as ->.
  { unfold lastErrorOf. rewrite Hn. cbn [err_message newError]. by rewrite He. }
  destruct (failPath_shape p c
              (Some (SkillError.mk "VERIFICATION_ERROR" (notOkMessage status) false
                       (fst (dateNow w)))) (snd (dateNow w))) as (r & Hs & R1 & R2).
  exists r. split; [by apply (chainStep_chain _ _ _ _ _ _ _ c Hs)|].
  split; [done|]. split; [done|]. split; [apply Hs|].
  intros r0 sk Hl. by apply (lookupSkill_chainStep _ _ _ _ _ _ _ r0 sk Hs).
Qed.

Lemma X20_witness :
  fetchLog (fetchResolved 0 false 503 (snd (verifySkill "x" (Some "s") None verifierWithSkill)))
  = fetchLog (snd (verifySkill "x" (Some "s") None verifierWithSkill)).
Proof.
  destruct (X20_not_ok_response_is_final 0
              (mkChain "x" "x" "https://example.com/verify" (Some "s") (Some 0%nat)
                 SKILL_VERIFICATION_TIMEOUT (AwaitingFetch 0 None) true)
              0 None 503 (snd (verifySkill "x" (Some "s") None verifierWithSkill))
              eq_refl eq_refl) as (_ & r & _ & _ & _ & H & _).
  exact H.
Defined.

(** *** The session manager under the verifier *)

Lemma smSteps_trans m1 m2 m3 : smSteps m1 m2 → smSteps m2 m3 → smSteps m1 m3.
Proof.
  intros H12 H23. induction H23; [done|apply smSteps_op; auto|apply smSteps_tick; auto].
Qed.

Lemma smSteps_one_op m op : smSteps m (runOp op m).
Proof. apply smSteps_op, smSteps_refl. Qed.

Lemma smSteps_one_tick m : smSteps m (snd (SessionManager.dateNow m)).
Proof. apply smSteps_tick, smSteps_refl. Qed.

Lemma failPath_sessionManager p c le w :
  sessionManager (failPath p c le w)
  = match sessionId c, le with
    | Some sid, Some e => reportFailure c sid e (sessionManager w)
    | _, _ => sessionManager w
    end.
Proof.
  unfold failPath. cbv zeta. frames.
  destruct (sessionId c), le; cbn [onSessionManager with_sessionManager sessionManager];
    by frames.
Qed.

Lemma successPath_sessionManager p c w :
  sessionManager (successPath p c w)
  = match sessionId c with
    | Some sid =>
        snd (SessionManager.markSystemSent sid
               (snd (SessionManager.dateNow (sessionManager w))))
    | None => snd (SessionManager.dateNow (sessionManager w))
    end.
Proof.
  unfold successPath. cbv zeta. frames.
  destruct (sessionId c); cbn [onSessionManager with_sessionManager sessionManager];
    frames; cbn [dateNow snd with_sessionManager sessionManager]; by frames.
Qed.

Lemma cancelPath_smSteps p c w : smSteps (sessionManager w) (sessionManager (cancelPath p c w)).
Proof.
  destruct (cancelPath_shape p c w) as (r & _ & _ & _ & ->). apply smSteps_one_tick.
Qed.

Lemma failPath_smSteps p c le w : smSteps (sessionManager w) (sessionManager (failPath p c le w)).
Proof.
  rewrite failPath_sessionManager. destruct (sessionId c) as [sid|], le as [e|];
    try apply smSteps_refl.
  unfold reportFailure.
  match goal with |- smSteps ?m (snd (SessionManager.errorSession ?i ?x ?m)) =>
    apply (smSteps_one_op m (OpErrorSession i x)) end.
Qed.

Lemma successPath_smSteps p c w :
  smSteps (sessionManager w) (sessionManager (successPath p c w)).
Proof.
  rewrite successPath_sessionManager. destruct (sessionId c) as [sid|].
  - apply (smSteps_op _ _ (OpMarkSystemSent sid)), smSteps_one_tick.
  - apply smSteps_one_tick.
Qed.

Lemma loopIteration_smSteps p c a le w :
  smSteps (sessionManager w) (sessionManager (loopIteration p c a le w)).
Proof.
  unfold loopIteration. destruct (Nat.leb a MAX_RETRIES); [|apply failPath_smSteps].
  destruct (chainAborted c w); [apply cancelPath_smSteps|]. apply smSteps_refl.
Qed.

Lemma catchPath_smSteps p c a e w :
  smSteps (sessionManager w) (sessionManager (catchPath p c a e w)).
Proof.
  destruct (catchPath_shape p c a e w) as [[_ ->]|[(_ & _ & _ & _ & ->)|(_ & _ & ->)]].
  - apply cancelPath_smSteps.
  - apply smSteps_one_tick.
  - eapply smSteps_trans; [|apply failPath_smSteps]. apply smSteps_one_tick.
Qed.

Lemma registerAbort_smSteps sid w :
  smSteps (sessionManager w) (sessionManager (snd (registerAbort sid w))).
Proof.
  unfold registerAbort. destruct (bound sid) as [s|]; [|apply smSteps_refl].
  apply (smSteps_one_op _ (OpRegisterOperation s)).
Qed.

Lemma verifySkill_smSteps k sid t w :
  wfVerifier w → smSteps (sessionManager w) (sessionManager (snd (verifySkill k sid t w))).
Proof.
  intros Hwf.
  destruct (lookupSkill k w) as [[r sk]|] eqn:Hl.
  2:{ unfold verifySkill. rewrite Hl. apply smSteps_one_tick. }
  destruct (map_get k (verificationPromises w)) as [ep|] eqn:Hv.
  { unfold verifySkill. rewrite Hl, Hv. apply smSteps_refl. }
  destruct (Skill.verificationUrl sk) as [[|u0 u]|] eqn:Hu.
  1, 3: unfold verifySkill; rewrite Hl, Hv, Hu; cbn [snd]; frames; apply smSteps_refl.
  destruct (verifySkill_start_shape k sid t w r sk u0 u Hwf Hl Hv Hu)
    as (w' & E & _ & _ & _ & _ & _ & Es).
  rewrite E. cbn [snd]. rewrite Es. apply registerAbort_smSteps.
Qed.

Lemma verifyEach_smSteps ids sid t : ∀ w,
  wfVerifier w → smSteps (sessionManager w) (sessionManager (snd (verifyEach ids sid t w))).
Proof.
  induction ids as [|id rest IH]; intros w Hwf; [apply smSteps_refl|]. cbn [verifyEach].
  pose proof (verifySkill_wfVerifier id sid t w Hwf) as H1.
  pose proof (verifySkill_smSteps id sid t w Hwf) as S1.
  destruct (verifySkill id sid t w) as [o w1]. cbn [snd] in H1, S1.
  specialize (IH w1 H1). destruct (verifyEach rest sid t w1). cbn [snd] in *.
  by eapply smSteps_trans.
Qed.

Lemma timeoutEach_smSteps refs : ∀ w,
  smSteps (sessionManager w) (sessionManager (snd (timeoutEach refs w))).
Proof.
  induction refs as [|ref rest IH]; intros w; [apply smSteps_refl|].
  cbn [timeoutEach]. cbv zeta.
  destruct (statusOf ref w) as [[]|].
  2:{ match goal with |- context [timeoutEach rest ?w'] =>
        specialize (IH w'); destruct (timeoutEach rest w') as [rs w3] end.
      cbn [snd] in *. eapply smSteps_trans; [|exact IH].
      rewrite updateSkillStatus_sessionManager. apply smSteps_one_tick. }
  all: specialize (IH w); by destruct (timeoutEach rest w).
Qed.

Lemma adminStatus_sessionManager k w :
  sessionManager (disableSkill k w) = sessionManager w
  ∧ sessionManager (enableSkill k w) = sessionManager w
  ∧ sessionManager (resetSkill k w) = sessionManager w.
Proof.
  unfold disableSkill, enableSkill, resetSkill.
  destruct (lookupSkill k w) as [[r sk]|]; [destruct (Skill.status sk)|]; by frames.
Qed.

Lemma runVerifierOp_smSteps op w :
  wfVerifier w → smSteps (sessionManager w) (sessionManager (runVerifierOp op w)).
Proof.
  intros Hwf. destruct op; cbn [runVerifierOp].
  - apply smSteps_refl.
  - by apply verifySkill_smSteps.
  - unfold verifyAllSkills. destruct (List.filter _ _) as [|r0 refs]; [apply smSteps_refl|].
    match goal with |- context [verifyEach ?ids ?s ?t w] =>
      pose proof (verifyEach_smSteps ids s t w Hwf) as H;
      by destruct (verifyEach ids s t w) end.
  - apply timeoutEach_smSteps.
  - destruct (adminStatus_sessionManager skillId0 w) as (-> & _). apply smSteps_refl.
  - destruct (adminStatus_sessionManager skillId0 w) as (_ & -> & _). apply smSteps_refl.
  - destruct (adminStatus_sessionManager skillId0 w) as (_ & _ & ->). apply smSteps_refl.
  - unfold fetchResolved. destruct (chains w !! p) as [c|]; [|apply smSteps_refl].
    destruct (state c); try apply smSteps_refl.
    destruct ok; [apply successPath_smSteps|apply catchPath_smSteps].
  - unfold fetchRejected. destruct (chains w !! p) as [c|]; [|apply smSteps_refl].
    destruct (state c); try apply smSteps_refl. apply catchPath_smSteps.
  - unfold timerFired. destruct (chains w !! p) as [c|]; [|apply smSteps_refl].
    destruct (state c); try apply smSteps_refl. apply loopIteration_smSteps.
  - unfold ownerResumes. destruct (chains w !! p) as [c|]; [|apply smSteps_refl].
    destruct (state c); try apply smSteps_refl.
    destruct (ownerWaiting c); apply smSteps_refl.
  - apply smSteps_one_op.
Qed.

Lemma smSteps_managerOk m m' : smSteps m m' → managerOk m → managerOk m'.
Proof.
  induction 1 as [|m m' op _ IH|m m' _ IH]; intros Hok; [done| |].
  - by apply runOp_managerOk, IH.
  - eapply managerOk_sessions; [|by apply IH]. done.
Qed.

Lemma smSteps_pendingOk m m' : smSteps m m' → pendingOk m → pendingOk m'.
Proof.
  induction 1 as [|m m' op _ IH|m m' _ IH]; intros Hok; [done| |].
  - by apply runOp_pendingOk, IH.
  - by apply (pendingOk_frame m'); [..|apply IH].
Qed.

Lemma reachableVerifier_smSteps w :
  reachableVerifier w → ∃ clk, smSteps (SessionManager.init clk) (sessionManager w).
Proof.
  induction 1 as [clk|op w Hr [clk IH]]; [exists clk; apply smSteps_refl|].
  exists clk. eapply smSteps_trans; [exact IH|].
  by apply runVerifierOp_smSteps, reachableVerifier_wfVerifier.
Qed.

(** X21. The verifier keeps the invariant of the session manager it
    drives: in every reachable verifier, whatever verifications were started,
    resumed or cancelled and whatever lifecycle operations were interleaved,
    a session with [systemSent = true] has status [running], and every
    controller registered for a session is live. *)
Theorem X21_verifier_keeps_manager_invariant w :
  reachableVerifier w →
  (∀ id s, SessionManager.getSession id (sessionManager w) = Some s →
     Session.systemSent s = true → Session.status s = running)
  ∧ (∀ sid ctl,
       map_get sid (SessionManager.pendingOperations (sessionManager w)) = Some ctl →
       SessionManager.aborted ctl (sessionManager w) = false).
Proof.
  intros Hr. destruct (reachableVerifier_smSteps w Hr) as [clk Hs]. split.
  - apply (smSteps_managerOk _ _ Hs). apply (reachable_managerOk _ (reachable_init clk)).
  - intros sid ctl H. apply aborted_false_live.
    apply (proj1 (smSteps_pendingOk _ _ Hs (reachable_pendingOk _ (reachable_init clk)))
             sid ctl H).
Qed.

Lemma X21_witness :
  SessionManager.aborted 0
    (sessionManager (snd (verifySkill "x" (Some "s") None verifierWithSkill))) = false.
Proof.
  apply (X21_verifier_keeps_manager_invariant
           (snd (verifySkill "x" (Some "s") None verifierWithSkill))) with (sid := "s").
  - apply (reachableVerifier_step (VVerifySkill "x" (Some "s") None)).
    apply reachableVerifier_runVerifierOps, reachableVerifier_init.
  - reflexivity.
Defined.


(** *** What a settled verification does to its session *)

Lemma errorSession_known id info m s :
  SessionManager.getSession id m = Some s →
  ∃ s', SessionManager.getSession id (snd (SessionManager.errorSession id info m)) = Some s'
    ∧ Session.status s' = error ∧ Session.systemSent s' = false
    ∧ Session.error s'
      = Some (SessionError.mk (SessionErrorInfo.code info) (SessionErrorInfo.message info)
                (SessionErrorInfo.recoverable info)
                (SessionManager.clock m (SessionManager.ticks m)))
    ∧ Session.config s' = Session.config s
    ∧ Session.interrupted s' = Session.interrupted s.
Proof.
  unfold SessionManager.getSession. intros H.
  unfold SessionManager.errorSession, SessionManager.updateSession.
  cbn [SessionManager.dateNow fst snd SessionManager.sessions].
  rewrite cancelPendingOperations_sessions, H.
  cbn [SessionManager.dateNow fst snd SessionManager.saveToStorage
       SessionManager.with_sessions SessionManager.sessions].
  rewrite map_get_set_eq. eexists. split; [reflexivity|]. cbn.
  destruct (cancelPendingOperations_frame id m) as (_ & -> & ->). by repeat split.
Qed.

Lemma markSystemSent_known id m s :
  SessionManager.getSession id m = Some s →
  ∃ s', SessionManager.getSession id (snd (SessionManager.markSystemSent id m)) = Some s'
    ∧ Session.status s' = Session.status s
    ∧ (Session.status s = running → Session.systemSent s' = true)
    ∧ (Session.status s ≠ running → s' = s).
Proof.
  unfold SessionManager.getSession. intros H. unfold SessionManager.markSystemSent.
  rewrite H. destruct (Session.status s) eqn:Est; cbn [SessionStatus_eqb negb];
    try (exists s; rewrite Est; by repeat split).
  unfold SessionManager.updateSession. rewrite H.
  cbn [SessionManager.dateNow fst snd SessionManager.saveToStorage
       SessionManager.with_sessions SessionManager.sessions].
  rewrite map_get_set_eq. eexists. split; [reflexivity|]. cbn. rewrite Est.
  by repeat split.
Qed.

(** X22. What the end of a verification bound to a session that exists
    does to the session.  A response that is OK calls [markSystemSent]: the
    flag is set when the session is [running], and a session in another
    status is left exactly as it is.  A failure that is not retried puts the
    session into [error] with the flag cleared and records the error; its
    [recoverable] field is computed from the message alone.  A cancellation,
    and a failure that is retried, leave the session record as it is. *)
Theorem X22_session_after_verification p c a le w sid s :
  chains w !! p = Some c → state c = AwaitingFetch a le →
  sessionId c = Some sid →
  SessionManager.getSession sid (sessionManager w) = Some s →
  (∀ status,
     ∃ s', SessionManager.getSession sid (sessionManager (fetchResolved p true status w))
           = Some s'
       ∧ Session.status s' = Session.status s
       ∧ (Session.status s = running → Session.systemSent s' = true)
       ∧ (Session.status s ≠ running → s' = s))
  ∧ (∀ e, isAbort e = false →
       isRecoverableError (ThrownError e) = false ∨ (MAX_RETRIES ≤ a)%nat →
       ∃ s' now,
         SessionManager.getSession sid (sessionManager (fetchRejected p e w)) = Some s'
         ∧ Session.status s' = error ∧ Session.systemSent s' = false
         ∧ Session.error s'
           = Some (SessionError.mk
                     (SkillError.code (lastErrorOf e (fst (dateNow w))))
                     ("Skill verification failed for " +:+ skillName c +:+ ": "
                      +:+ SkillError.message (lastErrorOf e (fst (dateNow w))))
                     (isRecoverableError
                        (ThrownError
                           (newError (SkillError.message (lastErrorOf e (fst (dateNow w)))))))
                     now))
  ∧ (∀ e, isAbort e = true
          ∨ (isRecoverableError (ThrownError e) = true ∧ (a < MAX_RETRIES)%nat) →
       SessionManager.getSession sid (sessionManager (fetchRejected p e w)) = Some s).
Proof.
  intros Hp Hst Hsid Hs. split; [|split].
  - intros status. unfold fetchResolved. rewrite Hp, Hst.
    rewrite successPath_sessionManager, Hsid.
    by apply markSystemSent_known.
  - intros e Ha Hr. unfold fetchRejected. rewrite Hp, Hst.
    destruct (catchPath_shape p c a e w)
      as [[Ha' _]|[(_ & Hr' & Hlt & _)|(_ & _ & ->)]].
    + congruence.
    + destruct Hr as [Hr|Hr]; [congruence|lia].
    + rewrite failPath_sessionManager, Hsid. unfold reportFailure.
      match goal with |- context [SessionManager.errorSession sid ?info ?m] =>
        destruct (errorSession_known sid info m s Hs) as (s' & G & E1 & E2 & E3 & _) end.
      exists s'. eexists. split; [exact G|]. split; [done|]. split; [done|]. exact E3.
  - intros e He. unfold fetchRejected. rewrite Hp, Hst.
    destruct (catchPath_shape p c a e w)
      as [[_ ->]|[(_ & _ & _ & _ & ->)|(Ha' & Hr' & _)]].
    + by destruct (cancelPath_shape p c w) as (r & _ & _ & _ & ->).
    + done.
    + destruct He as [He|[He Hlt]]; [congruence|].
      destruct Hr' as [Hr'|Hr']; [congruence|lia].
Qed.

Lemma X22_witness :
  ∃ s', SessionManager.getSession "s"
          (sessionManager
             (fetchResolved 0 true 200
                (snd (verifySkill "x" (Some "s") None verifierWithSkill)))) = Some s'
    ∧ Session.systemSent s' = true.
Proof.
  destruct (X22_session_after_verification 0
              (mkChain "x" "x" "https://example.com/verify" (Some "s") (Some 0%nat)
                 SKILL_VERIFICATION_TIMEOUT (AwaitingFetch 0 None) true)
              0 None (snd (verifySkill "x" (Some "s") None verifierWithSkill)) "s"
              (Session.mk "s" "Test" running false false
                 (SessionConfig.mk "test-model" None None (Some DEFAULT_SESSION_TIMEOUT) [])
                 (SessionStats.mk 0 0 1000 1002) None 1000 1001)
              eq_refl eq_refl eq_refl eq_refl) as (H & _).
  destruct (H 200) as (s' & G & _ & T & _). exists s'. split; [exact G|]. by apply T.
Defined.


(** *** The deadline of [verifyAllSkills] *)

(** X23. The deadline handler of [verifyAllSkills] only writes statuses:
    it stops no verification, aborts no controller, settles no promise and
    does not touch the sessions.  A chain that was awaiting its response
    still awaits it, and when the response then arrives and is OK, the skill
    that the handler had failed with VERIFICATION_TIMEOUT is set to
    [verified] with the error cleared. *)
Theorem X23_deadline_cancels_nothing a w :
  chains (snd (verifyAllSkillsTimeout a w)) = chains w
  ∧ verificationPromises (snd (verifyAllSkillsTimeout a w)) = verificationPromises w
  ∧ fetchLog (snd (verifyAllSkillsTimeout a w)) = fetchLog w
  ∧ skills (snd (verifyAllSkillsTimeout a w)) = skills w
  ∧ SessionManager.sessions (sessionManager (snd (verifyAllSkillsTimeout a w)))
    = SessionManager.sessions (sessionManager w)
  ∧ SessionManager.pendingOperations (sessionManager (snd (verifyAllSkillsTimeout a w)))
    = SessionManager.pendingOperations (sessionManager w)
  ∧ SessionManager.controllers (sessionManager (snd (verifyAllSkillsTimeout a w)))
    = SessionManager.controllers (sessionManager w)
  ∧ ∀ p c att le status r0 sk,
      chains w !! p = Some c → state c = AwaitingFetch att le →
      lookupSkill (skillId c) (snd (verifyAllSkillsTimeout a w)) = Some (r0, sk) →
      ∃ sk',
        lookupSkill (skillId c)
          (fetchResolved p true status (snd (verifyAllSkillsTimeout a w)))
        = Some (r0, sk')
        ∧ Skill.status sk' = verified ∧ Skill.error sk' = None.
Proof.
  unfold verifyAllSkillsTimeout.
  destruct (timeoutEach_frame (scanned a) w) as (Es & Ev & Ec & El & E1 & E2 & E3).
  repeat (split; [done|]).
  intros p c att le status r0 sk Hp Hst Hl.
  unfold fetchResolved. rewrite Ec, Hp, Hst.
  destruct (successPath_shape p c (snd (timeoutEach (scanned a) w)))
    as (r & F & Hs & _ & _ & HF).
  exists (F sk). split; [by apply (lookupSkill_chainStep _ _ _ _ _ _ _ r0 sk Hs)|].
  split; apply HF.
Qed.


(** *** A skill is [verifying] only while its verification runs *)

Lemma chainStep_frame p k st F log w0 w w' :
  skills w0 = skills w → verificationPromises w0 = verificationPromises w →
  chains w0 = chains w → objects w0 = objects w →
  chainStep p k st F log w0 w' → chainStep p k st F log w w'.
Proof. unfold chainStep. by intros <- <- <- <-. Qed.

Lemma cancelPath_chainStep p c w :
  ∃ st F, chainStep p (skillId c) st F (fetchLog w) w (cancelPath p c w) ∧ statusAfter st F.
Proof.
  destruct (cancelPath_shape p c w) as (r & Hs & _). eexists _, _. split; [exact Hs|].
  right. split; [done|]. intros sk. by right.
Qed.

Lemma failPath_chainStep p c le w :
  ∃ st F, chainStep p (skillId c) st F (fetchLog w) w (failPath p c le w) ∧ statusAfter st F.
Proof.
  destruct (failPath_shape p c le w) as (r & Hs & _). eexists _, _. split; [exact Hs|].
  right. split; [done|]. intros sk. by right.
Qed.

Lemma successPath_chainStep p c w :
  ∃ st F, chainStep p (skillId c) st F (fetchLog w) w (successPath p c w) ∧ statusAfter st F.
Proof.
  destruct (successPath_shape p c w) as (r & F & Hs & _ & _ & HF).
  eexists _, _. split; [exact Hs|]. right. split; [done|]. intros sk. left. apply HF.
Qed.

Lemma catchPath_chainStep p c a e w :
  ∃ st F, chainStep p (skillId c) st F (fetchLog w) w (catchPath p c a e w) ∧ statusAfter st F.
Proof.
  destruct (catchPath_shape p c a e w) as [[_ ->]|[(_ & _ & _ & Hs & _)|(_ & _ & ->)]].
  - apply cancelPath_chainStep.
  - eexists _, _. split; [exact Hs|]. left. by split.
  - destruct (failPath_chainStep p c (Some (lastErrorOf e (fst (dateNow w)))) (snd (dateNow w)))
      as (st & F & Hs & HF).
    exists st, F. split; [|done]. by apply (chainStep_frame _ _ _ _ _ (snd (dateNow w))).
Qed.

Lemma loopIteration_chainStep p c a le w :
  ∃ st F log, chainStep p (skillId c) st F log w (loopIteration p c a le w) ∧ statusAfter st F.
Proof.
  unfold loopIteration. destruct (Nat.leb a MAX_RETRIES).
  - destruct (chainAborted c w).
    + destruct (cancelPath_chainStep p c w) as (st & F & H). by exists st, F, (fetchLog w).
    + exists (AwaitingFetch a le), (λ sk, sk),
        (fetchLog w ++ [mkFetchCall (url c) (timeout c) p]).
      split; [|left; by split]. unfold chainStep. rewrite setChainState_withState. cbn.
      repeat split. destruct (map_get (skillId c) (skills w)); [|done].
      symmetry. by apply list_alter_id.
  - destruct (failPath_chainStep p c le w) as (st & F & H). by exists st, F, (fetchLog w).
Qed.

(** Two keys of a well-formed skill map refer to different objects. *)
Lemma wf_refs_injective w k1 k2 r :
  wfVerifier w → map_get k1 (skills w) = Some r → map_get k2 (skills w) = Some r → k1 = k2.
Proof.
  intros (_ & W1 & _) H1 H2.
  destruct (W1 k1 r H1) as (sk1 & L1 & E1). destruct (W1 k2 r H2) as (sk2 & L2 & E2).
  congruence.
Qed.

Lemma chainStep_verifyingRuns p k st F log w w' c :
  wfVerifier w → verifyingRuns w →
  chains w !! p = Some c → skillId c = k →
  chainStep p k st F log w w' → statusAfter st F →
  verifyingRuns w'.
Proof.
  intros Hwf J Hp Hk (Es & _ & Ec & _ & Eo) HF k' r sk' Hl Hv.
  apply lookupSkill_Some in Hl as [Hg Ho]. rewrite Es in Hg. rewrite Eo in Ho.
  destruct (decide (k' = k)) as [->|Hne].
  - rewrite Hg in Ho. rewrite Ec.
    destruct HF as [[Hin _]|[_ Hterm]].
    + exists p, (withState st c). by rewrite list_lookup_alter_eq, Hp.
    + rewrite list_lookup_alter_eq in Ho.
      destruct (objects w !! r) as [sk|]; [|done]. injection Ho as <-.
      destruct (Hterm sk) as [E|E]; congruence.
  - assert (objects w !! r = Some sk') as Ho'.
    { destruct (map_get k (skills w)) as [r0|] eqn:Hk0; [|done].
      rewrite list_lookup_alter_ne in Ho; [done|].
      intros ->. apply Hne. by apply (wf_refs_injective w k' k r). }
    destruct (J k' r sk') as (q & cq & Hq & Hkq & Hfq); [by apply lookupSkill_Some|done|].
    exists q, cq. rewrite Ec. split; [|done].
    rewrite list_lookup_alter_ne; [done|]. intros ->. congruence.
Qed.

(** A step that only writes statuses other than [verifying]. *)
Lemma status_step_verifyingRuns P w w' :
  (∀ st, P st → st ≠ verifying) →
  skills w' = skills w → chains w' = chains w → objectsStep P (objects w) (objects w') →
  wfVerifier w → verifyingRuns w → verifyingRuns w'.
Proof.
  intros HP Es Ec Eo (_ & W1 & _) J k r sk' Hl Hv.
  apply lookupSkill_Some in Hl as [Hg Ho]. rewrite Es in Hg.
  destruct (W1 k r Hg) as (sk & Hsk & _).
  destruct (Eo r sk Hsk) as (sk2 & Ho2 & _ & Hst).
  assert (sk2 = sk') as -> by congruence.
  destruct Hst as [Hst|Hst]; [|by apply HP in Hst].
  rewrite Ec. apply (J k r sk); [by apply lookupSkill_Some|congruence].
Qed.

Lemma timeoutEach_objectsStep refs : ∀ w,
  objectsStep (λ st, st = failed) (objects w) (objects (snd (timeoutEach refs w))).
Proof.
  induction refs as [|ref rest IH]; intros w; [apply objectsStep_refl|].
  cbn [timeoutEach]. cbv zeta.
  destruct (statusOf ref w) as [[]|].
  2:{ match goal with |- context [timeoutEach rest ?w'] =>
        specialize (IH w'); destruct (timeoutEach rest w') as [rs w3] end.
      cbn [snd] in *. eapply objectsStep_trans; [|exact IH].
      rewrite updateSkillStatus_objects. frames.
      destruct (map_get _ _); [|apply objectsStep_refl].
      apply objectsStep_alter. intros sk. split; [done|by right]. }
  all: specialize (IH w); by destruct (timeoutEach rest w).
Qed.

Lemma adminStatus_objectsStep k w :
  (skills (disableSkill k w) = skills w
   ∧ objectsStep (λ st, st ≠ verifying) (objects w) (objects (disableSkill k w)))
  ∧ (skills (enableSkill k w) = skills w
     ∧ objectsStep (λ st, st ≠ verifying) (objects w) (objects (enableSkill k w)))
  ∧ (skills (resetSkill k w) = skills w
     ∧ objectsStep (λ st, st ≠ verifying) (objects w) (objects (resetSkill k w))).
Proof.
  assert (∀ f, (∀ sk, Skill.id (f sk) = Skill.id sk ∧ Skill.status (f sk) ≠ verifying) →
            objectsStep (λ st, st ≠ verifying) (objects w) (objects (modifySkill k f w)))
    as Hm.
  { intros f Hf. rewrite modifySkill_objects. destruct (map_get k (skills w));
      [|apply objectsStep_refl].
    apply objectsStep_alter. intros sk. split; [apply Hf|right; apply Hf]. }
  unfold disableSkill, enableSkill, resetSkill, updateSkillStatus.
  split; [|split].
  - split; [by frames|]. by apply Hm.
  - destruct (lookupSkill k w) as [[r sk]|]; [|split; [done|apply objectsStep_refl]].
    destruct (Skill.status sk); try (split; [done|apply objectsStep_refl]).
    split; [by frames|]. by apply Hm.
  - destruct (lookupSkill k w) as [[r sk]|]; [|split; [done|apply objectsStep_refl]].
    destruct (Skill.status sk); try (split; [done|apply objectsStep_refl]).
    split; [by frames|]. by apply Hm.
Qed.

Lemma verifyingRuns_frame w w' :
  skills w' = skills w → objects w' = objects w → chains w' = chains w →
  verifyingRuns w → verifyingRuns w'.
Proof.
  intros Es Eo Ec J k r sk Hl. rewrite Ec. apply (J k r sk).
  apply lookupSkill_Some in Hl as [H1 H2]. apply lookupSkill_Some. by rewrite <-Es, <-Eo.
Qed.

Lemma registerSkill_verifyingRuns id name dn url w :
  wfVerifier w → verifyingRuns w → verifyingRuns (snd (registerSkill id name dn url w)).
Proof.
  intros (_ & W1 & _) J k r sk Hl Hv.
  apply lookupSkill_Some in Hl as [Hg Ho]. unfold registerSkill in *. cbn in *.
  rewrite map_get_set in Hg. destruct (String.eqb id k) eqn:E.
  - injection Hg as <-. rewrite list_lookup_middle in Ho by done.
    injection Ho as <-. discriminate Hv.
  - destruct (W1 k r Hg) as (sk0 & Hsk0 & _).
    rewrite (lookup_app_l_Some _ _ _ _ Hsk0) in Ho. injection Ho as <-.
    apply (J k r sk0); [by apply lookupSkill_Some|done].
Qed.

Lemma verifySkill_verifyingRuns k sid t w :
  wfVerifier w → verifyingRuns w → verifyingRuns (snd (verifySkill k sid t w)).
Proof.
  intros Hwf J. pose proof Hwf as (_ & W1 & _).
  destruct (lookupSkill k w) as [[r sk]|] eqn:Hl.
  2:{ unfold verifySkill. rewrite Hl. cbn [snd]. intros k' r' sk' Hl' Hv.
      apply lookupSkill_Some in Hl' as [Hg Ho]. cbn in Hg, Ho.
      destruct (W1 k' r' Hg) as (sk0 & Hsk0 & _).
      rewrite (lookup_app_l_Some _ _ _ _ Hsk0) in Ho. injection Ho as <-.
      apply (J k' r' sk0); [by apply lookupSkill_Some|done]. }
  destruct (map_get k (verificationPromises w)) as [ep|] eqn:Hv.
  { unfold verifySkill. by rewrite Hl, Hv. }
  destruct (Skill.verificationUrl sk) as [[|u0 u]|] eqn:Hu.
  1, 3: unfold verifySkill; rewrite Hl, Hv, Hu; cbn [snd];
    apply (status_step_verifyingRuns (λ st, st = verified) w); try done;
    [by intros st ->|by frames|by frames|];
    rewrite updateSkillStatus_objects; (destruct (map_get k (skills w));
      [|apply objectsStep_refl]); apply objectsStep_alter; intros sk0; by split; [|right].
  destruct (verifySkill_start_shape k sid t w r sk u0 u Hwf Hl Hv Hu)
    as (w' & E & Ec & _ & Es & _ & Eo & _).
  rewrite E. cbn [snd]. apply lookupSkill_Some in Hl as [Hg Ho].
  intros k' r' sk' Hl' Hv'. apply lookupSkill_Some in Hl' as [Hg' Ho'].
  rewrite Es in Hg'. rewrite Eo in Ho'. rewrite Ec.
  destruct (decide (k' = k)) as [->|Hne].
  - exists (length (chains w)). eexists. by rewrite list_lookup_middle.
  - rewrite list_lookup_alter_ne in Ho'.
    2:{ intros ->. apply Hne. by apply (wf_refs_injective w k' k r'). }
    destruct (J k' r' sk') as (q & cq & Hq & Hkq & Hfq); [by apply lookupSkill_Some|done|].
    exists q, cq. split; [by apply lookup_app_l_Some|done].
Qed.

Lemma verifyEach_verifyingRuns ids sid t : ∀ w,
  wfVerifier w → verifyingRuns w → verifyingRuns (snd (verifyEach ids sid t w)).
Proof.
  induction ids as [|id rest IH]; intros w Hwf J; [done|]. cbn [verifyEach].
  pose proof (verifySkill_wfVerifier id sid t w Hwf) as H1.
  pose proof (verifySkill_verifyingRuns id sid t w Hwf J) as J1.
  destruct (verifySkill id sid t w) as [o w1]. cbn [snd] in H1, J1.
  specialize (IH w1 H1 J1). by destruct (verifyEach rest sid t w1).
Qed.

Lemma runVerifierOp_verifyingRuns op w :
  wfVerifier w → verifyingRuns w → verifyingRuns (runVerifierOp op w).
Proof.
  intros Hwf J. destruct op; cbn [runVerifierOp].
  - by apply registerSkill_verifyingRuns.
  - by apply verifySkill_verifyingRuns.
  - unfold verifyAllSkills. destruct (List.filter _ _) as [|r0 refs]; [done|].
    match goal with |- context [verifyEach ?ids ?s ?t w] =>
      pose proof (verifyEach_verifyingRuns ids s t w Hwf J) as H;
      by destruct (verifyEach ids s t w) end.
  - unfold verifyAllSkillsTimeout.
    destruct (timeoutEach_frame (scanned a) w) as (Es & _ & Ec & _).
    apply (status_step_verifyingRuns (λ st, st = failed) w); try done.
    + by intros st ->.
    + apply timeoutEach_objectsStep.
  - destruct (adminStatus_objectsStep skillId0 w) as ((Es & Eo) & _).
    apply (status_step_verifyingRuns (λ st, st ≠ verifying) w); try done.
    apply adminStatus_frame.
  - destruct (adminStatus_objectsStep skillId0 w) as (_ & (Es & Eo) & _).
    apply (status_step_verifyingRuns (λ st, st ≠ verifying) w); try done.
    apply adminStatus_frame.
  - destruct (adminStatus_objectsStep skillId0 w) as (_ & _ & (Es & Eo)).
    apply (status_step_verifyingRuns (λ st, st ≠ verifying) w); try done.
    apply adminStatus_frame.
  - unfold fetchResolved. destruct (chains w !! p) as [c|] eqn:Hp; [|done].
    destruct (state c); try done. destruct ok.
    + destruct (successPath_chainStep p c w) as (st & F & Hs & HF).
      by apply (chainStep_verifyingRuns p (skillId c) st F (fetchLog w) w _ c).
    + match goal with |- context [catchPath p c ?a ?e w] =>
        destruct (catchPath_chainStep p c a e w) as (st & F & Hs & HF) end.
      by apply (chainStep_verifyingRuns p (skillId c) st F (fetchLog w) w _ c).
  - unfold fetchRejected. destruct (chains w !! p) as [c|] eqn:Hp; [|done].
    destruct (state c); try done.
    match goal with |- context [catchPath p c ?a ?e w] =>
      destruct (catchPath_chainStep p c a e w) as (st & F & Hs & HF) end.
    by apply (chainStep_verifyingRuns p (skillId c) st F (fetchLog w) w _ c).
  - unfold timerFired. destruct (chains w !! p) as [c|] eqn:Hp; [|done].
    destruct (state c); try done.
    match goal with |- context [loopIteration p c ?a ?le w] =>
      destruct (loopIteration_chainStep p c a le w) as (st & F & log & Hs & HF) end.
    by apply (chainStep_verifyingRuns p (skillId c) st F log w _ c).
  - unfold ownerResumes. destruct (chains w !! p) as [c|] eqn:Hp; [|done].
    destruct (state c) eqn:Hst; try done. destruct (ownerWaiting c); [|done].
    intros k r sk Hl Hv. destruct (J k r sk Hl Hv) as (q & cq & Hq & Hkq & Hfq).
    exists q, cq. cbn. split; [|done]. rewrite list_lookup_alter_ne; [done|].
    intros ->. rewrite Hp in Hq. injection Hq as <-. by rewrite Hst in Hfq.
  - by apply (verifyingRuns_frame w).
Qed.

(** X24. In every reachable verifier a registered skill is in status
    [verifying] only while a verification of it is running: there is a
    [performVerification] call for its id that awaits a response or a back-off
    timer, and it is the pending verification promise of the id.  No skill is
    left [verifying] by a verification that has ended. *)
Theorem X24_verifying_only_while_running w :
  reachableVerifier w →
  ∀ k r sk, lookupSkill k w = Some (r, sk) → Skill.status sk = verifying →
    ∃ p c, chains w !! p = Some c ∧ skillId c = k
           ∧ inFlight (state c) = true
           ∧ map_get k (verificationPromises w) = Some p.
Proof.
  intros Hr.
  assert (verifyingRuns w) as J.
  { induction Hr as [clk|op w Hr IH]; [by intros k r sk H|].
    apply runVerifierOp_verifyingRuns; [by apply reachableVerifier_wfVerifier|done]. }
  pose proof (reachableVerifier_wfVerifier w Hr) as (_ & _ & W2 & W3 & _).
  intros k r sk Hl Hv. destruct (J k r sk Hl Hv) as (p & c & Hp & Hk & Hf).
  exists p, c. split; [done|]. split; [done|]. split; [done|].
  rewrite <-Hk. apply (W2 p c Hp). by apply (W3 p c).
Qed.

Lemma X24_witness :
  ∃ p c, chains verifierSleeping !! p = Some c ∧ skillId c = "x"
         ∧ inFlight (state c) = true
         ∧ map_get "x" (verificationPromises verifierSleeping) = Some p.
Proof.
  apply (X24_verifying_only_while_running verifierSleeping) with
    (r := 0%nat)
    (sk := Skill.mk "x" "x" "X" verifying (Some "https://example.com/verify") None None 1%nat).
  - apply reachableVerifier_runVerifierOps, reachableVerifier_runVerifierOps,
      reachableVerifier_init.
  - reflexivity.
  - reflexivity.
Defined.


(** *** Verifications that share a session *)

Lemma tracked_smSteps ctl sid m m' :
  smSteps m m' → pendingOk m → tracked ctl sid m → tracked ctl sid m'.
Proof.
  unfold tracked. induction 1 as [|m m' op Hs IH|m m' Hs IH]; intros Hok H; [done| |].
  - apply runOp_tracked; [by apply (smSteps_pendingOk m)|by apply IH].
  - by apply IH.
Qed.

Lemma staticKeep_same w w' : chains w' = chains w → staticKeep w w'.
Proof. intros E p c' H. exists c'. by rewrite <-E. Qed.

Lemma staticKeep_alter w w' f p :
  chains w' = alter f p (chains w) →
  (∀ c, abortController (f c) = abortController c ∧ sessionId (f c) = sessionId c) →
  staticKeep w w'.
Proof.
  intros E Hf q c'. rewrite E. destruct (decide (q = p)) as [->|Hne].
  - rewrite list_lookup_alter_eq. destruct (chains w !! p) as [c|]; [|done].
    intros [= <-]. exists c. split; [done|]. apply Hf.
  - rewrite list_lookup_alter_ne by done. intros H. by exists c'.
Qed.

Lemma chainStep_staticKeep p k st F log w w' : chainStep p k st F log w w' → staticKeep w w'.
Proof. intros (_ & _ & Ec & _). by apply (staticKeep_alter w w' (withState st) p). Qed.

Lemma step_controllersTracked w w' :
  controllersTracked w → pendingOk (sessionManager w) →
  smSteps (sessionManager w) (sessionManager w') → staticKeep w w' →
  controllersTracked w'.
Proof.
  intros K Hok Hs Hk p c' ctl sid Hp Hc Hsid.
  destruct (Hk p c' Hp) as (c & Hp0 & E1 & E2).
  apply (tracked_smSteps ctl sid _ _ Hs Hok). apply (K p c); congruence.
Qed.

Lemma runVerifierOp_staticKeep op w :
  (∀ k s t, op ≠ VVerifySkill k s t) → (∀ s t, op ≠ VVerifyAllSkills s t) →
  staticKeep w (runVerifierOp op w).
Proof.
  intros N1 N2. destruct op; cbn [runVerifierOp].
  - by apply staticKeep_same.
  - by destruct (N1 skillId0 sessionId0 timeout0).
  - by destruct (N2 sessionId0 timeout0).
  - apply staticKeep_same. unfold verifyAllSkillsTimeout. apply timeoutEach_frame.
  - apply staticKeep_same, adminStatus_frame.
  - apply staticKeep_same, adminStatus_frame.
  - apply staticKeep_same, adminStatus_frame.
  - unfold fetchResolved. destruct (chains w !! p) as [c|]; [|by apply staticKeep_same].
    destruct (state c); try by apply staticKeep_same. destruct ok.
    + destruct (successPath_chainStep p c w) as (st & F & Hs & _).
      by apply (chainStep_staticKeep _ _ _ _ _ _ _ Hs).
    + match goal with |- context [catchPath p c ?a ?e w] =>
        destruct (catchPath_chainStep p c a e w) as (st & F & Hs & _) end.
      by apply (chainStep_staticKeep _ _ _ _ _ _ _ Hs).
  - unfold fetchRejected. destruct (chains w !! p) as [c|]; [|by apply staticKeep_same].
    destruct (state c); try by apply staticKeep_same.
    match goal with |- context [catchPath p c ?a ?e w] =>
      destruct (catchPath_chainStep p c a e w) as (st & F & Hs & _) end.
    by apply (chainStep_staticKeep _ _ _ _ _ _ _ Hs).
  - unfold timerFired. destruct (chains w !! p) as [c|]; [|by apply staticKeep_same].
    destruct (state c); try by apply staticKeep_same.
    match goal with |- context [loopIteration p c ?a ?le w] =>
      destruct (loopIteration_chainStep p c a le w) as (st & F & log & Hs & _) end.
    by apply (chainStep_staticKeep _ _ _ _ _ _ _ Hs).
  - unfold ownerResumes. destruct (chains w !! p) as [c|]; [|by apply staticKeep_same].
    destruct (state c); try by apply staticKeep_same.
    destruct (ownerWaiting c); [|by apply staticKeep_same].
    eapply staticKeep_alter; [reflexivity|]. by intros c0.
  - by apply staticKeep_same.
Qed.

Lemma verifySkill_controllersTracked k sid t w :
  wfVerifier w → pendingOk (sessionManager w) → controllersTracked w →
  controllersTracked (snd (verifySkill k sid t w)).
Proof.
  intros Hwf Hok K. pose proof (verifySkill_smSteps k sid t w Hwf) as Hs.
  destruct (lookupSkill k w) as [[r sk]|] eqn:Hl.
  2:{ apply (step_controllersTracked w); try done. apply staticKeep_same.
      unfold verifySkill. by rewrite Hl. }
  destruct (map_get k (verificationPromises w)) as [ep|] eqn:Hv.
  { apply (step_controllersTracked w); try done. apply staticKeep_same.
    unfold verifySkill. by rewrite Hl, Hv. }
  destruct (Skill.verificationUrl sk) as [[|u0 u]|] eqn:Hu.
  1, 3: apply (step_controllersTracked w); try done; apply staticKeep_same;
    unfold verifySkill; rewrite Hl, Hv, Hu; cbn [snd]; by frames.
  destruct (verifySkill_start_shape k sid t w r sk u0 u Hwf Hl Hv Hu)
    as (w' & E & Ec & _ & _ & _ & _ & Em).
  rewrite E in Hs |- *. cbn [snd] in Hs |- *.
  intros p c ctl s0 Hp Hc Hsid. rewrite Ec in Hp.
  apply lookup_app_Some in Hp as [Hp|[_ Hp]].
  - apply (tracked_smSteps ctl s0 _ _ Hs Hok). by apply (K p c).
  - apply list_lookup_singleton_Some in Hp as [_ <-]. cbn in Hc, Hsid.
    right. rewrite Em. unfold registerAbort in *. rewrite Hsid in *. cbn in Hc |- *.
    injection Hc as <-. apply map_get_set_eq.
Qed.

Lemma verifyEach_controllersTracked ids sid t : ∀ w,
  wfVerifier w → pendingOk (sessionManager w) → controllersTracked w →
  controllersTracked (snd (verifyEach ids sid t w)).
Proof.
  induction ids as [|id rest IH]; intros w Hwf Hok K; [done|]. cbn [verifyEach].
  pose proof (verifySkill_wfVerifier id sid t w Hwf) as H1.
  pose proof (verifySkill_controllersTracked id sid t w Hwf Hok K) as K1.
  pose proof (smSteps_pendingOk _ _ (verifySkill_smSteps id sid t w Hwf) Hok) as Hok1.
  destruct (verifySkill id sid t w) as [o w1]. cbn [snd] in H1, K1, Hok1.
  specialize (IH w1 H1 Hok1 K1). by destruct (verifyEach rest sid t w1).
Qed.

Lemma runVerifierOp_controllersTracked op w :
  wfVerifier w → pendingOk (sessionManager w) → controllersTracked w →
  controllersTracked (runVerifierOp op w).
Proof.
  intros Hwf Hok K.
  destruct op;
    try (apply (step_controllersTracked w); [done|done|by apply runVerifierOp_smSteps|];
         by apply runVerifierOp_staticKeep).
  - by apply verifySkill_controllersTracked.
  - cbn [runVerifierOp]. unfold verifyAllSkills.
    destruct (List.filter _ _) as [|r0 refs]; [done|].
    match goal with |- context [verifyEach ?ids ?s ?t w] =>
      pose proof (verifyEach_controllersTracked ids s t w Hwf Hok K) as H;
      by destruct (verifyEach ids s t w) end.
Qed.

Lemma reachableVerifier_controllersTracked w :
  reachableVerifier w → pendingOk (sessionManager w) ∧ controllersTracked w.
Proof.
  induction 1 as [clk|op w Hr [Hok K]].
  - split; [apply (reachable_pendingOk _ (reachable_init clk))|]. by intros p c ctl sid H.
  - pose proof (reachableVerifier_wfVerifier w Hr) as Hwf. split.
    + apply (smSteps_pendingOk (sessionManager w)); [by apply runVerifierOp_smSteps|done].
    + by apply runVerifierOp_controllersTracked.
Qed.

(** X25. Verifications that share a session.  [performVerification]
    registers its controller with [registerOperation], which cancels the
    operation registered for the session before.  So when a verification is
    bound to a session and a verification of another skill is then started on
    the same session, the controller of the first is aborted; the first is not
    interrupted while it awaits its response, but if it comes to retry, the
    turn of the loop that follows its back-off sleep finds the controller
    aborted: it ends with VERIFICATION_CANCELLED and issues no [fetch]. *)
Theorem X25_newer_verification_cancels_older w p c ctl sid k2 t r2 sk2 u0 u :
  reachableVerifier w →
  chains w !! p = Some c → abortController c = Some ctl → sessionId c = Some sid →
  sid ≠ "" →
  lookupSkill k2 w = Some (r2, sk2) →
  map_get k2 (verificationPromises w) = None →
  Skill.verificationUrl sk2 = Some (String u0 u) →
  chains (snd (verifySkill k2 (Some sid) t w)) !! p = Some c
  ∧ chainAborted c (snd (verifySkill k2 (Some sid) t w)) = true
  ∧ ∀ a le d, state c = Sleeping a le d →
      ∃ r, chains (timerFired p (snd (verifySkill k2 (Some sid) t w))) !! p
           = Some (withState (Settled r) c)
        ∧ SkillVerificationResult.success r = false
        ∧ SkillError.code <$> SkillVerificationResult.error r
          = Some "VERIFICATION_CANCELLED"
        ∧ fetchLog (timerFired p (snd (verifySkill k2 (Some sid) t w)))
          = fetchLog (snd (verifySkill k2 (Some sid) t w)).
Proof.
  intros Hr Hp Hc Hsid Hne Hl Hv Hu.
  pose proof (reachableVerifier_wfVerifier w Hr) as Hwf.
  destruct (reachableVerifier_controllersTracked w Hr) as [Hok K].
  destruct (verifySkill_start_shape k2 (Some sid) t w r2 sk2 u0 u Hwf Hl Hv Hu)
    as (w' & E & Ec & El & _ & _ & _ & Em).
  rewrite E. cbn [snd].
  assert (chains w' !! p = Some c) as Hp' by (rewrite Ec; by apply lookup_app_l_Some).
  assert (chainAborted c w' = true) as Hab.
  { unfold chainAborted. rewrite Hc, Em. unfold registerAbort, bound.
    destruct (String.eqb_spec sid "") as [?|_]; [done|]. cbn [snd].
    change (sessionManager (onSessionManager ?f w)) with (f (sessionManager w)).
    cbv beta.
    destruct (K p c ctl sid Hp Hc Hsid) as [H|H].
    - by apply (runOp_abort_mono (OpRegisterOperation sid)).
    - destruct (register_effect sid (sessionManager w)) as (_ & Ectl & _).
      apply aborted_true. rewrite Ectl. apply lookup_app_l_Some, aborted_true.
      by apply cancel_aborts. }
  split; [done|]. split; [done|].
  intros a le d Hst. unfold timerFired. rewrite Hp', Hst.
  pose proof (proj2 (reachableVerifier_budgetOk w Hr) p c Hp) as Hb.
  rewrite Hst in Hb. cbn in Hb. destruct Hb as (_ & Ha & _).
  destruct (loopIteration_shape p c a le w') as [[_ ->]|(Hn & _)]; [lia| |congruence].
  destruct (cancelPath_shape p c w') as (r & Hs & R1 & R2 & _).
  exists r. split; [by apply (chainStep_chain _ _ _ _ _ _ _ c Hs)|].
  split; [done|]. split; [done|]. apply Hs.
Qed.

Lemma X25_witness :
  chainAborted
    (mkChain "x" "x" "https://example.com/verify" (Some "s") (Some 0%nat)
       SKILL_VERIFICATION_TIMEOUT (Sleeping 1 (Some (lastErrorOf networkError 1003)) 2000) true)
    (snd (verifySkill "y" (Some "s") None
            (runVerifierOp (VRegisterSkill "y" "y" "Y" (Some "https://example.com/y"))
               verifierSleeping))) = true.
Proof.
  eapply (X25_newer_verification_cancels_older
            (runVerifierOp (VRegisterSkill "y" "y" "Y" (Some "https://example.com/y"))
               verifierSleeping) 0 _ 0 "s" "y" None 1
            (Skill.mk "y" "y" "Y" unverified (Some "https://example.com/y") None None 0)).
  - apply reachableVerifier_step, reachableVerifier_runVerifierOps,
      reachableVerifier_runVerifierOps, reachableVerifier_init.
  - reflexivity.
  - reflexivity.
  - reflexivity.
  - discriminate.
  - reflexivity.
  - reflexivity.
  - reflexivity.
Defined.

End VerifierMore.

(** ** Configuration migration *)

Lemma prop_absent props k : k ∉ map fst props → prop (JObj props) k = JUndefined.
Proof.
  intros H. unfold prop. by rewrite (proj2 (map_get_None_keys k props) H).
Qed.

Lemma prop_head k x props : prop (JObj ((k, x) :: props)) k = x.
Proof. unfold prop. cbn. by rewrite String.eqb_refl. Qed.

Lemma prop_tail k k' x props :
  k' ≠ k → prop (JObj ((k, x) :: props)) k' = prop (JObj props) k'.
Proof.
  intros H. unfold prop. cbn. destruct (String.eqb_spec k' k); [done|done].
Qed.

Lemma hasProperty_absent props k : k ∉ map fst props → hasProperty k (JObj props) = false.
Proof.
  intros H. cbn. apply not_true_is_false. intros E. apply existsb_exists in E as (y & Hy & E).
  apply String.eqb_eq in E as <-. apply H. by apply list_elem_of_In.
Qed.

Lemma isObjectValue_obj props : isObjectValue (JObj props) = true.
Proof. done. Qed.

Lemma recordOf_obj fields v : recordOf fields v → isObjectValue v = true.
Proof. by intros (props & -> & _). Qed.

Lemma recordOf_absent fields v k :
  recordOf fields v → k ∉ map fst fields →
  prop v k = JUndefined ∧ hasProperty k v = false.
Proof.
  intros (props & -> & Hs & _) Hk.
  assert (k ∉ map fst props) as H by (intros H; apply Hk; by apply (elem_of_sublist _ _ _ H Hs)).
  split; [by apply prop_absent|by apply hasProperty_absent].
Qed.

Lemma migrateFields_ext specs v v' :
  (∀ k, k ∈ map fst specs → prop v k = prop v' k) →
  migrateFields specs v = migrateFields specs v'.
Proof.
  unfold migrateFields. induction specs as [|[k f] specs IH]; intros H; [done|].
  cbn [flat_map fst snd]. rewrite (H k) by (cbn; left). f_equal. apply IH.
  intros k' Hk'. apply H. cbn. by right.
Qed.

(** What the copying stores has the shape of the fields. *)
Lemma migrateFields_shape specs fields v :
  NoDup (map fst specs) →
  Forall2 (λ s fd, fst s = fst fd ∧ ∀ x y, snd s x = Some y → snd fd y) specs fields →
  recordOf fields (JObj (migrateFields specs v)).
Proof.
  intros Hnd HF. exists (migrateFields specs v). split; [done|].
  induction HF as [|[k f] [k0 P] specs fields [Hk Hf] HF IH]; [by split; [|intros ??? H; inversion H]|].
  cbn in Hk. subst k0. apply NoDup_cons in Hnd as [Hk Hnd]. destruct (IH Hnd) as [IH1 IH2].
  assert (map fst specs = map fst fields) as Ekeys.
  { clear -HF. induction HF as [|s fd ss fs [E _] _ IH]; [done|]. cbn. by rewrite E, IH. }
  unfold migrateFields in *. cbn [flat_map fst snd map].
  destruct (f (prop v k)) as [y|] eqn:Ef; cbn [app].
  - split; [by apply sublist_skip|].
    intros k' x P' Hin HP. apply elem_of_cons in Hin as [Hin|Hin]; apply elem_of_cons in HP as [HP|HP].
    + injection Hin as -> ->. injection HP as ->. by apply (Hf (prop v k)).
    + injection Hin as -> ->. destruct Hk. change (k ∈ map fst specs). rewrite Ekeys.
      apply list_elem_of_In. apply list_elem_of_In in HP.
      by apply (in_map fst _ (k, P')).
    + injection HP as -> ->. destruct Hk. change (k ∈ map fst specs). rewrite Ekeys.
      apply (λ H, elem_of_sublist _ _ _ H IH1).
      apply list_elem_of_In. apply list_elem_of_In in Hin.
      by apply (in_map fst _ (k, x)).
    + by apply (IH2 k' x P').
  - split; [by apply sublist_cons|].
    intros k' x P' Hin HP. apply elem_of_cons in HP as [HP|HP].
    + injection HP as -> ->. destruct Hk. change (k ∈ map fst specs). rewrite Ekeys.
      apply (λ H, elem_of_sublist _ _ _ H IH1).
      apply list_elem_of_In. apply list_elem_of_In in Hin.
      by apply (in_map fst _ (k, x)).
    + by apply (IH2 k' x P').
Qed.

(** A value that has the shape of the fields is copied as it is. *)
Lemma migrateFields_fixed specs fields :
  NoDup (map fst specs) →
  Forall2 (λ s fd, fst s = fst fd ∧ snd s JUndefined = None
                   ∧ ∀ x, snd fd x → snd s x = Some x) specs fields →
  ∀ props, recordOf fields (JObj props) → migrateFields specs (JObj props) = props.
Proof.
  intros Hnd HF.
  induction HF as [|[k f] [k0 P] specs fields (Hk & Hu & Hf) HF IH]; intros props (p0 & [= <-] & Hs & HP).
  { cbn in Hs. apply sublist_nil_r in Hs. by destruct props. }
  cbn in Hk, Hu, Hf. subst k0. apply NoDup_cons in Hnd as [Hk Hnd].
  assert (map fst specs = map fst fields) as Ekeys.
  { clear -HF. induction HF as [|s fd ss fs [E _] _ IH]; [done|]. cbn. by rewrite E, IH. }
  cbn [map fst] in Hs. apply sublist_cons_r in Hs as [Hs|(l' & El & Hs)].
  - (* the key is absent *)
    assert (k ∉ map fst props) as Hab.
    { intros H. apply Hk. change (k ∈ map fst specs). rewrite Ekeys. by apply (elem_of_sublist _ _ _ H Hs). }
    unfold migrateFields. cbn [flat_map fst snd]. rewrite (prop_absent props k Hab), Hu.
    cbn [app]. apply (IH Hnd). exists props. split; [done|]. split; [done|].
    intros k' x P' Hin HP'. apply (HP k' x P' Hin). by right.
  - destruct props as [|[k1 x1] props]; [done|]. cbn [map fst] in El. injection El as -> <-.
    unfold migrateFields. cbn [flat_map fst snd]. rewrite prop_head.
    rewrite (Hf x1) by (apply (HP k x1 P); by left). cbn [app]. f_equal.
    change (migrateFields specs (JObj ((k, x1) :: props)) = props).
    rewrite (migrateFields_ext specs _ (JObj props)).
    + apply (IH Hnd). exists props. split; [done|]. split; [done|].
      intros k' x P' Hin HP'. apply (HP k' x P'); by right.
    + intros k' Hk'. apply prop_tail. by intros ->.
Qed.

Lemma keepIf_typed type x y : keepIf type x = Some y → typeof y = type.
Proof.
  unfold keepIf. destruct (String.eqb_spec (typeof x) type); [|done]. by intros [= <-].
Qed.

Lemma keepIf_fixed type x : typeof x = type → keepIf type x = Some x.
Proof. unfold keepIf. intros ->. by rewrite String.eqb_refl. Qed.

Lemma copyIf_keepIf type source key :
  copyIf type source key
  = match keepIf type (prop source key) with Some y => [(key, y)] | None => [] end.
Proof. unfold copyIf, keepIf. by destruct (String.eqb _ _). Qed.


Lemma migrateDefaults_fields d : migrateDefaults d = JObj (migrateFields defaultsSpecs d).
Proof.
  unfold migrateDefaults, migrateFields, defaultsSpecs. cbn [flat_map fst snd].
  by rewrite !copyIf_keepIf, app_nil_r.
Qed.

Lemma migrateSessions_fields d : migrateSessions d = JObj (migrateFields sessionsSpecs d).
Proof.
  unfold migrateSessions, migrateFields, sessionsSpecs. cbn [flat_map fst snd].
  by rewrite !copyIf_keepIf, app_nil_r.
Qed.

Lemma migrateNetwork_fields d : migrateNetwork d = JObj (migrateFields networkSpecs d).
Proof.
  unfold migrateNetwork, migrateFields, networkSpecs. cbn [flat_map fst snd].
  by rewrite !copyIf_keepIf, app_nil_r.
Qed.

Lemma migrateAgents_fields a : migrateAgents a = JObj (migrateFields agentsSpecs a).
Proof.
  unfold migrateAgents, migrateFields, agentsSpecs, nested. cbn [flat_map fst snd].
  by destruct (isObjectValue _).
Qed.

Lemma migrateConfig_fields c :
  fst (migrateConfig c)
  = if isObjectValue c then JObj (migrateFields appSpecs c) else JObj [].
Proof.
  unfold migrateConfig.
  change (isObjectValue c) with (truthy c && String.eqb (typeof c) "object").
  destruct (truthy c), (String.eqb (typeof c) "object"); cbn [negb orb andb fst]; try done.
  unfold migrateFields, appSpecs, nested. cbn [flat_map fst snd].
  rewrite copyIf_keepIf, app_nil_r.
  by destruct (isObjectValue (prop c "agents")), (isObjectValue (prop c "sessions")),
    (isObjectValue (prop c "network")).
Qed.

Ltac distinct_keys := cbn; apply (bool_decide_unpack _); vm_compute; reflexivity.

Ltac no_key :=
  cbn; let H := fresh in
  intros H; repeat (apply elem_of_cons in H as [H|H]; [discriminate H|]);
  by apply elem_of_nil in H.

Lemma nested_shape (f : jsval → jsval) (P : jsval → Prop) x y :
  (∀ z, P (f z)) → nested f x = Some y → P y.
Proof. unfold nested. intros H. destruct (isObjectValue x); [|done]. by intros [= <-]. Qed.

Lemma nested_fixed (f : jsval → jsval) fields x :
  (∀ z, recordOf fields z → f z = z) → recordOf fields x → nested f x = Some x.
Proof. intros H Hx. unfold nested. by rewrite (recordOf_obj _ _ Hx), (H x Hx). Qed.

Lemma migrateDefaults_shape d : agentDefaultsShape (migrateDefaults d).
Proof.
  rewrite migrateDefaults_fields. apply migrateFields_shape; [distinct_keys|].
  repeat (constructor; [split; [done|]; intros x y; apply keepIf_typed|]).
  constructor.
Qed.

Lemma migrateSessions_shape d :
  recordOf [("defaultTimeout", isNumber); ("maxConcurrent", isNumber);
            ("cleanupInterval", isNumber)] (migrateSessions d).
Proof.
  rewrite migrateSessions_fields. apply migrateFields_shape; [distinct_keys|].
  repeat (constructor; [split; [done|]; intros x y; apply keepIf_typed|]).
  constructor.
Qed.

Lemma migrateNetwork_shape d :
  recordOf [("timeout", isNumber); ("maxRetries", isNumber); ("retryDelayBase", isNumber)]
    (migrateNetwork d).
Proof.
  rewrite migrateNetwork_fields. apply migrateFields_shape; [distinct_keys|].
  repeat (constructor; [split; [done|]; intros x y; apply keepIf_typed|]).
  constructor.
Qed.

Lemma migrateAgents_shape a : recordOf [("defaults", agentDefaultsShape)] (migrateAgents a).
Proof.
  rewrite migrateAgents_fields. apply migrateFields_shape; [distinct_keys|].
  constructor; [|constructor]. split; [done|]. intros x y.
  apply nested_shape, migrateDefaults_shape.
Qed.

Lemma migrateConfig_shape c : appConfigShape (fst (migrateConfig c)).
Proof.
  rewrite migrateConfig_fields. destruct (isObjectValue c).
  - apply migrateFields_shape; [distinct_keys|].
    constructor; [split; [done|]; intros x y; apply keepIf_typed|].
    constructor;
      [split; [done|]; intros x y; apply nested_shape, migrateAgents_shape|].
    constructor;
      [split; [done|]; intros x y; apply nested_shape, migrateSessions_shape|].
    constructor;
      [split; [done|]; intros x y; apply nested_shape, migrateNetwork_shape|].
    constructor.
  - exists []. split; [done|]. split; [apply sublist_nil_l|]. intros k x P H. inversion H.
Qed.

Ltac fixed_numbers :=
  repeat (constructor;
          [split; [done|]; split; [done|]; intros x; apply keepIf_fixed|]);
  constructor.

Lemma migrateDefaults_fixed d : agentDefaultsShape d → migrateDefaults d = d.
Proof.
  intros H. destruct H as (props & -> & H). rewrite migrateDefaults_fields. f_equal.
  apply (migrateFields_fixed defaultsSpecs
           [("model", isString); ("system", isString);
            ("temperature", isNumber); ("maxTokens", isNumber)]);
    [distinct_keys|fixed_numbers|by exists props].
Qed.

Lemma migrateSessions_fixed d :
  recordOf [("defaultTimeout", isNumber); ("maxConcurrent", isNumber);
            ("cleanupInterval", isNumber)] d →
  migrateSessions d = d.
Proof.
  intros H. destruct H as (props & -> & H). rewrite migrateSessions_fields. f_equal.
  apply (migrateFields_fixed sessionsSpecs
           [("defaultTimeout", isNumber); ("maxConcurrent", isNumber);
            ("cleanupInterval", isNumber)]);
    [distinct_keys|fixed_numbers|by exists props].
Qed.

Lemma migrateNetwork_fixed d :
  recordOf [("timeout", isNumber); ("maxRetries", isNumber); ("retryDelayBase", isNumber)] d →
  migrateNetwork d = d.
Proof.
  intros H. destruct H as (props & -> & H). rewrite migrateNetwork_fields. f_equal.
  apply (migrateFields_fixed networkSpecs
           [("timeout", isNumber); ("maxRetries", isNumber); ("retryDelayBase", isNumber)]);
    [distinct_keys|fixed_numbers|by exists props].
Qed.

Lemma migrateAgents_fixed a : recordOf [("defaults", agentDefaultsShape)] a → migrateAgents a = a.
Proof.
  intros H. destruct H as (props & -> & H). rewrite migrateAgents_fields. f_equal.
  apply (migrateFields_fixed agentsSpecs [("defaults", agentDefaultsShape)]);
    [distinct_keys| |by exists props].
  constructor; [|constructor]. split; [done|]. split; [done|]. intros x.
  apply nested_fixed, migrateDefaults_fixed.
Qed.

Lemma migrateConfig_value_fixed v : appConfigShape v → fst (migrateConfig v) = v.
Proof.
  intros H. rewrite migrateConfig_fields, (recordOf_obj _ _ H).
  destruct H as (props & -> & H). f_equal.
  apply (migrateFields_fixed appSpecs
           [("version", isString);
            ("agents", recordOf [("defaults", agentDefaultsShape)]);
            ("sessions", recordOf [("defaultTimeout", isNumber); ("maxConcurrent", isNumber);
                                   ("cleanupInterval", isNumber)]);
            ("network", recordOf [("timeout", isNumber); ("maxRetries", isNumber);
                                  ("retryDelayBase", isNumber)])]);
    [distinct_keys| |by exists props].
  constructor; [split; [done|]; split; [done|]; intros x; apply keepIf_fixed|].
  constructor;
    [split; [done|]; split; [done|]; intros x; apply nested_fixed, migrateAgents_fixed|].
  constructor;
    [split; [done|]; split; [done|]; intros x; apply nested_fixed, migrateSessions_fixed|].
  constructor;
    [split; [done|]; split; [done|]; intros x; apply nested_fixed, migrateNetwork_fixed|].
  constructor.
Qed.

(** A field of a record is absent or as the field list says. *)
Lemma recordOf_prop fields v k P :
  recordOf fields v → (k, P) ∈ fields → prop v k = JUndefined ∨ P (prop v k).
Proof.
  intros (props & -> & _ & H) Hk. unfold prop.
  destruct (map_get k props) as [x|] eqn:E; [|by left]. right. cbn.
  apply (H k x P); [by apply map_get_Some_elem|done].
Qed.

Lemma shape_no_tools v :
  appConfigShape v → hasProperty "tools" (prop (prop v "agents") "defaults") = false.
Proof.
  intros H.
  destruct (recordOf_prop _ v "agents" _ H ltac:(right; left)) as [->|Ha]; [done|].
  destruct (recordOf_prop _ _ "defaults" _ Ha ltac:(left)) as [->|Hd]; [done|].
  apply (recordOf_absent _ _ "tools" Hd). no_key.
Qed.

(** The condition under which [migrateConfig] writes its warning. *)
Lemma migrateConfig_console c :
  snd (migrateConfig c)
  = if isObjectValue c && isObjectValue (prop c "agents")
       && isObjectValue (prop (prop c "agents") "defaults")
       && hasProperty "tools" (prop (prop c "agents") "defaults")
    then [RemovingToolsKey] else [].
Proof.
  unfold migrateConfig.
  change (isObjectValue c) with (truthy c && String.eqb (typeof c) "object").
  by destruct (truthy c), (String.eqb (typeof c) "object").
Qed.

(** X26. Whatever it is given, [migrateConfig] returns a plain object
    that holds supported keys only, in the order [version], [agents],
    [sessions], [network]: [version] is a string, [agents] holds at most
    [defaults] with at most [model], [system] (strings), [temperature] and
    [maxTokens] (numbers), and [sessions] and [network] hold their three
    numbers at most.  So [agents.defaults.tools] is never kept, and neither is
    a top-level [skills].  A value that is no object ([null], a string, a
    number, ...) gives the empty object and no warning. *)
Theorem X26_migrateConfig_supported_keys c :
  appConfigShape (fst (migrateConfig c))
  ∧ prop (fst (migrateConfig c)) "skills" = JUndefined
  ∧ hasProperty "skills" (fst (migrateConfig c)) = false
  ∧ hasProperty "tools" (prop (prop (fst (migrateConfig c)) "agents") "defaults") = false
  ∧ (isObjectValue c = false → migrateConfig c = (JObj [], [])).
Proof.
  pose proof (migrateConfig_shape c) as H.
  split; [done|].
  assert ("skills" ∉ map fst
            [("version", isString);
             ("agents", recordOf [("defaults", agentDefaultsShape)]);
             ("sessions", recordOf [("defaultTimeout", isNumber); ("maxConcurrent", isNumber);
                                    ("cleanupInterval", isNumber)]);
             ("network", recordOf [("timeout", isNumber); ("maxRetries", isNumber);
                                   ("retryDelayBase", isNumber)])]) as Hk by no_key.
  destruct (recordOf_absent _ _ "skills" H Hk) as [H1 H2].
  split; [done|]. split; [done|]. split; [by apply shape_no_tools|].
  intros Hc. apply injective_projections.
  - by rewrite migrateConfig_fields, Hc.
  - by rewrite migrateConfig_console, Hc.
Qed.

(** X27. The configurations that [migrateConfig] returns unchanged are
    exactly those of the shape it produces (supported keys in the order of
    the schema, strings and numbers where the schema has them); on these it
    writes no warning.  Hence migrating twice is the same as migrating once. *)
Theorem X27_migrateConfig_fixed_points v :
  (appConfigShape v ↔ fst (migrateConfig v) = v)
  ∧ (appConfigShape v → snd (migrateConfig v) = [])
  ∧ migrateConfig (fst (migrateConfig v)) = (fst (migrateConfig v), []).
Proof.
  assert (∀ u, appConfigShape u → snd (migrateConfig u) = []) as Hq.
  { intros u Hu. rewrite migrateConfig_console, (shape_no_tools u Hu).
    by rewrite andb_false_r. }
  split; [split|split].
  - apply migrateConfig_value_fixed.
  - intros <-. apply migrateConfig_shape.
  - apply Hq.
  - pose proof (migrateConfig_shape v) as H. apply injective_projections; cbn [fst snd].
    + by apply migrateConfig_value_fixed.
    + by apply Hq.
Qed.

(** X28. The warning about [tools].  [validateAppConfig] gives it
    exactly when the parse fails and [agents.defaults] is an object with a
    [tools] key, which is exactly when [migrateConfig] writes its warning and
    strips the key; whatever the parse answers, a migrated configuration and
    migrated agent defaults never draw the warning. *)
Theorem X28_tools_warning {D E} (safeParse : jsval → D + E) c :
  (v_warnings (validateAppConfig safeParse c) = Some [ToolsInAgentDefaults]
   ↔ (∃ e, safeParse c = inr e) ∧ snd (migrateConfig c) = [RemovingToolsKey])
  ∧ (v_warnings (validateAppConfig safeParse c) = None
     ↔ (∃ d, safeParse c = inl d) ∨ snd (migrateConfig c) = [])
  ∧ v_warnings (validateAppConfig safeParse (fst (migrateConfig c))) = None
  ∧ v_warnings (validateAgentConfig safeParse (migrateDefaults c)) = None.
Proof.
  assert (∀ u, v_warnings (validateAppConfig safeParse u)
               = match safeParse u with
                 | inl _ => None
                 | inr _ => nonEmpty (map (λ _, ToolsInAgentDefaults) (snd (migrateConfig u)))
                 end) as Hw.
  { intros u. unfold validateAppConfig. rewrite migrateConfig_console.
    destruct (safeParse u) as [d|e]; [done|]. cbn [v_warnings]. unfold isObjectValue.
    destruct (truthy u && String.eqb (typeof u) "object"); [|done].
    destruct (truthy (prop u "agents") && String.eqb (typeof (prop u "agents")) "object");
      [|done].
    destruct (truthy (prop (prop u "agents") "defaults")
              && String.eqb (typeof (prop (prop u "agents") "defaults")) "object"); [|done].
    by destruct (hasProperty "tools" (prop (prop u "agents") "defaults")). }
  assert (snd (migrateConfig c) = [] ∨ snd (migrateConfig c) = [RemovingToolsKey]) as Hc.
  { rewrite migrateConfig_console. destruct (_ && _); [by right|by left]. }
  split; [|split; [|split]].
  - rewrite Hw. destruct (safeParse c) as [d|e].
    + split; [done|]. by intros [[e He] _].
    + destruct Hc as [-> | ->]; cbn; split; try done.
      * by intros [_ ?].
      * intros _. split; [by exists e|done].
  - rewrite Hw. destruct (safeParse c) as [d|e].
    + split; [|done]. intros _. left. by exists d.
    + destruct Hc as [-> | ->]; cbn; split; try done.
      * intros _. by right.
      * intros [[d Hd]|H]; done.
  - rewrite Hw. destruct (safeParse _); [done|].
    pose proof (migrateConfig_shape c) as H.
    rewrite migrateConfig_console, (shape_no_tools _ H). by rewrite andb_false_r.
  - unfold validateAgentConfig. destruct (safeParse _); [done|]. cbn [v_warnings].
    destruct (recordOf_absent _ _ "tools" (migrateDefaults_shape c)) as [_ ->]; [no_key|].
    by rewrite andb_false_r.
Qed.

(** ** Requests with retries *)

Section RequestWithRetryMore.
Context {T : Type}.
Variable request : nat → Outcome T.
Variable signalAborted : nat → bool.
Variable maxRetries : Z.

Lemma retryLoop_spec : ∀ fuel attempt lastError slept,
  Z.of_nat attempt ≤ maxRetries → (Z.to_nat maxRetries < attempt + fuel)%nat →
  ∃ run,
    retryLoop request signalAborted maxRetries fuel attempt attempt lastError slept = Some run
    ∧ (attempt < requests run)%nat
    ∧ Z.of_nat (requests run) ≤ maxRetries + 1
    ∧ delays run
      = slept ++ map calculateRetryDelay (seq (S attempt) (requests run - 1 - attempt))
    ∧ (∀ k, (attempt ≤ k < requests run - 1)%nat →
         ∃ e, request k = Threw e ∧ isRecoverableError e = true ∧ signalAborted k = false)
    ∧ match request (requests run - 1)%nat with
      | Returned value => settlement run = Resolves value
      | Threw e =>
          settlement run = Rejects (Some e)
          ∧ (signalAborted (requests run - 1)%nat = true
             ∨ isRecoverableError e = false
             ∨ Z.of_nat (requests run) = maxRetries + 1)
      end.
Proof.
  induction fuel as [|fuel IH]; intros attempt lastError slept Ha Hf; [lia|].
  cbn [retryLoop]. rewrite (proj2 (Z.leb_le _ _) Ha).
  destruct (request attempt) as [value|e] eqn:Er.
  - eexists. split; [reflexivity|]. cbn [requests delays settlement].
    replace (S attempt - 1)%nat with attempt by lia. rewrite Er, Nat.sub_diag, app_nil_r.
    repeat split; try done; try lia; intros k Hk; lia.
  - destruct (signalAborted attempt) eqn:Eab.
    { eexists. split; [reflexivity|]. cbn [requests delays settlement].
      replace (S attempt - 1)%nat with attempt by lia. rewrite Er, Nat.sub_diag, app_nil_r.
      repeat split; try done; try lia. by left. }
    destruct (isRecoverableError e) eqn:Erec; cbn [andb].
    + destruct (Z.ltb_spec (Z.of_nat attempt) maxRetries) as [Hlt|Hge].
      * destruct (IH (S attempt) (Some e) (slept ++ [calculateRetryDelay (S attempt)]))
          as (run & Hrun & H1 & H2 & H3 & H4 & H5); [lia|lia|].
        exists run. split; [done|]. split; [lia|]. split; [done|]. split; [|split; [|done]].
        -- rewrite H3, <-app_assoc. f_equal.
           replace (requests run - 1 - attempt)%nat with (S (requests run - 1 - S attempt))
             by lia.
           done.
        -- intros k Hk. destruct (decide (k = attempt)) as [->|Hne].
           ++ by exists e.
           ++ apply H4. lia.
      * eexists. split; [reflexivity|]. cbn [requests delays settlement].
        replace (S attempt - 1)%nat with attempt by lia. rewrite Er, Nat.sub_diag, app_nil_r.
        repeat split; try done; lia.
    + eexists. split; [reflexivity|]. cbn [requests delays settlement].
      replace (S attempt - 1)%nat with attempt by lia. rewrite Er, Nat.sub_diag, app_nil_r.
      repeat split; try done; try lia. right. by left.
Qed.

Lemma delays_total (n : nat) :
  (n ≤ 3)%nat → foldr Z.add 0 (map calculateRetryDelay (seq 1 n)) ≤ 14000.
Proof.
  intros H. destruct n as [|[|[|[|n]]]]; [by vm_compute..|lia].
Qed.

(** X29. [requestWithRetry] is bounded.  With [maxRetries >= 0] it calls
    [request] between one and [maxRetries + 1] times and then settles; before
    call number [k + 1] it waits [calculateRetryDelay(k)], so 2 s, 4 s, 8 s,
    ...; every call but the last threw a recoverable error while the signal
    was not aborted; it resolves with what the last call returned, or rejects
    with what the last call threw, and that was an abort, an error that is
    not recoverable, or the last call allowed.  With the default of three
    retries that is at most four calls and 14 s of waiting.  With a negative
    [maxRetries] no call is made and the promise rejects with [undefined]. *)
Theorem X29_requestWithRetry_bounded :
  (maxRetries < 0 →
   requestWithRetry request signalAborted maxRetries = Some (mkRetryRun (Rejects None) 0 []))
  ∧ (0 ≤ maxRetries →
     ∃ run,
       requestWithRetry request signalAborted maxRetries = Some run
       ∧ (1 ≤ requests run)%nat
       ∧ Z.of_nat (requests run) ≤ maxRetries + 1
       ∧ delays run = map calculateRetryDelay (seq 1 (requests run - 1))
       ∧ (∀ k, (k < requests run - 1)%nat →
            ∃ e, request k = Threw e ∧ isRecoverableError e = true
                 ∧ signalAborted k = false)
       ∧ match request (requests run - 1)%nat with
         | Returned value => settlement run = Resolves value
         | Threw e =>
             settlement run = Rejects (Some e)
             ∧ (signalAborted (requests run - 1)%nat = true
                ∨ isRecoverableError e = false
                ∨ Z.of_nat (requests run) = maxRetries + 1)
         end
       ∧ (maxRetries ≤ Z.of_nat MAX_RETRIES →
          (requests run ≤ 4)%nat ∧ foldr Z.add 0 (delays run) ≤ 14000)).
Proof.
  split.
  - intros H. unfold requestWithRetry. cbn [retryLoop].
    destruct (Z.leb_spec (Z.of_nat 0) maxRetries) as [H'|_]; [lia|done].
  - intros H. unfold requestWithRetry.
    destruct (retryLoop_spec (S (Z.to_nat maxRetries)) 0 None []) as
      (run & Hrun & H1 & H2 & H3 & H4 & H5); [lia|lia|].
    exists run. rewrite Nat.sub_0_r in H3. cbn [app] in H3.
    split; [done|]. split; [lia|]. split; [done|]. split; [done|].
    split; [intros k Hk; apply H4; lia|]. split; [done|].
    intros Hm. unfold MAX_RETRIES in Hm. split; [lia|]. rewrite H3. apply delays_total. lia.
Qed.

End RequestWithRetryMore.

(** ** Subscription store *)

Section SubscriptionsMore.
Import SubscriptionStore.

Lemma arrayIncludes_elem name l : arrayIncludes name l = true ↔ name ∈ l.
Proof.
  unfold arrayIncludes. rewrite existsb_exists, list_elem_of_In. split.
  - intros (x & Hx & E). by apply String.eqb_eq in E as <-.
  - intros H. exists name. by rewrite String.eqb_refl.
Qed.

Lemma isSubscribed_add name n s :
  isSubscribed name (addSubscription n s) = (String.eqb n name || isSubscribed name s).
Proof.
  unfold isSubscribed, addSubscription.
  destruct (arrayIncludes n s) eqn:En; cbn [negb].
  - destruct (String.eqb_spec n name) as [->|_]; [|done]. by rewrite En.
  - unfold arrayIncludes. rewrite existsb_app. cbn. rewrite orb_false_r, orb_comm.
    by rewrite (String.eqb_sym name n).
Qed.

Lemma isSubscribed_remove name n s :
  isSubscribed name (removeSubscription n s) = (negb (String.eqb n name) && isSubscribed name s).
Proof.
  unfold isSubscribed, removeSubscription, arrayIncludes.
  induction s as [|x s IH]; [by rewrite andb_false_r|]. cbn.
  destruct (String.eqb_spec x n) as [->|Hx]; cbn.
  - rewrite IH. rewrite (String.eqb_sym name n). by destruct (String.eqb n name).
  - rewrite IH. destruct (String.eqb_spec name x) as [->|_]; [|done]. cbn.
    destruct (String.eqb_spec n x) as [->|_]; done.
Qed.

Lemma runSubscriptionOp_NoDup op s : NoDup s → NoDup (runSubscriptionOp op s).
Proof.
  intros H. destruct op as [n|n]; cbn.
  - unfold addSubscription. destruct (arrayIncludes n s) eqn:En; [done|]. cbn [negb].
    apply NoDup_app. split; [done|]. split; [|apply NoDup_singleton].
    intros x Hx Hx'. apply list_elem_of_singleton in Hx' as ->.
    apply arrayIncludes_elem in Hx. congruence.
  - unfold removeSubscription. induction H as [|x l Hx Hl IH]; cbn; [constructor|].
    destruct (negb (String.eqb x n)); [|done]. constructor; [|done].
    intros Hin. apply Hx. apply list_elem_of_In in Hin. apply filter_In in Hin as [Hin _].
    by apply list_elem_of_In.
Qed.

(** X30. The subscription list behaves as a set of names.  After any
    sequence of [addSubscription] and [removeSubscription] calls a name is
    subscribed exactly when the last call that named it was an
    [addSubscription] (or, if no call named it, when it was subscribed
    before); a list without repetitions stays without repetitions, so the list
    built from the empty initial state never holds a name twice; and
    [removeSubscription] removes every occurrence of the name. *)
Theorem X30_subscriptions_form_a_set ops s :
  (∀ name, isSubscribed name (runSubscriptionOps ops s)
           = lastSubscribes name ops (isSubscribed name s))
  ∧ (NoDup s → NoDup (runSubscriptionOps ops s))
  ∧ NoDup (runSubscriptionOps ops init)
  ∧ (∀ name, name ∉ removeSubscription name s).
Proof.
  assert (∀ ops s, NoDup s → NoDup (runSubscriptionOps ops s)) as Hnd.
  { clear. induction ops as [|op ops IH]; intros s H; [done|]. cbn.
    by apply IH, runSubscriptionOp_NoDup. }
  split; [|split; [apply Hnd|split; [apply Hnd, NoDup_nil_2|]]].
  - intros name. revert s. induction ops as [|[n|n] ops IH]; intros s; [done| |].
    + change (runSubscriptionOps (Subscribe n :: ops) s)
        with (runSubscriptionOps ops (addSubscription n s)).
      rewrite IH, isSubscribed_add. cbn [lastSubscribes].
      by destruct (String.eqb n name).
    + change (runSubscriptionOps (Unsubscribe n :: ops) s)
        with (runSubscriptionOps ops (removeSubscription n s)).
      rewrite IH, isSubscribed_remove. cbn [lastSubscribes].
      by destruct (String.eqb n name).
  - intros name H. apply arrayIncludes_elem in H.
    change (isSubscribed name (removeSubscription name s) = true) in H.
    rewrite isSubscribed_remove, String.eqb_refl in H. done.
Qed.

End SubscriptionsMore.

(** ** [verifyAllSkills]: the scan, skill by skill, and the deadline *)

Section VerifyAllMore.
Import SkillVerifier.







End VerifyAllMore.
